(** * Description matcher: a shallow embedding of [src/utils/matcher.ts]

    The first part follows the source file top to bottom: JavaScript values
    and strings, [normalizeString], [calculateSimilarity], the synchronous
    sweep [matchDescriptions], the tokenizer, the candidate filter and the
    chunked scheduler behind [matchDescriptionsAsync]; it ends with the pure
    computations of the dashboard that consume the results
    ([src/components/EnhancedDashboard.tsx]).  The second part names what
    the properties talk about, the third part proves them.

    Modelling conventions.
    - A JavaScript string is a [string] whose characters are code units
      below 256 (Latin-1); case mapping and the whitespace class are the
      ECMAScript ones restricted to that range.
    - A finite JavaScript number is an exact rational ([Q]); the rounding of
      IEEE doubles is not modelled.  [number] adds the non-finite values that
      the code can produce ([0/0] in the progress computation).
    - A row (an [any]-typed object read with [row['key']]) is a finite map
      from field names to values.
    - A thrown [TypeError] is the [Throw] result of the error monad.
    - The promise returned by [matchDescriptionsAsync] is the value it
      resolves with, together with the scheduler state left by every chunk;
      the calls of the progress sink are the values logged in that state.
    - [compareTwoStrings] belongs to the package [string-similarity], which
      the repository imports but does not contain; it is modelled from the
      spec. *)

From Stdlib Require Import QArith Qround ZArith List String Ascii Bool Lia.
From Stdlib Require Import Wf_nat Sorted.
From stdpp Require Import gmap gmultiset strings list.
From Equations Require Import Equations.

Local Open Scope string_scope.
Local Open Scope list_scope.
Local Open Scope Z_scope.

(** ** Errors *)

Inductive Error : Type := TypeError.

Inductive result (A : Type) : Type :=
| Ok (a : A)
| Throw (e : Error).
Arguments Ok {A} a.
Arguments Throw {A} e.

#[global] Instance result_ret : MRet result := fun A a => Ok a.

#[global] Instance result_bind : MBind result := fun A B k r =>
  match r with
  | Ok a => k a
  | Throw e => Throw e
  end.

Definition isOk {A} (r : result A) : bool :=
  match r with Ok _ => true | Throw _ => false end.

(** [Array.prototype.map] with a callback that may throw: the rows are
    visited left to right and the first exception aborts the traversal. *)
Fixpoint mapM {A B} (f : nat -> A -> result B) (idx : nat) (l : list A)
  : result (list B) :=
  match l with
  | [] => Ok []
  | x :: rest =>
      y ← f idx x;
      ys ← mapM f (S idx) rest;
      Ok (y :: ys)
  end.

(** ** Numbers *)

Inductive number : Type :=
| Fin (q : Q)
| PosInf
| NegInf
| NaN.

Definition Qzero (q : Q) : bool := Qeq_bool q 0.
Definition Qpos (q : Q) : bool := negb (Qle_bool q 0).

(** [Math.round] on a finite number: the nearest integer, ties towards
    +Infinity. *)
Definition Math_round (x : Q) : Z := Qfloor (x + (1 # 2)).

(** [a / b] on finite operands (the sign of zero is not tracked). *)
Definition num_div (a b : Q) : number :=
  if Qzero b then
    if Qzero a then NaN else if Qpos a then PosInf else NegInf
  else Fin (a / b).

(** [x * k] for a finite, positive constant [k]. *)
Definition num_scale (x : number) (k : Q) : number :=
  match x with
  | Fin q => Fin (q * k)
  | other => other
  end.

Definition num_round (x : number) : number :=
  match x with
  | Fin q => Fin (inject_Z (Math_round q))
  | other => other
  end.

(** [x < k] for a finite constant [k]; any comparison with [NaN] is false. *)
Definition num_ltb (x : number) (k : Q) : bool :=
  match x with
  | Fin q => negb (Qle_bool k q)
  | NegInf => true
  | PosInf | NaN => false
  end.

(** ** Values and rows *)

Inductive Value : Type :=
| VUndefined
| VNull
| VString (s : string)
| VNumber (x : number).

Abbreviation Row := (gmap string Value).

(** [row[key]]: a missing property reads as [undefined]. *)
Definition get (row : Row) (key : string) : Value :=
  default VUndefined (row !! key).

(** ToBoolean. *)
Definition truthy (v : Value) : bool :=
  match v with
  | VUndefined | VNull => false
  | VString s => negb (String.eqb s "")
  | VNumber (Fin q) => negb (Qzero q)
  | VNumber NaN => false
  | VNumber _ => true
  end.

(** [a || b]. *)
Definition orElse (a b : Value) : Value := if truthy a then a else b.

(** ** Strings *)

Definition code (c : ascii) : N := N_of_ascii c.

(** The class [\s] (WhiteSpace and LineTerminator) below U+0100:
    TAB, LF, VT, FF, CR, SP and NBSP. *)
Definition isWhiteSpace (c : ascii) : bool :=
  let n := code c in
  ((9 <=? n) && (n <=? 13) || (n =? 32) || (n =? 160))%N.

(** The class [\w]: [A-Za-z0-9_]. *)
Definition isWordChar (c : ascii) : bool :=
  let n := code c in
  ((48 <=? n) && (n <=? 57) || (65 <=? n) && (n <=? 90)
   || (n =? 95) || (97 <=? n) && (n <=? 122))%N.

Definition toLowerChar (c : ascii) : ascii :=
  let n := code c in
  if ((65 <=? n) && (n <=? 90)
      || (192 <=? n) && (n <=? 222) && negb (n =? 215))%N
  then ascii_of_N (n + 32) else c.

Fixpoint toLowerCase (s : string) : string :=
  match s with
  | EmptyString => EmptyString
  | String c r => String (toLowerChar c) (toLowerCase r)
  end.

Fixpoint trimStart (s : string) : string :=
  match s with
  | EmptyString => EmptyString
  | String c r => if isWhiteSpace c then trimStart r else s
  end.

Fixpoint trimEnd (s : string) : string :=
  match s with
  | EmptyString => EmptyString
  | String c r =>
      let r' := trimEnd r in
      if isWhiteSpace c && String.eqb r' "" then "" else String c r'
  end.

Definition trim (s : string) : string := trimEnd (trimStart s).

(** [s.replace(/\s+/g, ' ')]; [inRun] tells that the previous character was
    whitespace, so that a maximal run yields one space. *)
Fixpoint collapseFrom (inRun : bool) (s : string) : string :=
  match s with
  | EmptyString => EmptyString
  | String c r =>
      if isWhiteSpace c
      then if inRun then collapseFrom true r
           else String " " (collapseFrom true r)
      else String c (collapseFrom false r)
  end.

Definition collapseWhitespace (s : string) : string := collapseFrom false s.

(** [s.replace(/[^\w\s]/g, '')]. *)
Fixpoint stripPunctuation (s : string) : string :=
  match s with
  | EmptyString => EmptyString
  | String c r =>
      if isWordChar c || isWhiteSpace c
      then String c (stripPunctuation r)
      else stripPunctuation r
  end.

(** [s.split(/\s+/)]: [cur] is the piece being read. *)
Fixpoint splitFrom (inRun : bool) (cur : string) (s : string) : list string :=
  match s with
  | EmptyString => [cur]
  | String c r =>
      if isWhiteSpace c
      then if inRun then splitFrom true "" r
           else cur :: splitFrom true "" r
      else splitFrom false (cur ++ String c "")%string r
  end.

Definition splitWhitespace (s : string) : list string := splitFrom false "" s.

(** ** normalizeString (matcher.ts, lines 14-21) *)

Definition normalizeText (s : string) : string :=
  stripPunctuation (collapseWhitespace (trim (toLowerCase s))).

Definition normalizeString (str : Value) : result string :=
  if negb (truthy str) then Ok ""
  else match str with
       | VString s => Ok (normalizeText s)
       | _ => Throw TypeError (* str.toLowerCase is not a function *)
       end.

(** ** compareTwoStrings (package [string-similarity]) *)

Definition Qnat (n : nat) : Q := inject_Z (Z.of_nat n).

(** The overlapping two-character substrings of [s], left to right. *)
Fixpoint bigrams (s : string) : list string :=
  match s with
  | String a (String b _ as r) => String a (String b "") :: bigrams r
  | _ => []
  end.

Definition bigramBag (s : string) : gmultiset string :=
  list_to_set_disj (bigrams s).

(** Modelled from the spec: [compareTwoStrings], imported from the package
    [string-similarity], whose code is not part of the repository.  The
    spec (section 4.3) gives Dice's coefficient over the multisets [A] and
    [B] of character bigrams, [2 * |A ∩ B| / (|A| + |B|)] with a bigram that
    occurs [k] times on one side and [j] times on the other counted
    [min k j] times, and, for a string shorter than two characters, 1 against
    an equal string and 0 against any other. *)
Definition compareTwoStrings (first second : string) : Q :=
  if (String.length first <? 2)%nat || (String.length second <? 2)%nat
  then if String.eqb first second then 1%Q else 0%Q
  else
    let A := bigramBag first in
    let B := bigramBag second in
    (2 * Qnat (size (A ∩ B)) / (Qnat (size A) + Qnat (size B)))%Q.

(** ** calculateSimilarity (matcher.ts, lines 26-34) *)

Definition isEmpty (s : string) : bool := String.eqb s "".

(** [Math.round(x * 100) / 100] written on the percentage [x]. *)
Definition roundTo2 (x : Q) : Q := (inject_Z (Math_round (x * 100)) / 100)%Q.

Definition calculateSimilarity (desc1 desc2 : Value) : result Q :=
  normalized1 ← normalizeString desc1;
  normalized2 ← normalizeString desc2;
  if isEmpty normalized1 || isEmpty normalized2 then Ok 0%Q
  else
    let similarity := compareTwoStrings normalized1 normalized2 in
    Ok (inject_Z (Math_round (similarity * 10000)) / 100)%Q.

(** ** MatchResult and the ranker *)

Record MatchResult : Type := mkMatch {
  itemMasterRow : Row;
  genConsumableRow : Row;
  matchPercentage : Q;
  (* declared [string]; the stored value is [row[...] || ''] of an
     [any]-typed row *)
  itemMasterDescription : Value;
  genConsumableDescription : Value
}.

(** [matches.sort((a, b) => b.matchPercentage - a.matchPercentage)]:
    a stable sort, larger percentages first. *)
Fixpoint insertDesc (m : MatchResult) (l : list MatchResult)
  : list MatchResult :=
  match l with
  | [] => [m]
  | x :: rest =>
      if Qle_bool (matchPercentage x) (matchPercentage m)
      then m :: x :: rest
      else x :: insertDesc m rest
  end.

Fixpoint sortDesc (l : list MatchResult) : list MatchResult :=
  match l with
  | [] => []
  | m :: rest => insertDesc m (sortDesc rest)
  end.

(** [l.slice(0, end)] for an integer [end]: a negative [end] counts from
    the end of the array. *)
Definition slice0 {A} (l : list A) (end_ : Z) : list A :=
  let len := Z.of_nat (length l) in
  let k := if end_ <? 0 then Z.max (len + end_) 0 else Z.min end_ len in
  firstn (Z.to_nat k) l.

Definition rank (matches : list MatchResult) (maxResults : Z)
  : list MatchResult :=
  slice0 (sortDesc matches) maxResults.

(** ** matchDescriptions (matcher.ts, lines 40-77) *)

Section Sweep.
Variable minThreshold : Q.

(** The inner [for] loop over [genConsumableData]. *)
Fixpoint sweepGen (itemRow : Row) (itemDesc : Value)
    (genConsumableData : list Row) (matches : list MatchResult)
  : result (list MatchResult) :=
  match genConsumableData with
  | [] => Ok matches
  | genRow :: rest =>
      let genDesc := orElse (get genRow "LONG DESCRIPTION") (VString "") in
      if negb (truthy genDesc) then sweepGen itemRow itemDesc rest matches
      else
        matchPercentage ← calculateSimilarity itemDesc genDesc;
        if Qle_bool minThreshold matchPercentage
        then sweepGen itemRow itemDesc rest
               (matches ++ [mkMatch itemRow genRow matchPercentage
                              itemDesc genDesc])
        else sweepGen itemRow itemDesc rest matches
  end.

(** The outer [for] loop over [itemMasterData]. *)
Fixpoint sweepItems (itemMasterData genConsumableData : list Row)
    (matches : list MatchResult) : result (list MatchResult) :=
  match itemMasterData with
  | [] => Ok matches
  | itemRow :: rest =>
      let itemDesc := orElse (get itemRow "Description") (VString "") in
      if negb (truthy itemDesc)
      then sweepItems rest genConsumableData matches
      else
        matches' ← sweepGen itemRow itemDesc genConsumableData matches;
        sweepItems rest genConsumableData matches'
  end.
End Sweep.

(** The accumulator [matches] when the loops are over. *)
Definition collectSync (itemMasterData genConsumableData : list Row)
    (minThreshold : Q) : result (list MatchResult) :=
  sweepItems minThreshold itemMasterData genConsumableData [].

Definition matchDescriptions (itemMasterData genConsumableData : list Row)
    (minThreshold : Q) (maxResults : Z) : result (list MatchResult) :=
  matches ← collectSync itemMasterData genConsumableData minThreshold;
  Ok (rank matches maxResults).

(** ** extractTokens (matcher.ts, lines 82-86) *)

Definition extractTokens (text : Value) : result (gset string) :=
  normalized ← normalizeString text;
  let tokens :=
    List.filter (fun token => (3 <=? String.length token)%nat)
      (splitWhitespace normalized) in
  Ok (list_to_set tokens).

(** ** calculateTokenOverlap (matcher.ts, lines 91-101) *)

Definition calculateTokenOverlap (tokens1 tokens2 : gset string) : Q :=
  if (size tokens1 =? 0)%nat || (size tokens2 =? 0)%nat then 0%Q
  else
    let overlap :=
      length (List.filter (fun token => bool_decide (token ∈ tokens2))
                (elements tokens1)) in
    let union :=
      Z.of_nat (size tokens1) + Z.of_nat (size tokens2) - Z.of_nat overlap in
    if 0 <? union then (Qnat overlap / inject_Z union)%Q else 0%Q.

(** ** matchDescriptionsAsync (matcher.ts, lines 107-234) *)

Record NormalizedEntry : Type := mkEntry {
  row : Row;
  desc : Value;
  normalizedDesc : string;
  tokens : gset string;
  index : nat
}.

(** The pre-processing pass (lines 124-150) over one side; [key] is
    ['Description'] on the left and ['LONG DESCRIPTION'] on the right. *)
Definition normalizeRow (key : string) (idx : nat) (r : Row)
  : result NormalizedEntry :=
  let desc := orElse (get r key) (VString "") in
  normalized ← normalizeString desc;
  tokens ← extractTokens desc;
  Ok (mkEntry r desc normalized tokens idx).

Definition survives (item : NormalizedEntry) : bool :=
  (0 <? String.length (normalizedDesc item))%nat
  && (0 <? size (tokens item))%nat.

Definition preprocess (key : string) (data : list Row)
  : result (list NormalizedEntry) :=
  entries ← mapM (normalizeRow key) 0%nat data;
  Ok (List.filter survives entries).

(** The callback of [normalizedGenData.filter] (lines 163-172). *)
Definition isCandidate (itemData genData : NormalizedEntry) : bool :=
  let la := String.length (normalizedDesc itemData) in
  let lb := String.length (normalizedDesc genData) in
  let lengthRatio := num_div (Qnat (Nat.min la lb)) (Qnat (Nat.max la lb)) in
  if num_ltb lengthRatio (3 # 10) then false
  else
    let tokenOverlap :=
      calculateTokenOverlap (tokens itemData) (tokens genData) in
    negb (Qle_bool tokenOverlap (15 # 100)).

(** The score of line 176, a percentage that is not rounded yet.  It is an
    exact rational here and a double in the code: a percentage that is
    exactly on a threshold, or exactly half-way between two hundredths, can
    fall on the other side there. *)
Definition rawPercentage (itemData genData : NormalizedEntry) : Q :=
  (compareTwoStrings (normalizedDesc itemData) (normalizedDesc genData)
   * 100)%Q.

Definition chunkSize : nat := 200.

(** The captured variables [currentIndex] and [matches], and the values
    handed to [onProgress] so far. *)
Record SchedState : Type := mkState {
  currentIndex : nat;
  matches : list MatchResult;
  reported : list number
}.

(** How a call of [processChunk] ends: [resolve(sorted)], or
    [setTimeout(processChunk, 0)]. *)
Inductive Next : Type :=
| Resolve (sorted : list MatchResult)
| Reschedule.

Definition inspect {A} (a : A) : {b | a = b} := exist _ a eq_refl.

Section Scheduler.
Variables normalizedItemData normalizedGenData : list NormalizedEntry.
Variable minThreshold : Q.
Variable maxResults : Z.
(** whether the optional [onProgress] was supplied *)
Variable onProgress : bool.

(** The loop over [candidates] (lines 175-190), with its [break]. *)
Fixpoint scanCandidates (itemData : NormalizedEntry)
    (candidates : list NormalizedEntry) (matches : list MatchResult)
  : list MatchResult :=
  match candidates with
  | [] => matches
  | genData :: rest =>
      let matchPercentage := rawPercentage itemData genData in
      if Qle_bool minThreshold matchPercentage then
        let matches' :=
          matches ++ [mkMatch (row itemData) (row genData)
                        (roundTo2 matchPercentage)
                        (desc itemData) (desc genData)] in
        if Qle_bool 98 matchPercentage then matches'
        else scanCandidates itemData rest matches'
      else scanCandidates itemData rest matches
  end.

(** The body of the loop over the left entries of a chunk. *)
Definition processItem (matches : list MatchResult)
    (itemData : NormalizedEntry) : list MatchResult :=
  let candidates := List.filter (isCandidate itemData) normalizedGenData in
  scanCandidates itemData candidates matches.

(** The entries [normalizedItemData[i]] for [from <= i < to]. *)
Definition entriesBetween (from to : nat) : list NormalizedEntry :=
  firstn (to - from) (skipn from normalizedItemData).

(** [Math.round((currentIndex / normalizedItemData.length) * 100)] (line
    193), in exact arithmetic: where the exact percentage is half-way
    between two integers, or within a rounding error of it, the double of
    the code can round to the other one. *)
Definition progressOf (currentIndex : nat) : number :=
  num_round
    (num_scale
       (num_div (Qnat currentIndex) (Qnat (length normalizedItemData)))
       100).

Definition processChunk (st : SchedState) : SchedState * Next :=
  let endIndex :=
    Nat.min (currentIndex st + chunkSize) (length normalizedItemData) in
  let matches :=
    fold_left processItem (entriesBetween (currentIndex st) endIndex)
      (matches st) in
  let progress := progressOf endIndex in
  let reported :=
    if onProgress then reported st ++ [progress] else reported st in
  let st' := mkState endIndex matches reported in
  if (maxResults * 3 <=? Z.of_nat (length matches))
     && Qle_bool 70 minThreshold
  then (st', Resolve (rank matches maxResults))
  else if (endIndex <? length normalizedItemData)%nat
       then (st', Reschedule)
       else (st', Resolve (rank matches maxResults)).

(** The chunks run one after the other until one resolves the promise;
    the result is the state left by every chunk, in order, and the
    resolved value. *)
Equations? runChunks (st : SchedState)
  : list SchedState * list MatchResult
  by wf (length normalizedItemData - currentIndex st)%nat lt :=
  runChunks st with inspect (processChunk st) := {
    | exist _ (st', Resolve sorted) _ => ([st'], sorted)
    | exist _ (st', Reschedule) Heq =>
        let r := runChunks st' in (st' :: fst r, snd r) }.
Proof.
  (* a chunk that reschedules itself has advanced [currentIndex] *)
  revert Heq. unfold processChunk, chunkSize.
  destruct (_ && _); [discriminate|].
  destruct (Nat.ltb_spec
              (Nat.min (currentIndex st + 200) (length normalizedItemData))
              (length normalizedItemData)) as [Hlt|Hge]; [|discriminate].
  intros [= <-]. simpl. lia.
Qed.
End Scheduler.

Definition initialState : SchedState := mkState 0 [] [].

Definition matchDescriptionsAsync (itemMasterData genConsumableData : list Row)
    (minThreshold : Q) (maxResults : Z) (onProgress : bool)
  : result (list SchedState * list MatchResult) :=
  normalizedItemData ← preprocess "Description" itemMasterData;
  normalizedGenData ← preprocess "LONG DESCRIPTION" genConsumableData;
  Ok (runChunks normalizedItemData normalizedGenData minThreshold maxResults
        onProgress initialState).

(** * The dashboard: pure parts of [src/components/EnhancedDashboard.tsx] *)

(** [Array.prototype.filter] with a callback that may throw. *)
Fixpoint filterM {A} (f : A -> result bool) (l : list A) : result (list A) :=
  match l with
  | [] => Ok []
  | x :: rest =>
      keep ← f x;
      kept ← filterM f rest;
      Ok (if keep : bool then x :: kept else kept)
  end.

(** [s.includes(term)]. *)
Fixpoint includes (s term : string) : bool :=
  String.prefix term s
  || match s with
     | EmptyString => false
     | String _ r => includes r term
     end.

(** [v.toLowerCase().includes(term)]. *)
Definition lowerIncludes (v : Value) (term : string) : result bool :=
  match v with
  | VString s => Ok (includes (toLowerCase s) term)
  | _ => Throw TypeError
  end.

(** [v?.toLowerCase().includes(term)], as a condition. *)
Definition optLowerIncludes (v : Value) (term : string) : result bool :=
  match v with
  | VUndefined | VNull => Ok false
  | VString s => Ok (includes (toLowerCase s) term)
  | VNumber _ => Throw TypeError
  end.

(** The state [filterQuality]. *)
Inductive Quality : Type := qAll | qExcellent | qGood | qFair | qPoor.

(** The object [matchCounts] of [analytics] (lines 86-95).  The average
    [avgMatch], a sum of doubles printed with [toFixed], is left out. *)
Record MatchCounts : Type := mkCounts {
  excellent : nat;
  good : nat;
  fair : nat;
  poor : nat
}.

Definition matchCounts (matches : list MatchResult) : MatchCounts :=
  mkCounts
    (length (List.filter (fun m => Qle_bool 90 (matchPercentage m)) matches))
    (length (List.filter
               (fun m => Qle_bool 70 (matchPercentage m)
                         && negb (Qle_bool 90 (matchPercentage m)))
               matches))
    (length (List.filter
               (fun m => Qle_bool 50 (matchPercentage m)
                         && negb (Qle_bool 70 (matchPercentage m)))
               matches))
    (length (List.filter (fun m => negb (Qle_bool 50 (matchPercentage m)))
               matches)).

(** The callback of the search filter (lines 102-107). *)
Definition matchesTerm (term : string) (m : MatchResult) : result bool :=
  a ← lowerIncludes (itemMasterDescription m) term;
  if a : bool then Ok true
  else
    b ← lowerIncludes (genConsumableDescription m) term;
    if b : bool then Ok true
    else
      c ← optLowerIncludes (get (itemMasterRow m) "Item Code") term;
      if c : bool then Ok true
      else optLowerIncludes (get (genConsumableRow m) "NUPCO CODE") term.

(** The callback of the quality filter (lines 110-116). *)
Definition qualityTest (filterQuality : Quality) (m : MatchResult) : bool :=
  match filterQuality with
  | qExcellent => Qle_bool 90 (matchPercentage m)
  | qGood =>
      Qle_bool 70 (matchPercentage m)
      && negb (Qle_bool 90 (matchPercentage m))
  | qFair =>
      Qle_bool 50 (matchPercentage m)
      && negb (Qle_bool 70 (matchPercentage m))
  | qPoor => negb (Qle_bool 50 (matchPercentage m))
  | qAll => true
  end.

(** [filteredMatches] (lines 98-119). *)
Definition filteredMatches (matches : list MatchResult) (searchTerm : string)
    (filterQuality : Quality) : result (list MatchResult) :=
  filtered ←
    (if negb (String.eqb searchTerm "")
     then filterM (matchesTerm (toLowerCase searchTerm)) matches
     else Ok matches);
  Ok (match filterQuality with
      | qAll => filtered
      | _ => List.filter (qualityTest filterQuality) filtered
      end).

(** [getMatchColor] (lines 162-167). *)
Definition getMatchColor (percentage : Q) : string :=
  if Qle_bool 90 percentage then "bg-green-100 text-green-800 border-green-300"
  else if Qle_bool 70 percentage
       then "bg-blue-100 text-blue-800 border-blue-300"
       else if Qle_bool 50 percentage
            then "bg-yellow-100 text-yellow-800 border-yellow-300"
            else "bg-red-100 text-red-800 border-red-300".

(** * Vocabulary of the properties *)

(** ** Observations on a finished run *)

(** The accumulator [matches] when the run ended (before the final sort). *)
Definition collectedAsync (out : list SchedState * list MatchResult)
  : list MatchResult :=
  from_option matches [] (last (fst out)).

(** The number of left entries processed when the run ended. *)
Definition processedAsync (out : list SchedState * list MatchResult) : nat :=
  from_option currentIndex 0%nat (last (fst out)).

(** The number of entries that survive pre-processing. *)
Definition survivorCount (key : string) (data : list Row) : result nat :=
  entries ← preprocess key data;
  Ok (length entries).

(** ** Sample data *)

Definition leftRow (d : string) : Row := {[ "Description" := VString d ]}.
Definition rightRow (d : string) : Row :=
  {[ "LONG DESCRIPTION" := VString d ]}.

Fixpoint repeatChar (n : nat) (c : ascii) : string :=
  match n with
  | O => EmptyString
  | S k => String c (repeatChar k c)
  end.

(** A left description and two right descriptions that score 99 and 85
    against it. *)
Definition desc_left : string := "abc " ++ repeatChar 97 "a".
Definition desc_99 : string := "abc " ++ repeatChar 96 "a" ++ "b".
Definition desc_85 : string :=
  "abc " ++ repeatChar 82 "a" ++ repeatChar 15 "b".

(** The entry that pre-processing builds for the row [r] at position
    [idx]. *)
Definition entryOf (key : string) (idx : nat) (r : Row) : NormalizedEntry :=
  match normalizeRow key idx r with
  | Ok e => e
  | Throw _ => mkEntry r VUndefined "" ∅ idx
  end.

(** ** Ranking *)

Definition scoreGe (a b : MatchResult) : Prop :=
  (matchPercentage b <= matchPercentage a)%Q.

(** Consecutive results have non-increasing percentages. *)
Definition descending (l : list MatchResult) : Prop := Sorted scoreGe l.

(** What C9 asks of a returned sequence. *)
Definition rankedOutput (maxResults : Z) (out : list MatchResult) : Prop :=
  descending out /\ Z.of_nat (length out) <= maxResults.

(** ** Percentages *)

(** What C5 asks of a returned result: a percentage between 0 and 100,
    with two decimals, that reaches the threshold. *)
Definition inRange (m : MatchResult) : Prop :=
  (0 <= matchPercentage m <= 100)%Q.

Definition twoDecimals (m : MatchResult) : Prop :=
  exists k : Z, (matchPercentage m == inject_Z k / 100)%Q.

Definition meetsThreshold (minThreshold : Q) (m : MatchResult) : Prop :=
  (minThreshold <= matchPercentage m)%Q.

(** ** Totality *)

(** A description that [normalizeString] accepts: text, or a value that
    [desc || ''] replaces by the empty string (absent, [null], [0], [NaN]). *)
Definition textual (v : Value) : bool :=
  match v with
  | VString _ => true
  | other => negb (truthy other)
  end.

Definition textualField (key : string) (r : Row) : Prop :=
  textual (get r key) = true.

(** What C3 asks of one invocation of each entry point. *)
Definition neverRaises (itemMasterData genConsumableData : list Row)
    (minThreshold : Q) (maxResults : Z) : Prop :=
  isOk (matchDescriptions itemMasterData genConsumableData minThreshold
          maxResults) = true
  /\ forall onProgress,
      isOk (matchDescriptionsAsync itemMasterData genConsumableData
              minThreshold maxResults onProgress) = true.

(** A row whose description [normalizeString] accepts. *)
Definition normalizable (key : string) (r : Row) : Prop :=
  exists n, normalizeString (orElse (get r key) (VString "")) = Ok n.

(** ** Progress reports *)

Definition isPercent (v : number) : Prop :=
  exists k : Z, v = Fin (inject_Z k) /\ 0 <= k <= 100.

Definition num_le (x y : number) : Prop :=
  match x, y with
  | Fin a, Fin b => (a <= b)%Q
  | _, _ => False
  end.

Definition nondecreasing (l : list number) : Prop := Sorted num_le l.

(** The global early exit of lines 207-215 is taken after a chunk that
    leaves [st]. *)
Definition globalExit (minThreshold : Q) (maxResults : Z) (st : SchedState)
  : Prop :=
  maxResults * 3 <= Z.of_nat (length (matches st)) /\ (70 <= minThreshold)%Q.

(** What C6 asks of the states left by the chunks of one run over [total]
    surviving left entries. *)
Definition progressContract (total : nat) (minThreshold : Q) (maxResults : Z)
    (trace : list SchedState) : Prop :=
  Forall
    (fun st =>
       Forall isPercent (reported st)
       /\ nondecreasing (reported st)
       /\ (In (Fin 100) (reported st) ->
           currentIndex st = total \/ globalExit minThreshold maxResults st))
    trace.

(** The percentage reported when [c] of the entries of [normalizedItemData]
    are processed. *)
Definition percentAt (normalizedItemData : list NormalizedEntry) (c : nat)
  : Z :=
  Math_round (Qnat c / Qnat (length normalizedItemData) * 100).

(** The invariant of the scheduler state behind the progress reports. *)
Definition progressInv (normalizedItemData : list NormalizedEntry)
    (onProgress : bool) (st : SchedState) : Prop :=
  (currentIndex st <= length normalizedItemData)%nat
  /\ Forall (fun v =>
               exists k,
                 v = Fin (inject_Z k)
                 /\ 0 <= k <= percentAt normalizedItemData (currentIndex st))
       (reported st)
  /\ nondecreasing (reported st)
  /\ (st = initialState
      \/ (onProgress = true ->
          last (reported st)
          = Some (Fin (inject_Z
                         (percentAt normalizedItemData (currentIndex st)))))).

(** ** The results of the two entry points *)

(** The result recorded for the entries [a] and [g]. *)
Definition resultOf (a g : NormalizedEntry) : MatchResult :=
  mkMatch (row a) (row g) (roundTo2 (rawPercentage a g)) (desc a) (desc g).

(** [m] is the result of a candidate pair that reaches the threshold. *)
Definition produced
    (normalizedItemData normalizedGenData : list NormalizedEntry)
    (minThreshold : Q) (m : MatchResult) : Prop :=
  exists a g,
    In a normalizedItemData /\ In g normalizedGenData
    /\ isCandidate a g = true
    /\ (minThreshold <= rawPercentage a g)%Q
    /\ m = resultOf a g.

(** The scan of [a] is not cut by the early break inside [candidates]. *)
Definition noBreak (minThreshold : Q) (a : NormalizedEntry)
    (candidates : list NormalizedEntry) : Prop :=
  forall g, In g candidates -> isCandidate a g = true ->
    (minThreshold <= rawPercentage a g)%Q -> (rawPercentage a g < 98)%Q.

(** After every chunk the accumulator holds what the left entries before
    [currentIndex] give, in order. *)
Definition sweptInv
    (normalizedItemData normalizedGenData : list NormalizedEntry)
    (minThreshold : Q) (st : SchedState) : Prop :=
  (currentIndex st <= length normalizedItemData)%nat
  /\ matches st
     = fold_left (processItem normalizedGenData minThreshold)
         (firstn (currentIndex st) normalizedItemData) [].

(** [acc] holds a result for the rows [itemRow] and [genRow] with the
    percentage [p]. *)
Definition collects (acc : list MatchResult) (itemRow genRow : Row) (p : Q)
  : Prop :=
  exists m,
    In m acc /\ itemMasterRow m = itemRow /\ genConsumableRow m = genRow
    /\ matchPercentage m = p.

(** What C1 asks of one invocation of each entry point on the same input:
    a pair that passes the candidate filter is collected by one iff it is
    collected by the other, with the same percentage. *)
Definition entryPointsAgree (itemMasterData genConsumableData : list Row)
    (minThreshold : Q) (maxResults : Z) : Prop :=
  forall normalizedItemData normalizedGenData syncAcc out,
    preprocess "Description" itemMasterData = Ok normalizedItemData ->
    preprocess "LONG DESCRIPTION" genConsumableData = Ok normalizedGenData ->
    collectSync itemMasterData genConsumableData minThreshold = Ok syncAcc ->
    matchDescriptionsAsync itemMasterData genConsumableData minThreshold
      maxResults false = Ok out ->
    forall a g p,
      In a normalizedItemData -> In g normalizedGenData ->
      isCandidate a g = true ->
      collects (collectedAsync out) (row a) (row g) p
      <-> collects syncAcc (row a) (row g) p.

(** ** Normalized text *)

(** [A-Z]. *)
Definition isUpperAZ (c : ascii) : bool :=
  let n := code c in ((65 <=? n) && (n <=? 90))%N.

(** The characters [a-z0-9_] and the space. *)
Definition isNormalChar (c : ascii) : bool :=
  isWordChar c && negb (isUpperAZ c) || Ascii.eqb c " ".

(** A character that [/[^\w\s]/g] leaves in place. *)
Definition isPlainChar (c : ascii) : bool := isWordChar c || isWhiteSpace c.

Fixpoint allChars (P : ascii -> bool) (s : string) : bool :=
  match s with
  | EmptyString => true
  | String c r => P c && allChars P r
  end.

(** No whitespace but single spaces between other characters:
    [noSpaceHere] holds at the start and after a space. *)
Fixpoint tidyFrom (noSpaceHere : bool) (s : string) : bool :=
  match s with
  | EmptyString => true
  | String c r =>
      if isWhiteSpace c
      then Ascii.eqb c " " && negb noSpaceHere && negb (String.eqb r "")
           && tidyFrom true r
      else tidyFrom false r
  end.

Definition tidy (s : string) : bool := tidyFrom true s.

(** ** Tokens *)

(** The characters of a token: [a-z0-9_]. *)
Definition isTokenChar (c : ascii) : bool :=
  isWordChar c && negb (isUpperAZ c).

(** ** The candidate filter on whole numbers *)

(** The two tests of the candidate filter on whole numbers. *)
Definition lengthsClose (la lb : nat) : bool :=
  (3 * Nat.max la lb <=? 10 * Nat.min la lb)%nat.

Definition tokensShared (tokens1 tokens2 : gset string) : bool :=
  (15 * size (tokens1 ∪ tokens2) <? 100 * size (tokens1 ∩ tokens2))%nat.

(** ** What the ranker keeps *)

(** The results of [l] whose percentage is [p]. *)
Definition scoring (p : Q) (l : list MatchResult) : list MatchResult :=
  List.filter (fun m => Qeq_bool (matchPercentage m) p) l.

(** The number of results that [slice(0, maxResults)] keeps of [n]. *)
Definition keptCount (n : nat) (maxResults : Z) : nat :=
  Z.to_nat (if maxResults <? 0 then Z.max (Z.of_nat n + maxResults) 0
            else Z.min maxResults (Z.of_nat n)).

(** ** What the synchronous sweep collects *)

(** [row[key] || '']. *)
Definition descriptionOf (key : string) (r : Row) : Value :=
  orElse (get r key) (VString "").

Definition isText (v : Value) : bool :=
  match v with VString _ => true | _ => false end.

(** The results of [l] that reach the threshold. *)
Definition atLeast (minThreshold : Q) (l : list MatchResult)
  : list MatchResult :=
  List.filter (fun m => Qle_bool minThreshold (matchPercentage m)) l.

(** [m] is the result of a left row and a right row that both have a
    description, with their similarity, which reaches the threshold. *)
Definition scoredPair (itemMasterData genConsumableData : list Row)
    (minThreshold : Q) (m : MatchResult) : Prop :=
  In (itemMasterRow m) itemMasterData
  /\ In (genConsumableRow m) genConsumableData
  /\ itemMasterDescription m = descriptionOf "Description" (itemMasterRow m)
  /\ genConsumableDescription m
     = descriptionOf "LONG DESCRIPTION" (genConsumableRow m)
  /\ truthy (itemMasterDescription m) = true
  /\ truthy (genConsumableDescription m) = true
  /\ calculateSimilarity (itemMasterDescription m)
       (genConsumableDescription m) = Ok (matchPercentage m)
  /\ (minThreshold <= matchPercentage m)%Q.

(** ** Runs without their reports *)

(** A run without what was handed to [onProgress]: the index and the
    accumulator that every chunk left, and the resolved value. *)
Definition forgetReports (r : result (list SchedState * list MatchResult))
  : result (list (nat * list MatchResult) * list MatchResult) :=
  out ← r;
  Ok (List.map (fun st => (currentIndex st, matches st)) (fst out), snd out).

(** ** The dashboard *)

(** The count of [matchCounts] that belongs to a quality. *)
Definition countOf (filterQuality : Quality) (matches : list MatchResult)
  : nat :=
  match filterQuality with
  | qAll => length matches
  | qExcellent => excellent (matchCounts matches)
  | qGood => good (matchCounts matches)
  | qFair => fair (matchCounts matches)
  | qPoor => poor (matchCounts matches)
  end.

(** The colour of the badge of a quality. *)
Definition colorOf (filterQuality : Quality) : option string :=
  match filterQuality with
  | qAll => None
  | qExcellent => Some "bg-green-100 text-green-800 border-green-300"
  | qGood => Some "bg-blue-100 text-blue-800 border-blue-300"
  | qFair => Some "bg-yellow-100 text-yellow-800 border-yellow-300"
  | qPoor => Some "bg-red-100 text-red-800 border-red-300"
  end.

(** A code field that the search can read: text, or absent. *)
Definition readableCode (key : string) (r : Row) : Prop :=
  match get r key with
  | VNumber _ => False
  | _ => True
  end.

(** What a result of the chunked entry point stores for a left row and a
    right row of the input. *)
Definition storesText (itemMasterData genConsumableData : list Row)
    (m : MatchResult) : Prop :=
  In (itemMasterRow m) itemMasterData
  /\ In (genConsumableRow m) genConsumableData
  /\ exists s1 s2,
       get (itemMasterRow m) "Description" = VString s1
       /\ itemMasterDescription m = VString s1
       /\ get (genConsumableRow m) "LONG DESCRIPTION" = VString s2
       /\ genConsumableDescription m = VString s2
       /\ isEmpty (normalizeText s1) = false
       /\ isEmpty (normalizeText s2) = false.

(** Three results for the examples: 95, 72.5 and 40 percent. *)
Definition sampleMatches : list MatchResult :=
  [mkMatch {[ "Item Code" := VString "GZ-01" ]} ∅ (9500 # 100)
     (VString "Cotton Gauze") (VString "cotton gauze roll");
   mkMatch ∅ {[ "NUPCO CODE" := VString "n-77" ]} (7250 # 100)
     (VString "Syringe 5ml") (VString "syringe 10ml");
   mkMatch ∅ ∅ (4000 # 100) (VString "Gloves") (VString "Gown")].

(** ** What a left entry gives *)

(** The candidates that the scan of a left entry reaches: those up to the
    first one whose score is 98 or more. *)
Fixpoint upToBreak (itemData : NormalizedEntry)
    (candidates : list NormalizedEntry) : list NormalizedEntry :=
  match candidates with
  | [] => []
  | genData :: rest =>
      if Qle_bool 98 (rawPercentage itemData genData) then [genData]
      else genData :: upToBreak itemData rest
  end.

(** The results that one left entry gives, in order: a result for every
    candidate that reaches the threshold, up to the early break. *)
Definition resultsFor (normalizedGenData : list NormalizedEntry)
    (minThreshold : Q) (itemData : NormalizedEntry) : list MatchResult :=
  List.map (resultOf itemData)
    (upToBreak itemData
       (List.filter
          (fun genData =>
             Qle_bool minThreshold (rawPercentage itemData genData))
          (List.filter (isCandidate itemData) normalizedGenData))).

(** ** The similarity score *)

(** The number of bigrams that [first] and [second] share, counted as the
    spec counts them: a bigram that occurs [k] times in one string and [j]
    times in the other is counted [min k j] times. *)
Definition sharedBigrams (first second : string) : nat :=
  list_sum
    (List.map
       (fun b =>
          Nat.min (count_occ string_dec (bigrams first) b)
            (count_occ string_dec (bigrams second) b))
       (nodup string_dec (bigrams first))).

(** Dice's coefficient of two strings of two characters or more, on the
    counts of their bigrams. *)
Definition diceCoefficient (first second : string) : Q :=
  (2 * Qnat (sharedBigrams first second)
   / (Qnat (String.length first - 1) + Qnat (String.length second - 1)))%Q.

(** ** The reported progress and the share processed *)

(** [v] is an integer between 0 and 100 that is nearest to the percentage
    that [c] is of [total]: it differs from [100 * c / total] by one half at
    most. *)
Definition nearestPercent (total c : nat) (v : number) : Prop :=
  exists k : Z,
    v = Fin (inject_Z k)
    /\ 0 <= k <= 100
    /\ (2 * k - 1) * Z.of_nat total <= 200 * Z.of_nat c
       <= (2 * k + 1) * Z.of_nat total.

(** ** The per-row early break *)

(** A left description, and a right description whose percentage against it
    is a little under 98 and is recorded as 98.00. *)
Definition desc_long : string := "abc " ++ repeatChar 615 "a".
Definition desc_9800 : string :=
  "abc " ++ repeatChar 609 "a" ++ repeatChar 19 "b".

(** What C7 asks of the results that one left entry gives: a result with a
    score of 98 or more is the last one of that entry. *)
Definition stopsAt98 (results : list MatchResult) : Prop :=
  forall before m after,
    results = before ++ m :: after ->
    (98 <= matchPercentage m)%Q ->
    after = [].

(** ** The pairs that both entry points collect *)

(** [m] and [m'] are results for the same pair: the same rows and the same
    descriptions.  Their percentages are not compared. *)
Definition samePair (m m' : MatchResult) : Prop :=
  itemMasterRow m = itemMasterRow m'
  /\ genConsumableRow m = genConsumableRow m'
  /\ itemMasterDescription m = itemMasterDescription m'
  /\ genConsumableDescription m = genConsumableDescription m'.

(** * Properties *)

Section SchedulerFacts.
Variables normalizedItemData normalizedGenData : list NormalizedEntry.
Variable minThreshold : Q.
Variable maxResults : Z.
Variable onProgress : bool.

Let chunk :=
  processChunk normalizedItemData normalizedGenData minThreshold maxResults
    onProgress.
Let run :=
  runChunks normalizedItemData normalizedGenData minThreshold maxResults
    onProgress.

Lemma processChunk_reschedule st st' :
  chunk st = (st', Reschedule) ->
  (length normalizedItemData - currentIndex st'
   < length normalizedItemData - currentIndex st)%nat.
Proof.
  subst chunk. unfold processChunk, chunkSize.
  destruct (_ && _); [discriminate|].
  destruct (Nat.ltb_spec
              (Nat.min (currentIndex st + 200) (length normalizedItemData))
              (length normalizedItemData)) as [Hlt|Hge]; [|discriminate].
  intros [= <-]. simpl. lia.
Qed.

Lemma runChunks_step st :
  run st =
  match chunk st with
  | (st', Resolve sorted) => ([st'], sorted)
  | (st', Reschedule) => (st' :: fst (run st'), snd (run st'))
  end.
Proof.
  subst run chunk. funelim (runChunks _ _ _ _ _ st).
  - rewrite e. reflexivity.
  - rewrite Heq. reflexivity.
Qed.

Lemma processChunk_resolved st st' sorted :
  chunk st = (st', Resolve sorted) -> sorted = rank (matches st') maxResults.
Proof.
  subst chunk. unfold processChunk.
  destruct (_ && _); [intros [= <- <-]; reflexivity|].
  destruct (_ <? _)%nat; [discriminate|].
  intros [= <- <-]. reflexivity.
Qed.

(** A property of the scheduler state that every chunk preserves holds
    after every chunk of a run. *)
Lemma runChunks_invariant (P : SchedState -> Prop) :
  (forall st, P st -> P (fst (chunk st))) ->
  forall st, P st -> Forall P (fst (run st)).
Proof.
  intros Hstep st.
  induction st as [st IH]
    using (well_founded_induction
             (well_founded_ltof _
                (fun st =>
                   (length normalizedItemData - currentIndex st)%nat))).
  intros HP. rewrite runChunks_step.
  pose proof (Hstep st HP) as HP'.
  destruct (chunk st) as [st' [sorted|]] eqn:Hc; simpl in *.
  - constructor; [exact HP'|constructor].
  - constructor; [exact HP'|].
    apply IH; [|exact HP'].
    apply processChunk_reschedule in Hc. exact Hc.
Qed.

(** The run resolves with the ranking of the accumulator that its last
    chunk left. *)
Lemma runChunks_resolved st :
  exists final,
    last (fst (run st)) = Some final
    /\ snd (run st) = rank (matches final) maxResults.
Proof.
  induction st as [st IH]
    using (well_founded_induction
             (well_founded_ltof _
                (fun st =>
                   (length normalizedItemData - currentIndex st)%nat))).
  rewrite runChunks_step.
  destruct (chunk st) as [st' [sorted|]] eqn:Hc; simpl.
  - exists st'. split; [reflexivity|].
    eapply processChunk_resolved; eauto.
  - destruct (IH st') as [final [Hl Hs]].
    { apply processChunk_reschedule in Hc. exact Hc. }
    exists final. split; [|exact Hs].
    destruct (fst (run st')) as [|x l]; [discriminate|].
    rewrite last_cons, Hl. reflexivity.
Qed.
End SchedulerFacts.

(** ** Normalization *)

(** C2: normalization is not idempotent in the code.  Punctuation is removed
    after the whitespace runs are collapsed, so the spaces on both sides of a
    removed character stay: ["a , b"] normalizes to ["a  b"] (two spaces),
    and normalizing that result again gives ["a b"]. *)
Theorem normalizeString_not_idempotent :
  normalizeString (VString "a , b") = Ok "a  b"
  /\ normalizeString (VString "a  b") = Ok "a b"
  /\ normalizeString (VString "! a") = Ok " a"
  /\ normalizeString (VString " a") = Ok "a"
  /\ ~ (forall s n,
          normalizeString (VString s) = Ok n ->
          normalizeString (VString n) = Ok n).
Proof.
  repeat split; try reflexivity.
  intros Hidem. specialize (Hidem "a , b" "a  b" eq_refl).
  vm_compute in Hidem. discriminate Hidem.
Qed.

(** Scenario 1 of the spec. *)
Example normalize_scenario :
  normalizeString (VString "  Surgical   Gloves, Size-M!! ")
  = Ok "surgical gloves sizem".
Proof. reflexivity. Qed.

(** ** Rows without a usable description *)

(** C8: at [minThreshold = 0] the synchronous sweep keeps a row whose
    description is whitespace-only or punctuation-only: the guard
    [if (!itemDesc) continue] only skips an absent or empty description,
    [calculateSimilarity] then returns 0, and [0 >= 0] collects the pair. *)
Theorem matchDescriptions_keeps_blank_rows :
  matchDescriptions [leftRow "   "] [rightRow "gauze"] 0 1000
  = Ok [mkMatch (leftRow "   ") (rightRow "gauze") 0
          (VString "   ") (VString "gauze")]
  /\ matchDescriptions [leftRow "gauze"] [rightRow "?!"] 0 1000
     = Ok [mkMatch (leftRow "gauze") (rightRow "?!") 0
             (VString "gauze") (VString "?!")].
Proof. split; vm_compute; reflexivity. Qed.

(** The chunked entry point does drop these rows. *)
Example matchDescriptionsAsync_drops_blank_rows :
  matchDescriptionsAsync [leftRow "   "; leftRow "?!"] [rightRow "gauze"]
    0 1000 false
  = Ok ([mkState 0 [] []], []).
Proof. vm_compute. reflexivity. Qed.

(** ** Threshold *)

(** C5: the chunked entry point compares the percentage with [minThreshold]
    before rounding it and stores the rounded value.  With
    [minThreshold = 33.333] the pair below passes the candidate filter,
    scores 100/3 (its descriptions have six and twelve bigrams and share
    three; run together without their spaces they have four and eight and
    share two), passes the test, and is returned with
    [matchPercentage = 33.33], which is under the threshold. *)
Theorem matchDescriptionsAsync_below_threshold :
  exists trace m,
    matchDescriptionsAsync [leftRow "pad x 5"] [rightRow "7 m pad m net"]
      (33333 # 1000) 1000 true = Ok (trace, [m])
    /\ matchPercentage m = (3333 # 100)%Q
    /\ (matchPercentage m < 33333 # 1000)%Q.
Proof.
  do 2 eexists. split; [vm_compute; reflexivity|].
  split; [reflexivity|]. simpl. unfold Qlt. simpl. lia.
Qed.

(** On the same input the synchronous sweep, which compares the rounded
    value, returns nothing. *)
Example matchDescriptions_same_input :
  matchDescriptions [leftRow "pad x 5"] [rightRow "7 m pad m net"]
    (33333 # 1000) 1000 = Ok [].
Proof. vm_compute. reflexivity. Qed.

(** ** Progress *)

(** With 201 left entries the first chunk ends at index 200 and reports
    [Math.round(200 / 201 * 100) = 100] although one entry is still to be
    processed; the second chunk reports 100 again. *)
Example progress_100_before_completion :
  matchDescriptionsAsync (repeat (leftRow "abc") 201) [] 0 1000 true
  = Ok ([mkState 200 [] [Fin 100]; mkState 201 [] [Fin 100; Fin 100]], []).
Proof. vm_compute. reflexivity. Qed.



(** ** Per-row early break *)

Lemma scanCandidates_break minThreshold itemData pre genData post acc :
  Qle_bool minThreshold (rawPercentage itemData genData) = true ->
  Qle_bool 98 (rawPercentage itemData genData) = true ->
  scanCandidates minThreshold itemData (pre ++ genData :: post) acc
  = scanCandidates minThreshold itemData (pre ++ [genData]) acc.
Proof.
  intros Hmin Hbreak. revert acc.
  induction pre as [|c pre IH]; intros acc; cbn [app scanCandidates].
  - rewrite Hmin, Hbreak. reflexivity.
  - destruct (Qle_bool minThreshold (rawPercentage itemData c));
      [destruct (Qle_bool 98 (rawPercentage itemData c))|];
      auto.
Qed.

(** Scenario 6 of the spec, end to end: the chunked entry point returns the
    99 result only, the synchronous sweep returns both. *)
Example early_break_scenario :
  (exists trace,
      matchDescriptionsAsync [leftRow desc_left]
        [rightRow desc_99; rightRow desc_85] 50 1000 false
      = Ok (trace,
            [mkMatch (leftRow desc_left) (rightRow desc_99) (9900 # 100)
               (VString desc_left) (VString desc_99)]))
  /\ matchDescriptions [leftRow desc_left]
       [rightRow desc_99; rightRow desc_85] 50 1000
     = Ok [mkMatch (leftRow desc_left) (rightRow desc_99) (9900 # 100)
             (VString desc_left) (VString desc_99);
           mkMatch (leftRow desc_left) (rightRow desc_85) (8500 # 100)
             (VString desc_left) (VString desc_85)].
Proof.
  split; [eexists|]; vm_compute; reflexivity.
Qed.

(** ** Ranking *)

Lemma insertDesc_HdRel x m l :
  scoreGe x m -> HdRel scoreGe x l -> HdRel scoreGe x (insertDesc m l).
Proof.
  intros Hxm Hhd. destruct l as [|y l]; cbn [insertDesc].
  - constructor. exact Hxm.
  - destruct (Qle_bool (matchPercentage y) (matchPercentage m)).
    + constructor. exact Hxm.
    + constructor. inversion Hhd; assumption.
Qed.

Lemma insertDesc_sorted m l :
  descending l -> descending (insertDesc m l).
Proof.
  unfold descending. induction 1 as [|x l Hsorted IH Hhd]; cbn [insertDesc].
  - repeat constructor.
  - destruct (Qle_bool (matchPercentage x) (matchPercentage m)) eqn:Hle.
    + apply Qle_bool_iff in Hle.
      constructor; [constructor; assumption|constructor; exact Hle].
    + constructor; [exact IH|].
      apply insertDesc_HdRel; [|exact Hhd].
      unfold scoreGe. apply Qlt_le_weak, Qnot_le_lt.
      intros Hle'. apply Qle_bool_iff in Hle'. congruence.
Qed.

Lemma sortDesc_sorted l : descending (sortDesc l).
Proof.
  induction l as [|m l IH]; cbn [sortDesc].
  - constructor.
  - apply insertDesc_sorted, IH.
Qed.

Lemma descending_firstn n l : descending l -> descending (firstn n l).
Proof.
  unfold descending. intros Hsorted. revert n.
  induction Hsorted as [|x l Hsorted IH Hhd]; intros [|n]; cbn [firstn];
    try constructor.
  - apply IH.
  - destruct Hhd as [|y l Hxy]; destruct n; cbn [firstn]; constructor.
    exact Hxy.
Qed.

Lemma rank_descending matches maxResults :
  descending (rank matches maxResults).
Proof. apply descending_firstn, sortDesc_sorted. Qed.

Lemma rank_length matches maxResults :
  0 <= maxResults ->
  Z.of_nat (length (rank matches maxResults)) <= maxResults.
Proof.
  intros Hpos. unfold rank, slice0.
  destruct (Z.ltb_spec maxResults 0) as [Hneg|_]; [lia|].
  rewrite length_firstn. lia.
Qed.

Lemma matchDescriptionsAsync_resolved
    itemMasterData genConsumableData minThreshold maxResults onProgress
    trace out :
  matchDescriptionsAsync itemMasterData genConsumableData minThreshold
    maxResults onProgress = Ok (trace, out) ->
  exists final,
    last trace = Some final /\ out = rank (matches final) maxResults.
Proof.
  unfold matchDescriptionsAsync. intros Hrun.
  destruct (preprocess "Description" itemMasterData) as [nItems|];
    [|discriminate].
  destruct (preprocess "LONG DESCRIPTION" genConsumableData) as [nGens|];
    [|discriminate].
  cbn [mbind result_bind] in Hrun. injection Hrun as Hrun.
  destruct (runChunks_resolved nItems nGens minThreshold maxResults
              onProgress initialState) as [final [Hlast Hsorted]].
  rewrite Hrun in Hlast, Hsorted. exists final. auto.
Qed.

(** C9 as stated fails for a negative [maxResults]: [slice(0, -1)] drops the
    last element only, so one of two results is returned. *)
Lemma rankedOutput_negative_maxResults :
  exists out,
    matchDescriptions [leftRow "abc def"]
      [rightRow "abc def"; rightRow "abc defg"] 0 (-1) = Ok out
    /\ ~ rankedOutput (-1) out.
Proof.
  eexists. split; [vm_compute; reflexivity|].
  intros [_ Hlen]. cbn in Hlen. lia.
Qed.

(** C9, amended: for [maxResults >= 0] the sequence returned by either entry
    point has non-increasing percentages across consecutive elements and at
    most [maxResults] elements. *)
Theorem output_ranked
    (itemMasterData genConsumableData : list Row) (minThreshold : Q)
    (maxResults : Z) (onProgress : bool) :
  0 <= maxResults ->
  (forall out,
      matchDescriptions itemMasterData genConsumableData minThreshold
        maxResults = Ok out ->
      rankedOutput maxResults out)
  /\ (forall trace out,
        matchDescriptionsAsync itemMasterData genConsumableData minThreshold
          maxResults onProgress = Ok (trace, out) ->
        rankedOutput maxResults out).
Proof.
  intros Hpos. split.
  - intros out. unfold matchDescriptions.
    destruct (collectSync _ _ _) as [acc|]; [|discriminate].
    cbn [mbind result_bind]. intros [= <-].
    split; [apply rank_descending|apply rank_length, Hpos].
  - intros trace out Hrun.
    apply matchDescriptionsAsync_resolved in Hrun as [final [_ ->]].
    split; [apply rank_descending|apply rank_length, Hpos].
Qed.

Lemma output_ranked_witness :
  exists out,
    matchDescriptions [leftRow "abc def"; leftRow "abc xyz"]
      [rightRow "abc def"; rightRow "abc defg"] 0 3 = Ok out
    /\ List.map matchPercentage out = [10000 # 100; 9231 # 100; 5000 # 100]%Q
    /\ rankedOutput 3 out.
Proof.
  eexists. split; [vm_compute; reflexivity|].
  split; [vm_compute; reflexivity|].
  refine (proj1 (output_ranked [leftRow "abc def"; leftRow "abc xyz"]
                   [rightRow "abc def"; rightRow "abc defg"] 0 3 true _) _ _).
  - lia.
  - vm_compute. reflexivity.
Defined.

(** ** Totality *)

Lemma textual_normalizable key r : textualField key r -> normalizable key r.
Proof.
  unfold textualField, normalizable, orElse, normalizeString.
  intros Htext. destruct (truthy (get r key)) eqn:Htruthy.
  - rewrite Htruthy.
    destruct (get r key) as [| |s|x]; cbn in *; try discriminate.
    + eauto.
    + rewrite Htruthy in Htext. discriminate.
  - cbn. eauto.
Qed.

Lemma calculateSimilarity_ok itemRow genRow :
  normalizable "Description" itemRow ->
  normalizable "LONG DESCRIPTION" genRow ->
  exists p,
    calculateSimilarity (orElse (get itemRow "Description") (VString ""))
      (orElse (get genRow "LONG DESCRIPTION") (VString "")) = Ok p.
Proof.
  intros [n1 H1] [n2 H2]. unfold calculateSimilarity. rewrite H1, H2.
  cbn [mbind result_bind]. destruct (_ || _); eauto.
Qed.

Lemma sweepGen_ok minThreshold itemRow genConsumableData :
  normalizable "Description" itemRow ->
  Forall (normalizable "LONG DESCRIPTION") genConsumableData ->
  forall acc, exists out,
    sweepGen minThreshold itemRow
      (orElse (get itemRow "Description") (VString ""))
      genConsumableData acc = Ok out.
Proof.
  intros Hitem Hgens.
  induction Hgens as [|genRow rest Hgen _ IH]; intros acc; cbn [sweepGen].
  - eauto.
  - destruct (negb (truthy _)); [apply IH|].
    destruct (calculateSimilarity_ok _ _ Hitem Hgen) as [p ->].
    cbn [mbind result_bind]. destruct (Qle_bool minThreshold p); apply IH.
Qed.

Lemma sweepItems_ok minThreshold itemMasterData genConsumableData :
  Forall (normalizable "Description") itemMasterData ->
  Forall (normalizable "LONG DESCRIPTION") genConsumableData ->
  forall acc, exists out,
    sweepItems minThreshold itemMasterData genConsumableData acc = Ok out.
Proof.
  intros Hitems Hgens.
  induction Hitems as [|itemRow rest Hitem _ IH]; intros acc;
    cbn [sweepItems].
  - eauto.
  - destruct (negb (truthy _)); [apply IH|].
    destruct (sweepGen_ok minThreshold itemRow genConsumableData
                Hitem Hgens acc) as [acc' ->].
    cbn [mbind result_bind]. apply IH.
Qed.

Lemma normalizeRow_ok key idx r :
  normalizable key r -> exists e, normalizeRow key idx r = Ok e.
Proof.
  intros [n Hn]. unfold normalizeRow, extractTokens. rewrite Hn.
  cbn [mbind result_bind]. eauto.
Qed.

Lemma preprocess_ok key data :
  Forall (normalizable key) data ->
  exists entries, preprocess key data = Ok entries.
Proof.
  intros Hdata. unfold preprocess.
  assert (Hmap : forall idx, exists entries,
             mapM (normalizeRow key) idx data = Ok entries).
  { induction Hdata as [|r rest Hr _ IH]; intros idx; cbn [mapM].
    - eauto.
    - destruct (normalizeRow_ok key idx r Hr) as [e ->].
      cbn [mbind result_bind].
      destruct (IH (S idx)) as [entries ->].
      cbn [mbind result_bind]. eauto. }
  destruct (Hmap 0%nat) as [entries ->]. cbn [mbind result_bind]. eauto.
Qed.

(** C3 as stated fails: a non-zero number in the description field reaches
    [str.toLowerCase()] and both entry points raise a [TypeError]. *)
Lemma neverRaises_numeric_description :
  ~ neverRaises [{[ "Description" := VNumber (Fin 5) ]}] [rightRow "gauze"]
      0 1000.
Proof. intros [Hsync _]. vm_compute in Hsync. discriminate. Qed.

Example numeric_description_raises :
  matchDescriptions [{[ "Description" := VNumber (Fin 5) ]}]
    [rightRow "gauze"] 0 1000 = Throw TypeError
  /\ matchDescriptionsAsync [leftRow "gauze"]
       [{[ "LONG DESCRIPTION" := VNumber (Fin 5) ]}] 0 1000 true
     = Throw TypeError.
Proof. split; vm_compute; reflexivity. Qed.

(** C3, amended: when every description field holds text or is absent,
    [null] or another falsy value, neither entry point raises, and the
    chunked run terminates with a resolved value. *)
Theorem matching_total
    (itemMasterData genConsumableData : list Row) (minThreshold : Q)
    (maxResults : Z) :
  Forall (textualField "Description") itemMasterData ->
  Forall (textualField "LONG DESCRIPTION") genConsumableData ->
  neverRaises itemMasterData genConsumableData minThreshold maxResults.
Proof.
  intros Hitems Hgens.
  assert (Hitems' : Forall (normalizable "Description") itemMasterData)
    by (eapply Forall_impl;
        [exact Hitems|apply textual_normalizable]).
  assert (Hgens' : Forall (normalizable "LONG DESCRIPTION") genConsumableData)
    by (eapply Forall_impl;
        [exact Hgens|apply textual_normalizable]).
  clear Hitems Hgens. split.
  - unfold matchDescriptions, collectSync.
    destruct (sweepItems_ok minThreshold itemMasterData genConsumableData)
      with (acc := @nil MatchResult) as [acc ->]; [assumption..|].
    reflexivity.
  - intros onProgress. unfold matchDescriptionsAsync.
    destruct (preprocess_ok "Description" itemMasterData) as [nItems ->];
      [assumption|].
    destruct (preprocess_ok "LONG DESCRIPTION" genConsumableData)
      as [nGens ->]; [assumption|].
    reflexivity.
Qed.

Lemma matching_total_witness :
  neverRaises
    [leftRow "Cotton Gauze"; {[ "Description" := VNull ]};
     {[ "Item Code" := VNumber (Fin 7) ]};
     {[ "Description" := VNumber (Fin 0) ]}]
    [rightRow "cotton gauze roll"; ∅] 0 1000.
Proof.
  apply matching_total.
  - repeat constructor.
  - repeat constructor.
Defined.

(** ** The similarity score *)

Lemma normalizeString_text s :
  normalizeString (VString s) = Ok (normalizeText s).
Proof. destruct s; reflexivity. Qed.

Lemma bigrams_length s :
  length (bigrams s) = (String.length s - 1)%nat.
Proof.
  induction s as [|a s IH]; [reflexivity|].
  destruct s as [|b s]; [reflexivity|].
  cbn [bigrams length String.length] in *. lia.
Qed.

(** The bigrams are the substrings of length two, in order. *)
Lemma bigrams_nth s i :
  (i + 1 < String.length s)%nat ->
  nth_error (bigrams s) i = Some (String.substring i 2 s).
Proof.
  revert i. induction s as [|a s IH]; intros i Hi; [cbn in Hi; lia|].
  destruct s as [|b s]; [cbn in Hi; lia|].
  destruct i as [|i].
  - cbn. destruct s; reflexivity.
  - cbn [bigrams nth_error String.substring].
    apply IH. cbn [String.length] in *. lia.
Qed.

Lemma bag_size (l : list string) :
  size (list_to_set_disj l : gmultiset string) = length l.
Proof.
  induction l as [|x l IH]; [reflexivity|].
  rewrite list_to_set_disj_cons, gmultiset_size_disj_union,
    gmultiset_size_singleton, IH.
  reflexivity.
Qed.

Lemma bag_multiplicity (b : string) (l : list string) :
  multiplicity b (list_to_set_disj l : gmultiset string)
  = count_occ string_dec l b.
Proof.
  induction l as [|x l IH]; [reflexivity|].
  rewrite list_to_set_disj_cons, multiplicity_disj_union, IH.
  cbn [count_occ]. destruct (string_dec x b) as [->|Hne].
  - rewrite multiplicity_singleton_eq. reflexivity.
  - rewrite multiplicity_singleton_ne by congruence. reflexivity.
Qed.

Lemma Qnat_nonneg n : (0 <= Qnat n)%Q.
Proof.
  unfold Qnat. change 0%Q with (inject_Z 0). rewrite <- Zle_Qle. lia.
Qed.

(** The score lies between 0 and 1 (section 8 of the spec). *)
Lemma compareTwoStrings_bounds first second :
  (0 <= compareTwoStrings first second <= 1)%Q.
Proof.
  unfold compareTwoStrings.
  destruct (Nat.ltb_spec (String.length first) 2) as [|Hfirst];
    [cbn [orb]; destruct (String.eqb first second); split; discriminate|].
  destruct (Nat.ltb_spec (String.length second) 2) as [|Hsecond];
    [cbn [orb]; destruct (String.eqb first second); split; discriminate|].
  cbn [orb]. cbv zeta.
  set (A := bigramBag first). set (B := bigramBag second).
  assert (HA : (0 < size A)%nat).
  { subst A. unfold bigramBag. rewrite bag_size, bigrams_length. lia. }
  assert (HIA : (size (A ∩ B) <= size A)%nat)
    by (apply gmultiset_subseteq_size; multiset_solver).
  assert (HIB : (size (A ∩ B) <= size B)%nat)
    by (apply gmultiset_subseteq_size; multiset_solver).
  assert (Hden : (0 < Qnat (size A) + Qnat (size B))%Q).
  { unfold Qnat. rewrite <- inject_Z_plus. change 0%Q with (inject_Z 0).
    rewrite <- Zlt_Qlt. lia. }
  split.
  - apply Qle_shift_div_l; [exact Hden|].
    rewrite Qmult_0_l. apply Qmult_le_0_compat; [discriminate|].
    apply Qnat_nonneg.
  - apply Qle_shift_div_r; [exact Hden|].
    rewrite Qmult_1_l. unfold Qnat. change 2%Q with (inject_Z 2).
    rewrite <- inject_Z_mult, <- inject_Z_plus, <- Zle_Qle. lia.
Qed.

Lemma list_sum_indicator (x : string) (d : list string) :
  list_sum (List.map (fun b => if string_dec b x then 1 else 0)%nat d)
  = count_occ string_dec d x.
Proof.
  unfold list_sum. induction d as [|y d IH]; [reflexivity|].
  cbn [List.map fold_right count_occ]. rewrite IH.
  destruct (string_dec y x); reflexivity.
Qed.

Lemma list_sum_map_add {A} (f g : A -> nat) (d : list A) :
  list_sum (List.map (fun b => f b + g b)%nat d)
  = (list_sum (List.map f d) + list_sum (List.map g d))%nat.
Proof.
  unfold list_sum. induction d as [|y d IH]; [reflexivity|].
  cbn [List.map fold_right]. rewrite IH. lia.
Qed.

(** The size of a bag is the sum of the multiplicities of its distinct
    elements. *)
Lemma bag_size_sum (d : list string) (X : gmultiset string) :
  List.NoDup d ->
  (forall x, x ∈ X -> In x d) ->
  size X = list_sum (List.map (fun b => multiplicity b X) d).
Proof.
  intros Hnodup. induction X as [|x X IH] using gmultiset_ind; intros Hdom.
  - rewrite gmultiset_size_empty.
    clear Hnodup Hdom. unfold list_sum.
    induction d as [|y d IHd]; [reflexivity|].
    cbn [List.map fold_right]. rewrite multiplicity_empty. exact IHd.
  - rewrite gmultiset_size_disj_union, gmultiset_size_singleton.
    rewrite IH by (intros y Hy; apply Hdom; multiset_solver).
    assert (Hx : In x d) by (apply Hdom; multiset_solver).
    erewrite (List.map_ext (fun b => multiplicity b ({[+ x +]} ⊎ X)));
      [|intros b; rewrite multiplicity_disj_union; reflexivity].
    rewrite list_sum_map_add. f_equal.
    erewrite List.map_ext; [rewrite (list_sum_indicator x)|].
    + symmetry. apply NoDup_count_occ'; assumption.
    + intros b. cbn beta. destruct (string_dec b x) as [->|Hne].
      * apply multiplicity_singleton_eq.
      * apply multiplicity_singleton_ne. congruence.
Qed.

Lemma sharedBigrams_size first second :
  size (bigramBag first ∩ bigramBag second) = sharedBigrams first second.
Proof.
  unfold sharedBigrams, bigramBag.
  rewrite (bag_size_sum (nodup string_dec (bigrams first))).
  - f_equal. apply List.map_ext. intros b.
    rewrite multiplicity_intersection, !bag_multiplicity. reflexivity.
  - apply NoDup_nodup.
  - intros x Hx. apply nodup_In.
    apply gmultiset_elem_of_intersection in Hx as [Hx _].
    apply elem_of_list_to_set_disj in Hx.
    apply list_elem_of_In. exact Hx.
Qed.

Lemma compareTwoStrings_dice first second :
  (2 <= String.length first)%nat ->
  (2 <= String.length second)%nat ->
  compareTwoStrings first second = diceCoefficient first second.
Proof.
  intros Hfirst Hsecond. unfold compareTwoStrings, diceCoefficient.
  destruct (Nat.ltb_spec (String.length first) 2); [lia|].
  destruct (Nat.ltb_spec (String.length second) 2); [lia|].
  cbn [orb]. cbv zeta. rewrite sharedBigrams_size.
  unfold bigramBag. rewrite !bag_size, !bigrams_length. reflexivity.
Qed.

Lemma isEmpty_true s : isEmpty s = true <-> s = "".
Proof. unfold isEmpty. apply String.eqb_eq. Qed.

Lemma isEmpty_false s : isEmpty s = false <-> s <> "".
Proof. unfold isEmpty. apply String.eqb_neq. Qed.

(** C4: for every pair of strings, with [n1] and [n2] their normalized
    forms,
    - [calculateSimilarity] is 0 when [n1] or [n2] is the empty string (also
      when both are);
    - otherwise, when [n1] or [n2] is a single character, it is 100 if
      [n1] and [n2] are equal and 0 if they are not;
    - otherwise it is the percentage, rounded to two decimals, of Dice's
      coefficient [2 * |A ∩ B| / (|A| + |B|)] of the bigrams of [n1] and
      [n2], where [|A|] and [|B|] are the lengths less one and a bigram that
      occurs [k] times in [n1] and [j] times in [n2] counts [min k j] times
      in [|A ∩ B|]. *)
Theorem similarity_is_dice (desc1 desc2 : string) :
  let n1 := normalizeText desc1 in
  let n2 := normalizeText desc2 in
  (n1 = "" \/ n2 = "" ->
   calculateSimilarity (VString desc1) (VString desc2) = Ok 0%Q)
  /\ (n1 <> "" -> n2 <> "" ->
      (String.length n1 < 2 \/ String.length n2 < 2)%nat ->
      calculateSimilarity (VString desc1) (VString desc2)
      = Ok (inject_Z (if String.eqb n1 n2 then 10000 else 0) / 100)%Q)
  /\ ((2 <= String.length n1)%nat -> (2 <= String.length n2)%nat ->
      calculateSimilarity (VString desc1) (VString desc2)
      = Ok (inject_Z
              (Math_round
                 (2 * Qnat (sharedBigrams n1 n2)
                  / (Qnat (String.length n1 - 1)
                     + Qnat (String.length n2 - 1))
                  * 10000))
            / 100)%Q).
Proof.
  intros n1 n2.
  assert (Hsim : calculateSimilarity (VString desc1) (VString desc2)
                 = if isEmpty n1 || isEmpty n2 then Ok 0%Q
                   else Ok (inject_Z
                              (Math_round (compareTwoStrings n1 n2 * 10000))
                            / 100)%Q).
  { unfold calculateSimilarity. rewrite !normalizeString_text.
    cbn [mbind result_bind]. fold n1 n2.
    destruct (isEmpty n1 || isEmpty n2); reflexivity. }
  split; [|split].
  - intros Hempty. rewrite Hsim.
    destruct Hempty as [Hempty|Hempty]; apply isEmpty_true in Hempty;
      rewrite Hempty; [|rewrite orb_true_r]; reflexivity.
  - intros H1 H2 Hshort. rewrite Hsim.
    apply isEmpty_false in H1. apply isEmpty_false in H2.
    rewrite H1, H2. cbn [orb]. unfold compareTwoStrings.
    assert (Hguard : (String.length n1 <? 2)%nat
                     || (String.length n2 <? 2)%nat = true).
    { apply orb_true_iff.
      destruct Hshort as [Hshort|Hshort]; [left|right];
        apply Nat.ltb_lt, Hshort. }
    rewrite Hguard. destruct (String.eqb n1 n2); reflexivity.
  - intros H1 H2. rewrite Hsim.
    assert (He1 : isEmpty n1 = false)
      by (apply isEmpty_false; intros Hn; rewrite Hn in H1; cbn in H1; lia).
    assert (He2 : isEmpty n2 = false)
      by (apply isEmpty_false; intros Hn; rewrite Hn in H2; cbn in H2; lia).
    rewrite He1, He2. cbn [orb].
    rewrite (compareTwoStrings_dice n1 n2 H1 H2). reflexivity.
Qed.

Lemma similarity_is_dice_witness :
  calculateSimilarity (VString "?!") (VString "gauze") = Ok 0%Q
  /\ calculateSimilarity (VString "?!") (VString "!!") = Ok 0%Q
  /\ calculateSimilarity (VString "A") (VString " a.")
     = Ok (10000 # 100)%Q
  /\ calculateSimilarity (VString "a") (VString "gauze") = Ok (0 # 100)%Q
  /\ sharedBigrams "night" "nacht" = 1%nat
  /\ calculateSimilarity (VString "Night!") (VString " nacht")
     = Ok (2500 # 100)%Q.
Proof.
  split; [apply (similarity_is_dice "?!" "gauze"); left; reflexivity|].
  split; [apply (similarity_is_dice "?!" "!!"); right; reflexivity|].
  split.
  { refine (proj1 (proj2 (similarity_is_dice "A" " a.")) _ _ _);
      [discriminate|discriminate|left; vm_compute; lia]. }
  split.
  { refine (proj1 (proj2 (similarity_is_dice "a" "gauze")) _ _ _);
      [discriminate|discriminate|left; vm_compute; lia]. }
  split; [reflexivity|].
  refine (eq_trans
            (proj2 (proj2 (similarity_is_dice "Night!" " nacht")) _ _) _);
    [vm_compute; lia|vm_compute; lia|vm_compute; reflexivity].
Defined.

(** Scenarios 2 and 3 of the spec, and a pair with a repeated bigram. *)
Example similarity_scenarios :
  calculateSimilarity (VString "surgical gloves size m")
    (VString "surgical gloves size m") = Ok (10000 # 100)%Q
  /\ calculateSimilarity (VString "wound dressing") (VString "") = Ok 0%Q
  /\ compareTwoStrings "aaab" "aab" = (2 * 2 / (3 + 2))%Q.
Proof. repeat split; vm_compute; reflexivity. Qed.

(** ** Progress reports *)

Lemma Math_round_comp x y : (x == y)%Q -> Math_round x = Math_round y.
Proof. intros Heq. unfold Math_round. rewrite Heq. reflexivity. Qed.

Lemma Math_round_mono x y : (x <= y)%Q -> Math_round x <= Math_round y.
Proof.
  intros Hle. unfold Math_round. apply Qfloor_resp_le.
  apply Qplus_le_compat; [exact Hle|apply Qle_refl].
Qed.

Lemma Math_round_Z k : Math_round (inject_Z k) = k.
Proof.
  unfold Math_round. apply Z.le_antisymm.
  - apply Z.lt_succ_r. rewrite Zlt_Qlt.
    eapply Qle_lt_trans; [apply Qfloor_le|].
    unfold Z.succ. rewrite inject_Z_plus.
    apply Qplus_lt_r. reflexivity.
  - rewrite <- (Qfloor_Z k) at 1. apply Qfloor_resp_le.
    rewrite <- (Qplus_0_r (inject_Z k)) at 1.
    apply Qplus_le_r. discriminate.
Qed.

Lemma Qnat_le a b : (a <= b)%nat -> (Qnat a <= Qnat b)%Q.
Proof. intros Hle. unfold Qnat. rewrite <- Zle_Qle. lia. Qed.

Lemma Qnat_zero n : Qzero (Qnat n) = true <-> n = 0%nat.
Proof.
  unfold Qzero, Qnat. rewrite Qeq_bool_iff.
  change 0%Q with (inject_Z 0). rewrite inject_Z_injective. lia.
Qed.

Lemma Sorted_snoc {A} (R : A -> A -> Prop) l v :
  Sorted R l -> Forall (fun x => R x v) l -> Sorted R (l ++ [v]).
Proof.
  induction 1 as [|x l Hsorted IH Hhd]; intros Hall; cbn [app].
  - repeat constructor.
  - inversion Hall as [|? ? Hx Hl]; subst.
    constructor; [apply IH, Hl|].
    destruct Hhd as [|y l Hxy]; cbn [app]; constructor; assumption.
Qed.

Section ProgressFacts.
Variables normalizedItemData normalizedGenData : list NormalizedEntry.
Variable minThreshold : Q.
Variable maxResults : Z.
Variable onProgress : bool.
Hypothesis nonempty : normalizedItemData <> [].

Local Abbreviation total := (length normalizedItemData).

Lemma total_pos : (0 < total)%nat.
Proof. destruct normalizedItemData; [congruence|cbn; lia]. Qed.

Lemma progressOf_percentAt c :
  progressOf normalizedItemData c
  = Fin (inject_Z (percentAt normalizedItemData c)).
Proof.
  unfold progressOf, num_div, percentAt.
  destruct (Qzero (Qnat (length normalizedItemData))) eqn:Hz;
    [|reflexivity].
  apply Qnat_zero in Hz. pose proof total_pos. lia.
Qed.

Lemma percentAt_mono c c' :
  (c <= c')%nat ->
  percentAt normalizedItemData c <= percentAt normalizedItemData c'.
Proof.
  intros Hle. unfold percentAt. apply Math_round_mono.
  apply Qmult_le_compat_r; [|discriminate].
  apply Qmult_le_compat_r; [apply Qnat_le, Hle|].
  apply Qinv_le_0_compat, Qnat_nonneg.
Qed.

Lemma percentAt_0 : percentAt normalizedItemData 0 = 0.
Proof.
  unfold percentAt. rewrite <- (Math_round_Z 0). apply Math_round_comp.
  unfold Qdiv. rewrite !Qmult_0_l. reflexivity.
Qed.

Lemma percentAt_total : percentAt normalizedItemData total = 100.
Proof.
  unfold percentAt. rewrite <- (Math_round_Z 100).
  apply Math_round_comp. unfold Qdiv. rewrite Qmult_inv_r; [reflexivity|].
  intros Hz. apply Qeq_bool_iff, Qnat_zero in Hz.
  pose proof total_pos. lia.
Qed.

Lemma percentAt_range c :
  (c <= total)%nat -> 0 <= percentAt normalizedItemData c <= 100.
Proof.
  intros Hle. rewrite <- percentAt_0, <- percentAt_total.
  split; apply percentAt_mono; lia.
Qed.

Lemma progressInv_initial :
  progressInv normalizedItemData onProgress initialState.
Proof.
  repeat split; cbn; try constructor; try lia. reflexivity.
Qed.

Lemma progressInv_chunk st :
  progressInv normalizedItemData onProgress st ->
  progressInv normalizedItemData onProgress
    (fst (processChunk normalizedItemData normalizedGenData minThreshold
            maxResults onProgress st)).
Proof.
  intros (Hidx & Hall & Hsorted & _).
  set (endIndex := Nat.min (currentIndex st + chunkSize) total).
  assert (Hend : (currentIndex st <= endIndex <= total)%nat)
    by (subst endIndex; lia).
  assert (Hst :
            progressInv normalizedItemData onProgress
              (mkState endIndex
                 (fold_left (processItem normalizedGenData minThreshold)
                    (entriesBetween normalizedItemData (currentIndex st)
                       endIndex) (matches st))
                 (if onProgress
                  then reported st ++ [progressOf normalizedItemData endIndex]
                  else reported st))).
  { unfold progressInv. cbn [currentIndex reported].
    rewrite progressOf_percentAt.
    assert (Hall' :
              Forall (fun v =>
                        exists k,
                          v = Fin (inject_Z k)
                          /\ 0 <= k <= percentAt normalizedItemData endIndex)
                (reported st)).
    { eapply Forall_impl; [exact Hall|]. cbn beta.
      intros v (k & -> & Hk). exists k. split; [reflexivity|].
      pose proof (percentAt_mono (currentIndex st) endIndex). lia. }
    split; [lia|]. destruct onProgress.
    - split; [|split].
      + apply Forall_app. split; [exact Hall'|].
        constructor; [|constructor].
        exists (percentAt normalizedItemData endIndex).
        split; [reflexivity|].
        pose proof (percentAt_range endIndex). lia.
      + apply Sorted_snoc; [exact Hsorted|].
        eapply Forall_impl; [exact Hall'|]. cbn beta.
        intros v (k & -> & Hk). unfold num_le. rewrite <- Zle_Qle. lia.
      + right. intros _. apply last_snoc.
    - split; [exact Hall'|]. split; [exact Hsorted|].
      right. discriminate. }
  unfold processChunk. fold endIndex.
  destruct (_ && _); [exact Hst|].
  destruct (_ <? _)%nat; exact Hst.
Qed.

Lemma progressInv_run :
  Forall (progressInv normalizedItemData onProgress)
    (fst (runChunks normalizedItemData normalizedGenData minThreshold
            maxResults onProgress initialState)).
Proof.
  apply runChunks_invariant; [apply progressInv_chunk|].
  apply progressInv_initial.
Qed.

Lemma progressInv_reports st :
  progressInv normalizedItemData onProgress st ->
  Forall isPercent (reported st) /\ nondecreasing (reported st).
Proof.
  intros (Hidx & Hall & Hsorted & _). split; [|exact Hsorted].
  eapply Forall_impl; [exact Hall|]. cbn beta.
  intros v (k & -> & Hk). exists k. split; [reflexivity|].
  pose proof (percentAt_range (currentIndex st) Hidx). lia.
Qed.
End ProgressFacts.

(** C6 as stated fails: with 201 surviving left entries the first chunk
    reports 100 while the entry at index 200 is still to be processed and no
    global early exit is taken. *)
Lemma progressContract_201_entries :
  exists trace out,
    survivorCount "Description" (repeat (leftRow "abc") 201) = Ok 201%nat
    /\ matchDescriptionsAsync (repeat (leftRow "abc") 201) [] 0 1000 true
       = Ok (trace, out)
    /\ ~ progressContract 201 0 1000 trace.
Proof.
  do 2 eexists. split; [vm_compute; reflexivity|].
  split; [vm_compute; reflexivity|].
  intros Hcontract. apply Forall_inv in Hcontract.
  destruct Hcontract as (_ & _ & H100).
  destruct H100 as [Hdone|[Hexit _]].
  - left. reflexivity.
  - discriminate Hdone.
  - cbn in Hexit. lia.
Qed.

(** With no surviving left entry the single reported value is not a
    percentage at all. *)
Example progressContract_no_entry :
  exists trace out,
    matchDescriptionsAsync [] [] 0 1000 true = Ok (trace, out)
    /\ ~ progressContract 0 0 1000 trace.
Proof.
  do 2 eexists. split; [vm_compute; reflexivity|].
  intros Hcontract. apply Forall_inv in Hcontract.
  destruct Hcontract as (Hpercent & _).
  apply Forall_inv in Hpercent. destruct Hpercent as (k & Hk & _).
  discriminate Hk.
Qed.

(** ** The two entry points compared *)

(** *** What pre-processing keeps *)

Lemma normalizeRow_fields key idx r e :
  normalizeRow key idx r = Ok e ->
  row e = r
  /\ desc e = orElse (get r key) (VString "")
  /\ normalizeString (desc e) = Ok (normalizedDesc e).
Proof.
  unfold normalizeRow, extractTokens.
  destruct (normalizeString _) as [n|] eqn:Hn; cbn [mbind result_bind];
    [|discriminate].
  intros [= <-]. cbn. auto.
Qed.

Lemma mapM_In {A B} (f : nat -> A -> result B) l :
  forall idx out, mapM f idx l = Ok out ->
  forall y, In y out -> exists i x, In x l /\ f i x = Ok y.
Proof.
  induction l as [|x l IH]; intros idx out; cbn [mapM].
  - intros [= <-] y [].
  - destruct (f idx x) as [y0|] eqn:Hx; cbn [mbind result_bind];
      [|discriminate].
    destruct (mapM f (S idx) l) as [ys|] eqn:Hl; cbn [mbind result_bind];
      [|discriminate].
    intros [= <-] y [<-|Hin].
    + exists idx, x. split; [left; reflexivity|exact Hx].
    + destruct (IH _ _ Hl y Hin) as (i & x' & Hin' & Hy).
      exists i, x'. split; [right; exact Hin'|exact Hy].
Qed.

Lemma mapM_Forall {A B} (f : nat -> A -> result B) l :
  forall idx out, mapM f idx l = Ok out ->
  Forall (fun x => exists i y, f i x = Ok y) l.
Proof.
  induction l as [|x l IH]; intros idx out; cbn [mapM]; [constructor|].
  destruct (f idx x) as [y0|] eqn:Hx; cbn [mbind result_bind];
    [|discriminate].
  destruct (mapM f (S idx) l) as [ys|] eqn:Hl; cbn [mbind result_bind];
    [|discriminate].
  intros _. constructor; [eauto|eapply IH; exact Hl].
Qed.

Lemma preprocess_entries key data entries :
  preprocess key data = Ok entries ->
  forall a, In a entries ->
    In (row a) data
    /\ desc a = orElse (get (row a) key) (VString "")
    /\ normalizeString (desc a) = Ok (normalizedDesc a)
    /\ isEmpty (normalizedDesc a) = false.
Proof.
  unfold preprocess.
  destruct (mapM (normalizeRow key) 0%nat data) as [all|] eqn:Hmap;
    cbn [mbind result_bind]; [|discriminate].
  intros [= <-] a Hin. apply filter_In in Hin as [Hin Hsurvives].
  destruct (mapM_In _ _ _ _ Hmap a Hin) as (i & r & Hr & Hrow).
  apply normalizeRow_fields in Hrow as (Hrow & Hdesc & Hnorm).
  subst r. repeat split; try assumption.
  unfold survives in Hsurvives. apply andb_true_iff in Hsurvives as [Hlen _].
  destruct (normalizedDesc a); [discriminate|reflexivity].
Qed.

Lemma preprocess_normalizable key data entries :
  preprocess key data = Ok entries -> Forall (normalizable key) data.
Proof.
  unfold preprocess.
  destruct (mapM (normalizeRow key) 0%nat data) as [all|] eqn:Hmap;
    cbn [mbind result_bind]; [|discriminate].
  intros _. apply mapM_Forall in Hmap.
  eapply Forall_impl; [exact Hmap|]. cbn beta.
  intros r (i & e & He). apply normalizeRow_fields in He as (_ & Hdesc & Hn).
  rewrite Hdesc in Hn. eexists. exact Hn.
Qed.

(** *** What the chunked entry point collects *)

Lemma processChunk_fst nItems nGens minThreshold maxResults onProgress st :
  let endIndex := Nat.min (currentIndex st + chunkSize) (length nItems) in
  fst (processChunk nItems nGens minThreshold maxResults onProgress st)
  = mkState endIndex
      (fold_left (processItem nGens minThreshold)
         (entriesBetween nItems (currentIndex st) endIndex) (matches st))
      (if onProgress then reported st ++ [progressOf nItems endIndex]
       else reported st).
Proof.
  unfold processChunk. cbv zeta. destruct (_ && _); [reflexivity|].
  destruct (_ <? _)%nat; reflexivity.
Qed.

Section Collected.
Variables normalizedItemData normalizedGenData : list NormalizedEntry.
Variable minThreshold : Q.

Lemma scanCandidates_In a candidates :
  forall acc m,
    In m (scanCandidates minThreshold a candidates acc) ->
    In m acc
    \/ exists g, In g candidates
                 /\ (minThreshold <= rawPercentage a g)%Q
                 /\ m = resultOf a g.
Proof.
  induction candidates as [|g rest IH]; intros acc m; cbn [scanCandidates].
  - auto.
  - destruct (Qle_bool minThreshold (rawPercentage a g)) eqn:Hmin.
    + apply Qle_bool_iff in Hmin.
      assert (Hnew : forall m,
                 In m (acc ++ [resultOf a g]) ->
                 In m acc
                 \/ exists g', In g' (g :: rest)
                               /\ (minThreshold <= rawPercentage a g')%Q
                               /\ m = resultOf a g').
      { intros m' Hin. apply in_app_or in Hin as [Hin|[<-|[]]]; [auto|].
        right. exists g. split; [left; reflexivity|]. auto. }
      destruct (Qle_bool 98 (rawPercentage a g)); [apply Hnew|].
      intros Hin. apply IH in Hin as [Hin|(g' & Hg' & Hrest)].
      * apply Hnew, Hin.
      * right. exists g'. split; [right; exact Hg'|exact Hrest].
    + intros Hin. apply IH in Hin as [Hin|(g' & Hg' & Hrest)]; [auto|].
      right. exists g'. split; [right; exact Hg'|exact Hrest].
Qed.

Lemma processItem_In acc a m :
  In m (processItem normalizedGenData minThreshold acc a) ->
  In m acc
  \/ exists g, In g normalizedGenData /\ isCandidate a g = true
               /\ (minThreshold <= rawPercentage a g)%Q
               /\ m = resultOf a g.
Proof.
  unfold processItem. intros Hin.
  apply scanCandidates_In in Hin as [Hin|(g & Hg & Hrest)]; [auto|].
  apply filter_In in Hg as [Hg Hcand]. right. exists g. auto.
Qed.

Lemma fold_processItem_In l :
  forall acc m,
    In m (fold_left (processItem normalizedGenData minThreshold) l acc) ->
    In m acc
    \/ exists a g, In a l /\ In g normalizedGenData
                   /\ isCandidate a g = true
                   /\ (minThreshold <= rawPercentage a g)%Q
                   /\ m = resultOf a g.
Proof.
  induction l as [|a l IH]; intros acc m; cbn [fold_left]; [auto|].
  intros Hin. apply IH in Hin as [Hin|(a' & g & Ha' & Hrest)].
  - apply processItem_In in Hin as [Hin|(g & Hrest)]; [auto|].
    right. exists a, g. split; [left; reflexivity|exact Hrest].
  - right. exists a', g. split; [right; exact Ha'|exact Hrest].
Qed.

Lemma entriesBetween_In from to a :
  In a (entriesBetween normalizedItemData from to) ->
  In a normalizedItemData.
Proof.
  unfold entriesBetween. intros Hin.
  rewrite <- (firstn_skipn from normalizedItemData).
  apply in_or_app. right.
  rewrite <- (firstn_skipn (to - from) (skipn from normalizedItemData)).
  apply in_or_app. left. exact Hin.
Qed.

Lemma processChunk_produced maxResults onProgress st :
  List.Forall (produced normalizedItemData normalizedGenData minThreshold)
    (matches st) ->
  List.Forall (produced normalizedItemData normalizedGenData minThreshold)
    (matches (fst (processChunk normalizedItemData normalizedGenData
                     minThreshold maxResults onProgress st))).
Proof.
  intros Hacc. rewrite processChunk_fst. cbn [matches].
  apply List.Forall_forall. intros m Hin.
  apply fold_processItem_In in Hin as [Hin|(a & g & Ha & Hrest)].
  - eapply List.Forall_forall in Hacc; eassumption.
  - exists a, g. split; [eapply entriesBetween_In; exact Ha|exact Hrest].
Qed.

Lemma runChunks_produced maxResults onProgress :
  Forall
    (fun st =>
       List.Forall (produced normalizedItemData normalizedGenData minThreshold)
         (matches st))
    (fst (runChunks normalizedItemData normalizedGenData minThreshold
            maxResults onProgress initialState)).
Proof.
  apply runChunks_invariant.
  - apply processChunk_produced.
  - constructor.
Qed.
End Collected.

(** *** What the synchronous sweep collects *)

Section SweepFacts.
Variable minThreshold : Q.

Lemma sweepGen_mono itemRow itemDesc genConsumableData :
  forall acc out,
    sweepGen minThreshold itemRow itemDesc genConsumableData acc = Ok out ->
    forall m, In m acc -> In m out.
Proof.
  induction genConsumableData as [|genRow rest IH]; intros acc out;
    cbn [sweepGen].
  - intros [= <-]. auto.
  - destruct (negb (truthy _)); [apply IH|].
    destruct (calculateSimilarity _ _) as [p|]; cbn [mbind result_bind];
      [|discriminate].
    destruct (Qle_bool minThreshold p); [|apply IH].
    intros Hout m Hin. eapply IH; [exact Hout|].
    apply in_or_app. left. exact Hin.
Qed.

Lemma sweepGen_complete itemRow itemDesc genConsumableData :
  forall acc out,
    sweepGen minThreshold itemRow itemDesc genConsumableData acc = Ok out ->
    forall genRow p,
      In genRow genConsumableData ->
      truthy (orElse (get genRow "LONG DESCRIPTION") (VString "")) = true ->
      calculateSimilarity itemDesc
        (orElse (get genRow "LONG DESCRIPTION") (VString "")) = Ok p ->
      Qle_bool minThreshold p = true ->
      In (mkMatch itemRow genRow p itemDesc
            (orElse (get genRow "LONG DESCRIPTION") (VString ""))) out.
Proof.
  induction genConsumableData as [|genRow' rest IH]; intros acc out Hout
    genRow p Hin Htruthy Hsim Hmin; [destruct Hin|].
  cbn [sweepGen] in Hout. destruct Hin as [->|Hin].
  - rewrite Htruthy, Hsim in Hout. cbn [negb mbind result_bind] in Hout.
    rewrite Hmin in Hout.
    eapply sweepGen_mono; [exact Hout|].
    apply in_or_app. right. left. reflexivity.
  - destruct (negb (truthy _)); [eapply IH; eassumption|].
    destruct (calculateSimilarity _ _) as [p'|]; cbn [mbind result_bind] in *;
      [|discriminate].
    destruct (Qle_bool minThreshold p'); eapply IH; eassumption.
Qed.

Lemma sweepItems_mono itemMasterData genConsumableData :
  forall acc out,
    sweepItems minThreshold itemMasterData genConsumableData acc = Ok out ->
    forall m, In m acc -> In m out.
Proof.
  induction itemMasterData as [|itemRow rest IH]; intros acc out;
    cbn [sweepItems].
  - intros [= <-]. auto.
  - destruct (negb (truthy _)); [apply IH|].
    destruct (sweepGen _ _ _ _ _) as [acc'|] eqn:Hgen;
      cbn [mbind result_bind]; [|discriminate].
    intros Hout m Hin. eapply IH; [exact Hout|].
    eapply sweepGen_mono; eassumption.
Qed.

Lemma sweepItems_complete itemMasterData genConsumableData :
  forall acc out,
    sweepItems minThreshold itemMasterData genConsumableData acc = Ok out ->
    forall itemRow genRow p,
      In itemRow itemMasterData ->
      In genRow genConsumableData ->
      truthy (orElse (get itemRow "Description") (VString "")) = true ->
      truthy (orElse (get genRow "LONG DESCRIPTION") (VString "")) = true ->
      calculateSimilarity
        (orElse (get itemRow "Description") (VString ""))
        (orElse (get genRow "LONG DESCRIPTION") (VString "")) = Ok p ->
      Qle_bool minThreshold p = true ->
      In (mkMatch itemRow genRow p
            (orElse (get itemRow "Description") (VString ""))
            (orElse (get genRow "LONG DESCRIPTION") (VString ""))) out.
Proof.
  induction itemMasterData as [|itemRow' rest IH]; intros acc out Hout
    itemRow genRow p Hitem Hgen Hti Htg Hsim Hmin; [destruct Hitem|].
  cbn [sweepItems] in Hout. destruct Hitem as [->|Hitem].
  - rewrite Hti in Hout. cbn [negb] in Hout.
    destruct (sweepGen _ _ _ _ _) as [acc'|] eqn:Hsweep;
      cbn [mbind result_bind] in Hout; [|discriminate].
    eapply sweepItems_mono; [exact Hout|].
    eapply sweepGen_complete; eassumption.
  - destruct (negb (truthy _)); [eapply IH; eassumption|].
    destruct (sweepGen _ _ _ _ _) as [acc'|];
      cbn [mbind result_bind] in Hout; [|discriminate].
    eapply IH; eassumption.
Qed.
End SweepFacts.

(** *** The score and the threshold on both sides *)

Lemma normalizeString_truthy v n :
  normalizeString v = Ok n -> isEmpty n = false -> truthy v = true.
Proof.
  unfold normalizeString. destruct (truthy v); [reflexivity|].
  cbn. intros [= <-]. discriminate.
Qed.

(** In exact arithmetic the two rounding expressions,
    [Math.round(s * 100 * 100) / 100] of the chunked entry point and
    [Math.round(s * 10000) / 100] of [calculateSimilarity], give the same
    value. *)
Lemma calculateSimilarity_entries a g :
  normalizeString (desc a) = Ok (normalizedDesc a) ->
  normalizeString (desc g) = Ok (normalizedDesc g) ->
  isEmpty (normalizedDesc a) = false ->
  isEmpty (normalizedDesc g) = false ->
  calculateSimilarity (desc a) (desc g) = Ok (roundTo2 (rawPercentage a g)).
Proof.
  intros Ha Hg Hea Heg. unfold calculateSimilarity.
  rewrite Ha, Hg. cbn [mbind result_bind]. rewrite Hea, Heg. cbn [orb].
  unfold roundTo2, rawPercentage. f_equal. f_equal. f_equal.
  apply Math_round_comp. ring.
Qed.

(** Rounding to two decimals does not take a percentage below a threshold
    that has at most two decimals itself. *)
Lemma roundTo2_threshold (minThreshold x : Q) (k : Z) :
  (minThreshold == inject_Z k / 100)%Q ->
  (minThreshold <= x)%Q -> (minThreshold <= roundTo2 x)%Q.
Proof.
  intros Hk Hle. rewrite Hk in *. unfold roundTo2, Qdiv.
  apply Qmult_le_compat_r; [|discriminate].
  rewrite <- Zle_Qle. rewrite <- (Math_round_Z k). apply Math_round_mono.
  assert (Hscale : (inject_Z k == 100 * (inject_Z k / 100))%Q)
    by (rewrite Qmult_div_r; [reflexivity|discriminate]).
  rewrite Hscale, (Qmult_comm x 100).
  apply Qmult_le_l; [reflexivity|exact Hle].
Qed.

(** *** When the chunked entry point does collect a pair *)

Lemma firstn_entriesBetween {A} (l : list A) :
  forall from to, (from <= to)%nat ->
  firstn from l ++ firstn (to - from) (skipn from l) = firstn to l.
Proof.
  induction l as [|x l IH]; intros from to Hle.
  - rewrite skipn_nil, !firstn_nil. reflexivity.
  - destruct from as [|from]; [cbn; rewrite Nat.sub_0_r; reflexivity|].
    destruct to as [|to]; [lia|].
    cbn [firstn skipn app Nat.sub]. rewrite IH by lia. reflexivity.
Qed.

Section Completeness.
Variables normalizedItemData normalizedGenData : list NormalizedEntry.
Variable minThreshold : Q.

Lemma scanCandidates_mono a candidates :
  forall acc m, In m acc -> In m (scanCandidates minThreshold a candidates acc).
Proof.
  induction candidates as [|g rest IH]; intros acc m Hin;
    cbn [scanCandidates]; [exact Hin|].
  destruct (Qle_bool minThreshold (rawPercentage a g)); [|apply IH, Hin].
  destruct (Qle_bool 98 (rawPercentage a g)); [|apply IH];
    apply in_or_app; left; exact Hin.
Qed.

Lemma scanCandidates_complete a g pre post :
  Forall (fun g' => isCandidate a g' = true) pre ->
  noBreak minThreshold a pre ->
  (minThreshold <= rawPercentage a g)%Q ->
  forall acc,
    In (resultOf a g) (scanCandidates minThreshold a (pre ++ g :: post) acc).
Proof.
  intros Hcand Hpre Hmin.
  induction pre as [|g' pre IH]; intros acc; cbn [app scanCandidates].
  - apply Qle_bool_iff in Hmin. rewrite Hmin.
    assert (In (resultOf a g) (acc ++ [resultOf a g]))
      by (apply in_or_app; right; left; reflexivity).
    destruct (Qle_bool 98 (rawPercentage a g));
      [|apply scanCandidates_mono]; assumption.
  - inversion Hcand as [|? ? Hg' Hcand']; subst.
    assert (Hpre' : noBreak minThreshold a pre)
      by (intros x Hx; apply Hpre; right; exact Hx).
    destruct (Qle_bool minThreshold (rawPercentage a g')) eqn:Hmin';
      [|apply IH; assumption].
    apply Qle_bool_iff in Hmin'.
    pose proof (Hpre g' (or_introl eq_refl) Hg' Hmin') as Hlt.
    destruct (Qle_bool 98 (rawPercentage a g')) eqn:Hbreak;
      [|apply IH; assumption].
    apply Qle_bool_iff in Hbreak. exfalso.
    exact (Qlt_not_le _ _ Hlt Hbreak).
Qed.

Lemma processItem_mono acc a m :
  In m acc -> In m (processItem normalizedGenData minThreshold acc a).
Proof. apply scanCandidates_mono. Qed.

Lemma processItem_complete a g pre post acc :
  normalizedGenData = pre ++ g :: post ->
  isCandidate a g = true ->
  noBreak minThreshold a pre ->
  (minThreshold <= rawPercentage a g)%Q ->
  In (resultOf a g) (processItem normalizedGenData minThreshold acc a).
Proof.
  intros -> Hcand Hpre Hmin. unfold processItem.
  rewrite List.filter_app. cbn [List.filter]. rewrite Hcand.
  apply scanCandidates_complete; [| |exact Hmin].
  - apply List.Forall_forall. intros x Hx.
    apply filter_In in Hx as [_ Hx]. exact Hx.
  - intros x Hx. apply filter_In in Hx as [Hx _]. apply Hpre, Hx.
Qed.

Lemma fold_processItem_mono l :
  forall acc m, In m acc ->
    In m (fold_left (processItem normalizedGenData minThreshold) l acc).
Proof.
  induction l as [|a l IH]; intros acc m Hin; cbn [fold_left];
    [exact Hin|].
  apply IH, processItem_mono, Hin.
Qed.

Lemma fold_processItem_complete l a g pre post :
  In a l ->
  normalizedGenData = pre ++ g :: post ->
  isCandidate a g = true ->
  noBreak minThreshold a pre ->
  (minThreshold <= rawPercentage a g)%Q ->
  forall acc,
    In (resultOf a g)
      (fold_left (processItem normalizedGenData minThreshold) l acc).
Proof.
  intros Ha Hsplit Hcand Hpre Hmin.
  induction l as [|a' l IH]; intros acc; [destruct Ha|].
  cbn [fold_left]. destruct Ha as [->|Ha]; [|apply IH, Ha].
  apply fold_processItem_mono.
  eapply processItem_complete; eassumption.
Qed.

Lemma sweptInv_chunk maxResults onProgress st :
  sweptInv normalizedItemData normalizedGenData minThreshold st ->
  sweptInv normalizedItemData normalizedGenData minThreshold
    (fst (processChunk normalizedItemData normalizedGenData minThreshold
            maxResults onProgress st)).
Proof.
  intros [Hidx Hacc]. rewrite processChunk_fst. unfold sweptInv.
  cbn [currentIndex matches]. split; [lia|].
  rewrite Hacc, <- fold_left_app. unfold entriesBetween.
  rewrite firstn_entriesBetween by lia. reflexivity.
Qed.

Lemma runChunks_swept maxResults onProgress :
  Forall (sweptInv normalizedItemData normalizedGenData minThreshold)
    (fst (runChunks normalizedItemData normalizedGenData minThreshold
            maxResults onProgress initialState)).
Proof.
  apply runChunks_invariant; [apply sweptInv_chunk|].
  split; [cbn; lia|reflexivity].
Qed.

(** Without the global early exit the last chunk ends at the last entry. *)
Lemma runChunks_reaches_end maxResults onProgress :
  (minThreshold < 70)%Q ->
  forall st final,
    last (fst (runChunks normalizedItemData normalizedGenData minThreshold
                 maxResults onProgress st)) = Some final ->
    (length normalizedItemData <= currentIndex final)%nat.
Proof.
  intros Hlow st.
  induction st as [st IH]
    using (well_founded_induction
             (well_founded_ltof _
                (fun st =>
                   (length normalizedItemData - currentIndex st)%nat))).
  intros final. rewrite runChunks_step.
  destruct (processChunk _ _ _ _ _ st) as [st' next] eqn:Hchunk.
  pose proof (f_equal fst Hchunk) as Hst'. cbn [fst] in Hst'.
  rewrite processChunk_fst in Hst'.
  destruct next as [sorted|].
  - cbn [fst last]. intros [= <-]. revert Hchunk. unfold processChunk.
    assert (Hno : Qle_bool 70 minThreshold = false).
    { destruct (Qle_bool 70 minThreshold) eqn:Hle; [|reflexivity].
      apply Qle_bool_iff in Hle. exfalso.
      exact (Qlt_not_le _ _ Hlow Hle). }
    rewrite Hno, andb_false_r.
    destruct (Nat.ltb_spec
                (Nat.min (currentIndex st + chunkSize)
                   (length normalizedItemData))
                (length normalizedItemData)) as [|Hge]; [discriminate|].
    intros _. rewrite <- Hst'. cbn [currentIndex]. exact Hge.
  - cbn [fst]. intros Hlast.
    apply (IH st'); [apply processChunk_reschedule in Hchunk; exact Hchunk|].
    destruct (fst (runChunks _ _ _ _ _ st')) as [|x l] eqn:Htrace.
    + pose proof (runChunks_resolved normalizedItemData normalizedGenData
                    minThreshold maxResults onProgress st')
        as (f & Hf & _).
      rewrite Htrace in Hf. discriminate.
    + rewrite last_cons_cons in Hlast. exact Hlast.
Qed.
End Completeness.

(** *** The claim and what holds *)

(** C1 as stated fails: the second right row passes the candidate filter
    and is collected by [matchDescriptions] with 92.31, but
    [matchDescriptionsAsync] stops scanning after the first right row, which
    scores 100. *)
Lemma entryPointsAgree_early_break :
  ~ entryPointsAgree [leftRow "abc def"]
      [rightRow "abc def"; rightRow "abc defg"] 0 1000.
Proof.
  set (a := entryOf "Description" 0 (leftRow "abc def")).
  set (g1 := entryOf "LONG DESCRIPTION" 0 (rightRow "abc def")).
  set (g2 := entryOf "LONG DESCRIPTION" 1 (rightRow "abc defg")).
  set (m1 := mkMatch (leftRow "abc def") (rightRow "abc def") (10000 # 100)
               (VString "abc def") (VString "abc def")).
  set (m2 := mkMatch (leftRow "abc def") (rightRow "abc defg") (9231 # 100)
               (VString "abc def") (VString "abc defg")).
  assert (Hitems : preprocess "Description" [leftRow "abc def"] = Ok [a])
    by (vm_compute; reflexivity).
  assert (Hgens : preprocess "LONG DESCRIPTION"
                    [rightRow "abc def"; rightRow "abc defg"]
                  = Ok [g1; g2])
    by (vm_compute; reflexivity).
  assert (Hsync : collectSync [leftRow "abc def"]
                    [rightRow "abc def"; rightRow "abc defg"] 0
                  = Ok [m1; m2])
    by (vm_compute; reflexivity).
  assert (Hasync : matchDescriptionsAsync [leftRow "abc def"]
                     [rightRow "abc def"; rightRow "abc defg"] 0 1000 false
                   = Ok ([mkState 1 [m1] []], [m1]))
    by (vm_compute; reflexivity).
  assert (Hcand : isCandidate a g2 = true) by (vm_compute; reflexivity).
  assert (Hrow_a : row a = leftRow "abc def") by (vm_compute; reflexivity).
  assert (Hrow_g : row g2 = rightRow "abc defg") by (vm_compute; reflexivity).
  intros Hagree.
  specialize (Hagree _ _ _ _ Hitems Hgens Hsync Hasync a g2 (9231 # 100)%Q
                (or_introl eq_refl) (or_intror (or_introl eq_refl)) Hcand).
  rewrite Hrow_a, Hrow_g in Hagree. destruct Hagree as [_ Hfromsync].
  destruct Hfromsync as (m & Hin & _ & Hrow & _).
  - exists m2. split; [right; left; reflexivity|].
    repeat split; reflexivity.
  - unfold collectedAsync in Hin.
    cbn [fst last from_option matches] in Hin.
    destruct Hin as [<-|[]].
    apply (f_equal (fun r => get r "LONG DESCRIPTION")) in Hrow.
    vm_compute in Hrow. discriminate.
Qed.

(** The other direction fails as well when the threshold has more than two
    decimals: the pair below is collected by [matchDescriptionsAsync], whose
    test is on the unrounded 100/3, and not by [matchDescriptions], whose
    test is on 33.33. *)
Example entryPointsAgree_rounding :
  ~ entryPointsAgree [leftRow "pad x 5"] [rightRow "7 m pad m net"]
      (33333 # 1000) 1000.
Proof.
  set (a := entryOf "Description" 0 (leftRow "pad x 5")).
  set (g := entryOf "LONG DESCRIPTION" 0 (rightRow "7 m pad m net")).
  set (m := mkMatch (leftRow "pad x 5") (rightRow "7 m pad m net")
              (3333 # 100) (VString "pad x 5") (VString "7 m pad m net")).
  assert (Hitems : preprocess "Description" [leftRow "pad x 5"] = Ok [a])
    by (vm_compute; reflexivity).
  assert (Hgens : preprocess "LONG DESCRIPTION" [rightRow "7 m pad m net"]
                  = Ok [g])
    by (vm_compute; reflexivity).
  assert (Hsync : collectSync [leftRow "pad x 5"] [rightRow "7 m pad m net"]
                    (33333 # 1000) = Ok [])
    by (vm_compute; reflexivity).
  assert (Hasync : matchDescriptionsAsync [leftRow "pad x 5"]
                     [rightRow "7 m pad m net"] (33333 # 1000) 1000 false
                   = Ok ([mkState 1 [m] []], [m]))
    by (vm_compute; reflexivity).
  assert (Hcand : isCandidate a g = true) by (vm_compute; reflexivity).
  assert (Hrow_a : row a = leftRow "pad x 5") by (vm_compute; reflexivity).
  assert (Hrow_g : row g = rightRow "7 m pad m net")
    by (vm_compute; reflexivity).
  intros Hagree.
  specialize (Hagree _ _ _ _ Hitems Hgens Hsync Hasync a g (3333 # 100)%Q
                (or_introl eq_refl) (or_introl eq_refl) Hcand).
  rewrite Hrow_a, Hrow_g in Hagree. destruct Hagree as [Hfromasync _].
  destruct Hfromasync as (m' & [] & _).
  exists m. split; [left; reflexivity|]. repeat split; reflexivity.
Qed.

Lemma matchDescriptionsAsync_final
    itemMasterData genConsumableData minThreshold maxResults onProgress out :
  matchDescriptionsAsync itemMasterData genConsumableData minThreshold
    maxResults onProgress = Ok out ->
  exists nItems nGens final,
    preprocess "Description" itemMasterData = Ok nItems
    /\ preprocess "LONG DESCRIPTION" genConsumableData = Ok nGens
    /\ last (fst out) = Some final
    /\ List.Forall (produced nItems nGens minThreshold) (matches final)
    /\ sweptInv nItems nGens minThreshold final
    /\ ((minThreshold < 70)%Q ->
        (length nItems <= currentIndex final)%nat).
Proof.
  unfold matchDescriptionsAsync. intros Hrun.
  destruct (preprocess "Description" itemMasterData) as [nItems|];
    [|discriminate].
  destruct (preprocess "LONG DESCRIPTION" genConsumableData) as [nGens|];
    [|discriminate].
  cbn [mbind result_bind] in Hrun. injection Hrun as Hrun.
  destruct (runChunks_resolved nItems nGens minThreshold maxResults
              onProgress initialState) as (final & Hlast & _).
  pose proof (runChunks_produced nItems nGens minThreshold maxResults
                onProgress) as Hproduced.
  pose proof (runChunks_swept nItems nGens minThreshold maxResults
                onProgress) as Hswept.
  pose proof (runChunks_reaches_end nItems nGens minThreshold maxResults
                onProgress) as Hend.
  rewrite Hrun in Hlast, Hproduced, Hswept.
  exists nItems, nGens, final. repeat split; try assumption.
  - eapply Forall_forall in Hproduced; [exact Hproduced|].
    apply last_Some_elem_of, Hlast.
  - eapply Forall_forall in Hswept; [apply Hswept|].
    apply last_Some_elem_of, Hlast.
  - eapply Forall_forall in Hswept; [apply Hswept|].
    apply last_Some_elem_of, Hlast.
  - intros Hlow. apply (Hend Hlow initialState). rewrite Hrun. exact Hlast.
Qed.

(** The chunked entry point only collects rows whose description has a
    non-empty normalized form: blank and punctuation-only rows never
    contribute, whatever the threshold. *)
Lemma matchDescriptionsAsync_nonblank
    itemMasterData genConsumableData minThreshold maxResults onProgress out :
  matchDescriptionsAsync itemMasterData genConsumableData minThreshold
    maxResults onProgress = Ok out ->
  forall m, In m (collectedAsync out) ->
    exists n1 n2,
      normalizeString (orElse (get (itemMasterRow m) "Description")
                         (VString "")) = Ok n1
      /\ normalizeString (orElse (get (genConsumableRow m) "LONG DESCRIPTION")
                            (VString "")) = Ok n2
      /\ isEmpty n1 = false /\ isEmpty n2 = false.
Proof.
  intros Hrun m Hm.
  destruct (matchDescriptionsAsync_final _ _ _ _ _ _ Hrun)
    as (nItems & nGens & final & Hitems & Hgens & Hlast & Hproduced & _).
  unfold collectedAsync in Hm. rewrite Hlast in Hm. cbn [from_option] in Hm.
  eapply List.Forall_forall in Hproduced; [|exact Hm].
  destruct Hproduced as (a & g & Ha & Hg & _ & _ & ->).
  destruct (preprocess_entries _ _ _ Hitems a Ha)
    as (_ & Hadesc & Hanorm & Haempty).
  destruct (preprocess_entries _ _ _ Hgens g Hg)
    as (_ & Hgdesc & Hgnorm & Hgempty).
  exists (normalizedDesc a), (normalizedDesc g).
  unfold resultOf. cbn [itemMasterRow genConsumableRow].
  rewrite <- Hadesc, <- Hgdesc. auto.
Qed.

(** ** What holds of the returned percentages *)

Lemma percentage_range (score : Q) :
  (0 <= score <= 1)%Q ->
  (0 <= inject_Z (Math_round (score * 10000)) / 100 <= 100)%Q.
Proof.
  intros [Hlo Hhi].
  assert (Hround : 0 <= Math_round (score * 10000) <= 10000).
  { rewrite <- (Math_round_Z 0), <- (Math_round_Z 10000).
    split; apply Math_round_mono.
    - change (inject_Z 0) with (0 * 10000)%Q.
      apply Qmult_le_compat_r; [exact Hlo|discriminate].
    - change (inject_Z 10000) with (1 * 10000)%Q.
      apply Qmult_le_compat_r; [exact Hhi|discriminate]. }
  split.
  - apply Qle_shift_div_l; [reflexivity|].
    rewrite Qmult_0_l. change 0%Q with (inject_Z 0).
    rewrite <- Zle_Qle. lia.
  - apply Qle_shift_div_r; [reflexivity|].
    change (100 * 100)%Q with (inject_Z 10000).
    rewrite <- Zle_Qle. lia.
Qed.

Lemma calculateSimilarity_scored desc1 desc2 p :
  calculateSimilarity desc1 desc2 = Ok p ->
  (0 <= p <= 100)%Q /\ exists k : Z, (p == inject_Z k / 100)%Q.
Proof.
  unfold calculateSimilarity.
  destruct (normalizeString desc1) as [n1|]; cbn [mbind result_bind];
    [|discriminate].
  destruct (normalizeString desc2) as [n2|]; cbn [mbind result_bind];
    [|discriminate].
  destruct (isEmpty n1 || isEmpty n2); intros [= <-].
  - split; [split; discriminate|]. exists 0. reflexivity.
  - split; [apply percentage_range, compareTwoStrings_bounds|].
    eexists. reflexivity.
Qed.

Lemma resultOf_scored a g :
  inRange (resultOf a g) /\ twoDecimals (resultOf a g).
Proof.
  unfold inRange, twoDecimals, resultOf, roundTo2, rawPercentage.
  cbn [matchPercentage]. split; [|eexists; reflexivity].
  rewrite (Math_round_comp _
             (compareTwoStrings (normalizedDesc a) (normalizedDesc g)
              * 10000)) by ring.
  apply percentage_range, compareTwoStrings_bounds.
Qed.

Lemma insertDesc_Forall (P : MatchResult -> Prop) m l :
  P m -> Forall P l -> Forall P (insertDesc m l).
Proof.
  intros Hm. induction 1 as [|x l Hx Hl IH]; cbn [insertDesc].
  - repeat constructor. exact Hm.
  - destruct (Qle_bool _ _); repeat constructor; assumption.
Qed.

Lemma rank_Forall (P : MatchResult -> Prop) matches maxResults :
  Forall P matches -> Forall P (rank matches maxResults).
Proof.
  intros Hall. unfold rank, slice0. apply Forall_take.
  induction Hall as [|m l Hm Hl IH]; cbn [sortDesc]; [constructor|].
  apply insertDesc_Forall; assumption.
Qed.

Section SweepScores.
Variable minThreshold : Q.

Let scored (m : MatchResult) : Prop :=
  inRange m /\ twoDecimals m /\ meetsThreshold minThreshold m.

Lemma sweepGen_scored itemRow itemDesc genConsumableData :
  forall acc out,
    sweepGen minThreshold itemRow itemDesc genConsumableData acc = Ok out ->
    Forall scored acc -> Forall scored out.
Proof.
  induction genConsumableData as [|genRow rest IH]; intros acc out;
    cbn [sweepGen].
  - intros [= <-]. auto.
  - destruct (negb (truthy _)); [apply IH|].
    destruct (calculateSimilarity _ _) as [p|] eqn:Hsim;
      cbn [mbind result_bind]; [|discriminate].
    destruct (Qle_bool minThreshold p) eqn:Hmin; [|apply IH].
    intros Hout Hacc. eapply IH; [exact Hout|].
    apply Forall_app. split; [exact Hacc|].
    constructor; [|constructor].
    apply calculateSimilarity_scored in Hsim as [Hrange Hdec].
    apply Qle_bool_iff in Hmin.
    split; [exact Hrange|]. split; [exact Hdec|exact Hmin].
Qed.

Lemma sweepItems_scored itemMasterData genConsumableData :
  forall acc out,
    sweepItems minThreshold itemMasterData genConsumableData acc = Ok out ->
    Forall scored acc -> Forall scored out.
Proof.
  induction itemMasterData as [|itemRow rest IH]; intros acc out;
    cbn [sweepItems].
  - intros [= <-]. auto.
  - destruct (negb (truthy _)); [apply IH|].
    destruct (sweepGen _ _ _ _ _) as [acc'|] eqn:Hgen;
      cbn [mbind result_bind]; [|discriminate].
    intros Hout Hacc. eapply IH; [exact Hout|].
    eapply sweepGen_scored; eassumption.
Qed.

(** Every result of the synchronous sweep is as C5 says. *)
Lemma matchDescriptions_scores itemMasterData genConsumableData maxResults
    out :
  matchDescriptions itemMasterData genConsumableData minThreshold maxResults
  = Ok out ->
  Forall (fun m =>
            inRange m /\ twoDecimals m /\ meetsThreshold minThreshold m)
    out.
Proof.
  unfold matchDescriptions, collectSync.
  destruct (sweepItems _ _ _ _) as [acc|] eqn:Hsweep;
    cbn [mbind result_bind]; [|discriminate].
  intros [= <-]. apply rank_Forall.
  eapply sweepItems_scored; [exact Hsweep|constructor].
Qed.

(** Every result of the chunked entry point is in range and has two
    decimals; it reaches a threshold that has at most two decimals. *)
Lemma matchDescriptionsAsync_scores itemMasterData genConsumableData
    maxResults onProgress trace out :
  matchDescriptionsAsync itemMasterData genConsumableData minThreshold
    maxResults onProgress = Ok (trace, out) ->
  Forall (fun m =>
            inRange m /\ twoDecimals m
            /\ ((exists k : Z, minThreshold == inject_Z k / 100)%Q ->
                meetsThreshold minThreshold m))
    out.
Proof.
  intros Hrun.
  destruct (matchDescriptionsAsync_resolved _ _ _ _ _ _ _ Hrun)
    as (final & Hlast & ->).
  destruct (matchDescriptionsAsync_final _ _ _ _ _ _ Hrun)
    as (nItems & nGens & final' & _ & _ & Hlast' & Hproduced & _).
  cbn [fst] in Hlast'. rewrite Hlast in Hlast'. injection Hlast' as <-.
  apply rank_Forall. eapply Forall_impl; [exact Hproduced|]. cbn beta.
  intros m (a & g & _ & _ & _ & Hmin & ->).
  destruct (resultOf_scored a g) as [Hrange Hdec].
  split; [exact Hrange|]. split; [exact Hdec|].
  intros [k Hk]. unfold meetsThreshold, resultOf. cbn [matchPercentage].
  eapply roundTo2_threshold; eassumption.
Qed.
End SweepScores.

(** * Further properties *)

(** ** Normalization: alphabet and fixed points *)

Ltac each_char c :=
  destruct c as [[] [] [] [] [] [] [] []]; vm_compute;
  try reflexivity; try (intros; congruence).

Lemma toLowerChar_not_upper c : isUpperAZ (toLowerChar c) = false.
Proof. each_char c. Qed.

Lemma toLowerChar_plain c :
  isPlainChar c = true -> isPlainChar (toLowerChar c) = true.
Proof. each_char c. Qed.

Lemma toLowerChar_normal c : isNormalChar c = true -> toLowerChar c = c.
Proof. each_char c. Qed.

Lemma space_is_whitespace c : Ascii.eqb c " " = true -> isWhiteSpace c = true.
Proof. each_char c. Qed.

Lemma normal_is_plain c : isNormalChar c = true -> isPlainChar c = true.
Proof. each_char c. Qed.

Lemma normal_whitespace c :
  isNormalChar c = true -> isWhiteSpace c = true -> Ascii.eqb c " " = true.
Proof. each_char c. Qed.

Lemma plain_lower_normal c :
  isPlainChar c = true -> isUpperAZ c = false ->
  (negb (isWhiteSpace c) || Ascii.eqb c " ") = true ->
  isNormalChar c = true.
Proof. each_char c. Qed.

Lemma allChars_impl (P Q : ascii -> bool) s :
  (forall c, P c = true -> Q c = true) ->
  allChars P s = true -> allChars Q s = true.
Proof.
  intros Himpl. induction s as [|c r IH]; cbn [allChars]; [auto|].
  rewrite !andb_true_iff. intros [Hc Hr]. auto.
Qed.

Lemma allChars_and (P Q : ascii -> bool) s :
  allChars P s = true -> allChars Q s = true ->
  allChars (fun c => P c && Q c) s = true.
Proof.
  induction s as [|c r IH]; cbn [allChars]; [auto|].
  rewrite !andb_true_iff. intros [Hc Hr] [Hc' Hr']. auto.
Qed.

Lemma allChars_toLowerCase s :
  allChars (fun c => negb (isUpperAZ c)) (toLowerCase s) = true.
Proof.
  induction s as [|c r IH]; cbn [toLowerCase allChars]; [reflexivity|].
  rewrite toLowerChar_not_upper, IH. reflexivity.
Qed.

Lemma allChars_toLowerCase_plain s :
  allChars isPlainChar s = true ->
  allChars isPlainChar (toLowerCase s) = true.
Proof.
  induction s as [|c r IH]; cbn [toLowerCase allChars]; [auto|].
  rewrite !andb_true_iff. intros [Hc Hr].
  split; [apply toLowerChar_plain, Hc|apply IH, Hr].
Qed.

Lemma allChars_trimStart P s :
  allChars P s = true -> allChars P (trimStart s) = true.
Proof.
  induction s as [|c r IH]; cbn [trimStart allChars]; [auto|].
  destruct (isWhiteSpace c); [|auto].
  rewrite andb_true_iff. intros [_ Hr]. auto.
Qed.

Lemma allChars_trimEnd P s :
  allChars P s = true -> allChars P (trimEnd s) = true.
Proof.
  induction s as [|c r IH]; cbn [trimEnd allChars]; [auto|].
  rewrite andb_true_iff. intros [Hc Hr].
  destruct (isWhiteSpace c && String.eqb (trimEnd r) ""); [reflexivity|].
  cbn [allChars]. rewrite Hc, IH by exact Hr. reflexivity.
Qed.

Lemma allChars_collapseFrom P inRun s :
  P " "%char = true ->
  allChars P s = true -> allChars P (collapseFrom inRun s) = true.
Proof.
  intros Hspace. revert inRun.
  induction s as [|c r IH]; intros inRun; cbn [collapseFrom allChars];
    [auto|].
  rewrite andb_true_iff. intros [Hc Hr].
  destruct (isWhiteSpace c); [destruct inRun|]; cbn [allChars];
    rewrite ?Hspace, ?Hc, IH by exact Hr; reflexivity.
Qed.

Lemma collapseFrom_spaces inRun s :
  allChars (fun c => negb (isWhiteSpace c) || Ascii.eqb c " ")
    (collapseFrom inRun s) = true.
Proof.
  revert inRun.
  induction s as [|c r IH]; intros inRun; cbn [collapseFrom allChars];
    [reflexivity|].
  destruct (isWhiteSpace c) eqn:Hws; [destruct inRun|]; cbn [allChars];
    rewrite ?Hws, ?IH; reflexivity.
Qed.

Lemma allChars_stripPunctuation P s :
  allChars P s = true -> allChars P (stripPunctuation s) = true.
Proof.
  induction s as [|c r IH]; cbn [stripPunctuation allChars]; [auto|].
  rewrite andb_true_iff. intros [Hc Hr].
  destruct (isWordChar c || isWhiteSpace c); cbn [allChars];
    rewrite ?Hc, IH by exact Hr; reflexivity.
Qed.

Lemma stripPunctuation_plain s :
  allChars isPlainChar (stripPunctuation s) = true.
Proof.
  induction s as [|c r IH]; cbn [stripPunctuation allChars]; [reflexivity|].
  destruct (isWordChar c || isWhiteSpace c) eqn:Hc; [|exact IH].
  cbn [allChars]. unfold isPlainChar at 1. rewrite Hc, IH. reflexivity.
Qed.

(** What normalization returns only holds characters of [a-z0-9_] and
    spaces. *)
Lemma allChars_normalizeText s :
  allChars isNormalChar (normalizeText s) = true.
Proof.
  unfold normalizeText.
  set (u := collapseWhitespace (trim (toLowerCase s))).
  assert (Hlower : allChars (fun c => negb (isUpperAZ c)) u = true).
  { apply allChars_collapseFrom; [reflexivity|].
    apply allChars_trimEnd, allChars_trimStart, allChars_toLowerCase. }
  assert (Hspaces :
            allChars (fun c => negb (isWhiteSpace c) || Ascii.eqb c " ") u
            = true) by apply collapseFrom_spaces.
  pose proof (allChars_and _ _ _
                (allChars_stripPunctuation _ _ Hlower)
                (allChars_stripPunctuation _ _ Hspaces)) as Hboth.
  pose proof (allChars_and _ _ _ (stripPunctuation_plain u) Hboth) as Hall.
  revert Hall. apply allChars_impl. intros c.
  rewrite !andb_true_iff, negb_true_iff. intros (Hplain & Hup & Hws).
  apply plain_lower_normal; assumption.
Qed.

Lemma trimEnd_cons c r :
  trimEnd (String c r) = String c r ->
  trimEnd r = r
  /\ (isWhiteSpace c = true -> String.eqb r "" = false).
Proof.
  cbn [trimEnd].
  destruct (isWhiteSpace c && String.eqb (trimEnd r) "") eqn:Hcond;
    [discriminate|].
  intros [= Hr]. split; [exact Hr|].
  intros Hws. rewrite Hws, Hr in Hcond. exact Hcond.
Qed.

Lemma trimEnd_idem s : trimEnd (trimEnd s) = trimEnd s.
Proof.
  induction s as [|c r IH]; [reflexivity|]. cbn [trimEnd].
  destruct (isWhiteSpace c && String.eqb (trimEnd r) "") eqn:Hcond;
    [reflexivity|].
  cbn [trimEnd]. rewrite IH, Hcond. reflexivity.
Qed.

Lemma collapseFrom_nonempty r :
  forall inRun,
    trimEnd r = r -> String.eqb r "" = false ->
    String.eqb (collapseFrom inRun r) "" = false.
Proof.
  induction r as [|c r IH]; intros inRun Hend Hne; [discriminate|].
  apply trimEnd_cons in Hend as [Hr Hws]. cbn [collapseFrom].
  destruct (isWhiteSpace c); [|reflexivity].
  destruct inRun; [|reflexivity]. apply IH; auto.
Qed.

Lemma collapseFrom_tidy t :
  forall inRun,
    trimEnd t = t -> tidyFrom inRun (collapseFrom inRun t) = true.
Proof.
  induction t as [|c r IH]; intros inRun Hend; [reflexivity|].
  apply trimEnd_cons in Hend as [Hr Hne]. cbn [collapseFrom].
  destruct (isWhiteSpace c) eqn:Hws.
  - destruct inRun; [apply IH, Hr|].
    cbn [tidyFrom].
    change (isWhiteSpace " ") with true. cbv iota.
    rewrite (collapseFrom_nonempty r true Hr (Hne eq_refl)), IH by exact Hr.
    reflexivity.
  - cbn [tidyFrom]. rewrite Hws. apply IH, Hr.
Qed.

Lemma trimStart_head s :
  trimStart s = ""
  \/ exists c r, trimStart s = String c r /\ isWhiteSpace c = false.
Proof.
  induction s as [|c r IH]; [left; reflexivity|]. cbn [trimStart].
  destruct (isWhiteSpace c) eqn:Hws; [exact IH|]. right. eauto.
Qed.

(** Trimming and then collapsing the whitespace runs leaves a tidy string. *)
Lemma collapse_trim_tidy s : tidy (collapseWhitespace (trim s)) = true.
Proof.
  unfold tidy, collapseWhitespace, trim.
  destruct (trimStart_head s) as [->|(c & r & -> & Hws)]; [reflexivity|].
  cbn [trimEnd]. rewrite Hws. cbn [andb collapseFrom]. rewrite Hws.
  cbn [tidyFrom]. rewrite Hws. apply collapseFrom_tidy, trimEnd_idem.
Qed.

Lemma tidy_collapseFrom s :
  forall noSpaceHere inRun,
    tidyFrom noSpaceHere s = true ->
    (inRun = true -> noSpaceHere = true) ->
    collapseFrom inRun s = s.
Proof.
  induction s as [|c r IH]; intros b inRun Htidy Hrun; [reflexivity|].
  cbn [tidyFrom collapseFrom] in *.
  destruct (isWhiteSpace c).
  - rewrite !andb_true_iff, !negb_true_iff in Htidy.
    destruct Htidy as (((Hc & Hb) & _) & Hr).
    apply Ascii.eqb_eq in Hc. subst c.
    destruct inRun; [rewrite Hrun in Hb by reflexivity; discriminate|].
    rewrite (IH true true Hr) by reflexivity. reflexivity.
  - rewrite (IH false false Htidy) by discriminate. reflexivity.
Qed.

Lemma tidy_trimStart s : tidy s = true -> trimStart s = s.
Proof.
  unfold tidy. destruct s as [|c r]; [reflexivity|].
  cbn [tidyFrom trimStart]. destruct (isWhiteSpace c); [|reflexivity].
  rewrite andb_false_r. discriminate.
Qed.

Lemma tidy_trimEnd s :
  forall noSpaceHere, tidyFrom noSpaceHere s = true -> trimEnd s = s.
Proof.
  induction s as [|c r IH]; intros b Htidy; [reflexivity|].
  cbn [tidyFrom trimEnd] in *. destruct (isWhiteSpace c).
  - rewrite !andb_true_iff, !negb_true_iff in Htidy.
    destruct Htidy as (((_ & _) & Hne) & Hr).
    rewrite (IH true Hr), Hne. reflexivity.
  - rewrite (IH false Htidy). reflexivity.
Qed.

Lemma stripPunctuation_id s :
  allChars isPlainChar s = true -> stripPunctuation s = s.
Proof.
  induction s as [|c r IH]; cbn [allChars stripPunctuation]; [reflexivity|].
  rewrite andb_true_iff. unfold isPlainChar at 1. intros [-> Hr].
  rewrite IH by exact Hr. reflexivity.
Qed.

Lemma toLowerCase_id s :
  allChars isNormalChar s = true -> toLowerCase s = s.
Proof.
  induction s as [|c r IH]; cbn [allChars toLowerCase]; [reflexivity|].
  rewrite andb_true_iff. intros [Hc Hr].
  rewrite toLowerChar_normal, IH by assumption. reflexivity.
Qed.

Lemma normalizeText_plain s :
  allChars isPlainChar s = true ->
  normalizeText s = collapseWhitespace (trim (toLowerCase s)).
Proof.
  intros Hplain. unfold normalizeText. apply stripPunctuation_id.
  apply allChars_collapseFrom; [reflexivity|].
  apply allChars_trimEnd, allChars_trimStart, allChars_toLowerCase_plain.
  exact Hplain.
Qed.

Lemma normalizeText_fixed s :
  allChars isNormalChar s = true -> tidy s = true -> normalizeText s = s.
Proof.
  intros Hnormal Htidy.
  rewrite normalizeText_plain
    by (revert Hnormal; apply allChars_impl, normal_is_plain).
  rewrite toLowerCase_id by exact Hnormal.
  unfold trim. rewrite tidy_trimStart by exact Htidy.
  rewrite (tidy_trimEnd s true Htidy).
  apply (tidy_collapseFrom s true false Htidy). discriminate.
Qed.

Lemma normalizeText_plain_tidy s :
  allChars isPlainChar s = true -> tidy (normalizeText s) = true.
Proof.
  intros Hplain. rewrite normalizeText_plain by exact Hplain.
  apply collapse_trim_tidy.
Qed.

Lemma normalizeText_is_plain s : allChars isPlainChar (normalizeText s) = true.
Proof.
  generalize (allChars_normalizeText s). apply allChars_impl, normal_is_plain.
Qed.

Lemma toLowerCase_length s : String.length (toLowerCase s) = String.length s.
Proof. induction s as [|c r IH]; cbn; congruence. Qed.

Lemma trimStart_length s : (String.length (trimStart s) <= String.length s)%nat.
Proof.
  induction s as [|c r IH]; cbn [trimStart]; [lia|].
  destruct (isWhiteSpace c); cbn [String.length]; lia.
Qed.

Lemma trimEnd_length s : (String.length (trimEnd s) <= String.length s)%nat.
Proof.
  induction s as [|c r IH]; cbn [trimEnd]; [lia|].
  destruct (_ && _); cbn [String.length]; lia.
Qed.

Lemma collapseFrom_length s :
  forall inRun,
    (String.length (collapseFrom inRun s) <= String.length s)%nat.
Proof.
  induction s as [|c r IH]; intros inRun; cbn [collapseFrom]; [lia|].
  pose proof (IH true). pose proof (IH false).
  destruct (isWhiteSpace c); [destruct inRun|]; cbn [String.length]; lia.
Qed.

Lemma stripPunctuation_length s :
  (String.length (stripPunctuation s) <= String.length s)%nat.
Proof.
  induction s as [|c r IH]; cbn [stripPunctuation]; [lia|].
  destruct (_ || _); cbn [String.length]; lia.
Qed.

(** X1: a normalized description holds only the characters [a-z0-9_] and
    the space, and is never longer than the description. *)
Theorem normalizeText_alphabet s :
  allChars isNormalChar (normalizeText s) = true
  /\ (String.length (normalizeText s) <= String.length s)%nat.
Proof.
  split; [apply allChars_normalizeText|].
  unfold normalizeText, collapseWhitespace, trim.
  pose proof (stripPunctuation_length
                (collapseFrom false (trimEnd (trimStart (toLowerCase s))))).
  pose proof (collapseFrom_length (trimEnd (trimStart (toLowerCase s))) false).
  pose proof (trimEnd_length (trimStart (toLowerCase s))).
  pose proof (trimStart_length (toLowerCase s)).
  pose proof (toLowerCase_length s). lia.
Qed.

(** X2: the descriptions that normalization leaves unchanged are the tidy
    strings over [a-z0-9_] and the space: no space at either end and no two
    spaces in a row. *)
Theorem normalizeText_fixed_points s :
  normalizeText s = s
  <-> allChars isNormalChar s = true /\ tidy s = true.
Proof.
  split.
  - intros Hfix.
    assert (Hnormal : allChars isNormalChar s = true)
      by (rewrite <- Hfix; apply allChars_normalizeText).
    split; [exact Hnormal|].
    rewrite <- Hfix. apply normalizeText_plain_tidy.
    revert Hnormal. apply allChars_impl, normal_is_plain.
  - intros [Hnormal Htidy]. apply normalizeText_fixed; assumption.
Qed.

(** X3: on a description without punctuation one pass of normalization is
    enough: the result is tidy and a second pass leaves it unchanged. *)
Theorem normalizeText_idempotent_plain s :
  allChars isPlainChar s = true ->
  tidy (normalizeText s) = true
  /\ normalizeText (normalizeText s) = normalizeText s.
Proof.
  intros Hplain.
  pose proof (normalizeText_plain_tidy s Hplain) as Htidy.
  split; [exact Htidy|].
  apply normalizeText_fixed; [apply allChars_normalizeText|exact Htidy].
Qed.

Lemma normalizeText_idempotent_plain_witness :
  allChars isPlainChar "  Cotton   GAUZE roll_4 " = true
  /\ normalizeText "  Cotton   GAUZE roll_4 " = "cotton gauze roll_4"
  /\ normalizeText (normalizeText "  Cotton   GAUZE roll_4 ")
     = normalizeText "  Cotton   GAUZE roll_4 ".
Proof.
  split; [reflexivity|]. split; [reflexivity|].
  exact (proj2 (normalizeText_idempotent_plain "  Cotton   GAUZE roll_4 "
                  eq_refl)).
Defined.

(** X4: whatever the description, normalization is stable from the second
    pass on. *)
Theorem normalizeText_stable_after_two s :
  normalizeText (normalizeText (normalizeText s))
  = normalizeText (normalizeText s).
Proof.
  apply normalizeText_fixed; [apply allChars_normalizeText|].
  apply normalizeText_plain_tidy, normalizeText_is_plain.
Qed.

(** ** The tokenizer *)

Lemma normal_token_char c :
  isNormalChar c = true -> isWhiteSpace c || isTokenChar c = true.
Proof. each_char c. Qed.

Lemma allChars_app P a b :
  allChars P (a ++ b)%string = allChars P a && allChars P b.
Proof.
  induction a as [|c r IH]; simpl; [reflexivity|].
  rewrite IH, andb_assoc. reflexivity.
Qed.

Lemma splitFrom_chars (Q : ascii -> bool) s :
  forall inRun cur,
    allChars Q cur = true ->
    allChars (fun c => isWhiteSpace c || Q c) s = true ->
    List.Forall (fun t => allChars Q t = true) (splitFrom inRun cur s).
Proof.
  induction s as [|c r IH]; intros inRun cur Hcur Hs; cbn [splitFrom].
  - constructor; [exact Hcur|constructor].
  - cbn [allChars] in Hs. apply andb_true_iff in Hs as [Hc Hr].
    destruct (isWhiteSpace c) eqn:Hws.
    + destruct inRun; [|constructor; [exact Hcur|]];
        apply IH; auto.
    + apply IH; [|exact Hr].
      rewrite allChars_app, Hcur. cbn. rewrite andb_true_r. exact Hc.
Qed.

Lemma normalizeString_normal v n :
  normalizeString v = Ok n -> allChars isNormalChar n = true.
Proof.
  unfold normalizeString. destruct (negb (truthy v)).
  - intros [= <-]. reflexivity.
  - destruct v; try discriminate. intros [= <-].
    apply allChars_normalizeText.
Qed.

(** X5: every token of a description has at least three characters, all of
    them in [a-z0-9_]. *)
Theorem extractTokens_tokens (text : Value) (tokens : gset string) :
  extractTokens text = Ok tokens ->
  forall token, token ∈ tokens ->
    (3 <= String.length token)%nat /\ allChars isTokenChar token = true.
Proof.
  unfold extractTokens.
  destruct (normalizeString text) as [n|e] eqn:Hn; [|discriminate].
  cbn. intros [= <-] token Hin.
  apply elem_of_list_to_set, list_elem_of_In, filter_In in Hin
    as [Hin Hlen].
  split; [apply Nat.leb_le, Hlen|].
  pose proof (splitFrom_chars isTokenChar n false "" eq_refl) as Hall.
  rewrite List.Forall_forall in Hall. apply Hall; [|exact Hin].
  generalize (normalizeString_normal _ _ Hn).
  apply allChars_impl, normal_token_char.
Qed.

Lemma extractTokens_tokens_witness :
  extractTokens (VString "  Gauze, 4x4 STERILE (x-ray) of cotton ")
  = Ok {[ "gauze"; "4x4"; "sterile"; "xray"; "cotton" ]}
  /\ (3 <= String.length "4x4")%nat /\ allChars isTokenChar "4x4" = true.
Proof.
  split; [vm_compute; reflexivity|].
  apply (extractTokens_tokens
           (VString "  Gauze, 4x4 STERILE (x-ray) of cotton ")
           {[ "gauze"; "4x4"; "sterile"; "xray"; "cotton" ]}).
  - vm_compute. reflexivity.
  - rewrite !elem_of_union, !elem_of_singleton. auto.
Defined.

Section SplitFacts.
Variable P : string -> bool.
Hypothesis P_empty : P "" = false.

Lemma splitFrom_collapseFrom s :
  forall inRun inRun' cur,
    (inRun' = true -> inRun = true) ->
    (inRun = true -> cur = "") ->
    splitFrom inRun cur (collapseFrom inRun' s) = splitFrom inRun cur s.
Proof using Type.
  induction s as [|c r IH]; intros b b' cur Hb Hcur; [reflexivity|].
  cbn [collapseFrom]. destruct (isWhiteSpace c) eqn:Hws.
  - destruct b'.
    + rewrite Hb in * by reflexivity. rewrite Hcur by reflexivity.
      cbn [splitFrom]. rewrite Hws. apply IH; auto.
    + cbn [splitFrom]. change (isWhiteSpace " ") with true. cbv iota.
      rewrite Hws. rewrite (IH true true "") by auto. reflexivity.
  - cbn [splitFrom]. rewrite Hws. apply IH; discriminate.
Qed.

Lemma splitFrom_start s :
  List.filter P (splitFrom false "" s) = List.filter P (splitFrom true "" s).
Proof using P_empty.
  destruct s as [|c r]; [reflexivity|]. cbn [splitFrom].
  destruct (isWhiteSpace c); [|reflexivity].
  cbn [List.filter]. rewrite P_empty. reflexivity.
Qed.

Lemma splitFrom_trimStart s :
  List.filter P (splitFrom true "" (trimStart s))
  = List.filter P (splitFrom true "" s).
Proof using Type.
  induction s as [|c r IH]; [reflexivity|]. cbn [trimStart].
  destruct (isWhiteSpace c) eqn:Hws; [|reflexivity].
  cbn [splitFrom]. rewrite Hws. exact IH.
Qed.

Lemma splitFrom_blank r :
  trimEnd r = "" -> List.filter P (splitFrom true "" r) = [].
Proof using P_empty.
  induction r as [|c r IH]; cbn [trimEnd splitFrom].
  - intros _. cbn. rewrite P_empty. reflexivity.
  - destruct (isWhiteSpace c); cbn [andb]; [|discriminate].
    destruct (String.eqb_spec (trimEnd r) ""); [|discriminate].
    intros _. apply IH. assumption.
Qed.

Lemma splitFrom_trimEnd s :
  forall inRun cur,
    (inRun = true -> cur = "") ->
    List.filter P (splitFrom inRun cur (trimEnd s))
    = List.filter P (splitFrom inRun cur s).
Proof using P_empty.
  induction s as [|c r IH]; intros b cur Hcur; [reflexivity|].
  cbn [trimEnd splitFrom].
  destruct (isWhiteSpace c) eqn:Hws; cbn [andb].
  - destruct (String.eqb_spec (trimEnd r) "") as [Hblank|Hrest].
    + cbn [splitFrom]. destruct b.
      * rewrite Hcur by reflexivity. rewrite splitFrom_blank by exact Hblank.
        cbn. rewrite P_empty. reflexivity.
      * cbn [List.filter]. rewrite splitFrom_blank by exact Hblank.
        reflexivity.
    + cbn [splitFrom]. rewrite Hws.
      destruct b; cbn [List.filter]; rewrite (IH true "") by auto;
        reflexivity.
  - cbn [splitFrom]. rewrite Hws. apply IH. discriminate.
Qed.

Lemma splitWhitespace_collapse_trim s :
  List.filter P (splitWhitespace (collapseWhitespace (trim s)))
  = List.filter P (splitWhitespace s).
Proof using P_empty.
  unfold splitWhitespace, collapseWhitespace, trim.
  rewrite splitFrom_collapseFrom by discriminate.
  rewrite splitFrom_trimEnd by discriminate.
  rewrite !splitFrom_start. apply splitFrom_trimStart.
Qed.
End SplitFacts.

(** X6: the tokens of a description are those of its normalized form; the
    spaces that a first pass of normalization can leave behind make no
    token. *)
Theorem extractTokens_normalized (s : string) :
  extractTokens (VString (normalizeText s)) = extractTokens (VString s).
Proof.
  unfold extractTokens. rewrite !normalizeString_text. cbn.
  do 2 f_equal.
  rewrite (normalizeText_plain (normalizeText s))
    by apply normalizeText_is_plain.
  rewrite toLowerCase_id by apply allChars_normalizeText.
  apply splitWhitespace_collapse_trim. reflexivity.
Qed.

(** ** The token overlap *)

Lemma NoDup_List_filter {A} (f : A -> bool) (l : list A) :
  NoDup l -> NoDup (List.filter f l).
Proof.
  induction 1 as [|x l Hx Hl IH]; cbn [List.filter]; [constructor|].
  destruct (f x); [|exact IH]. constructor; [|exact IH].
  rewrite list_elem_of_In, filter_In, <- list_elem_of_In. tauto.
Qed.

Lemma overlap_count (tokens1 tokens2 : gset string) :
  length (List.filter (fun token => bool_decide (token ∈ tokens2))
            (elements tokens1))
  = size (tokens1 ∩ tokens2).
Proof.
  unfold size, set_size. cbn. apply Permutation_length.
  apply NoDup_Permutation.
  - apply NoDup_List_filter, NoDup_elements.
  - apply NoDup_elements.
  - intros x. rewrite elem_of_elements, elem_of_intersection.
    rewrite list_elem_of_In, filter_In, <- list_elem_of_In.
    rewrite elem_of_elements, bool_decide_eq_true. reflexivity.
Qed.

Ltac by_elements :=
  try apply set_eq; try apply elem_of_disjoint; intros ?;
  rewrite ?elem_of_intersection, ?elem_of_union, ?elem_of_difference; tauto.

Lemma size_union_intersection (X Y : gset string) :
  (size X + size Y = size (X ∪ Y) + size (X ∩ Y))%nat.
Proof.
  rewrite size_union_alt.
  assert (HY : Y = (X ∩ Y) ∪ (Y ∖ X)).
  { apply set_eq. intros x.
    rewrite elem_of_union, elem_of_intersection, elem_of_difference.
    destruct (decide (x ∈ X)); tauto. }
  rewrite HY at 1. rewrite size_union by by_elements. lia.
Qed.

Lemma size_intersection_le (X Y : gset string) :
  (size (X ∩ Y) <= size X /\ size (X ∩ Y) <= size Y
   /\ size (X ∩ Y) <= size (X ∪ Y) /\ size X <= size (X ∪ Y))%nat.
Proof. repeat split; apply subseteq_size; by_elements. Qed.

(** The two cases of [calculateTokenOverlap]. *)
Lemma calculateTokenOverlap_cases (tokens1 tokens2 : gset string) :
  ((size tokens1 = 0 \/ size tokens2 = 0)%nat
   /\ calculateTokenOverlap tokens1 tokens2 = 0%Q)
  \/ ((0 < size tokens1)%nat /\ (0 < size tokens2)%nat
      /\ (0 < size (tokens1 ∪ tokens2))%nat
      /\ calculateTokenOverlap tokens1 tokens2
         = (Qnat (size (tokens1 ∩ tokens2))
            / Qnat (size (tokens1 ∪ tokens2)))%Q).
Proof.
  unfold calculateTokenOverlap.
  pose proof (size_union_intersection tokens1 tokens2) as Hsum.
  pose proof (size_intersection_le tokens1 tokens2) as (_ & _ & _ & Hle).
  destruct (Nat.eqb_spec (size tokens1) 0) as [H1|H1]; [left; auto|].
  destruct (Nat.eqb_spec (size tokens2) 0) as [H2|H2]; [left; auto|].
  right. cbn [orb]. rewrite overlap_count.
  replace (Z.of_nat (size tokens1) + Z.of_nat (size tokens2)
           - Z.of_nat (size (tokens1 ∩ tokens2)))
    with (Z.of_nat (size (tokens1 ∪ tokens2))) by lia.
  destruct (Z.ltb_spec 0 (Z.of_nat (size (tokens1 ∪ tokens2)))); [|lia].
  repeat split; try lia.
Qed.

(** X7: the token overlap is the Jaccard index of the two token sets, the
    size of the intersection over the size of the union, 0 when one of the
    sets is empty, and it does not depend on the order of the arguments. *)
Theorem calculateTokenOverlap_jaccard (tokens1 tokens2 : gset string) :
  calculateTokenOverlap tokens1 tokens2
  = (if (size tokens1 =? 0)%nat || (size tokens2 =? 0)%nat then 0
     else Qnat (size (tokens1 ∩ tokens2)) / Qnat (size (tokens1 ∪ tokens2)))%Q
  /\ calculateTokenOverlap tokens1 tokens2
     = calculateTokenOverlap tokens2 tokens1.
Proof.
  split.
  - destruct (calculateTokenOverlap_cases tokens1 tokens2)
      as [[Hempty ->]|(H1 & H2 & _ & ->)].
    + destruct Hempty as [-> | ->]; [reflexivity|].
      rewrite orb_true_r. reflexivity.
    + destruct (Nat.eqb_spec (size tokens1) 0); [lia|].
      destruct (Nat.eqb_spec (size tokens2) 0); [lia|]. reflexivity.
  - destruct (calculateTokenOverlap_cases tokens1 tokens2)
      as [[Hempty ->]|(H1 & H2 & _ & ->)];
      destruct (calculateTokenOverlap_cases tokens2 tokens1)
        as [[Hempty' ->]|(H1' & H2' & _ & ->)]; try reflexivity; try lia.
    rewrite (comm_L (∩) tokens1 tokens2), (comm_L (∪) tokens1 tokens2).
    reflexivity.
Qed.

Lemma Qnat_div_le_1 a b : (a <= b)%nat -> (Qnat a / Qnat b <= 1)%Q.
Proof.
  intros Hab. unfold Qnat.
  destruct (Nat.eq_dec b 0%nat) as [->|Hb].
  - cbn. unfold Qdiv, Qinv. cbn. rewrite Qmult_0_r. discriminate.
  - apply Qle_shift_div_r.
    + change 0%Q with (inject_Z 0). rewrite <- Zlt_Qlt. lia.
    + rewrite Qmult_1_l, <- Zle_Qle. lia.
Qed.

Lemma Qnat_div_nonneg a b : (0 <= Qnat a / Qnat b)%Q.
Proof.
  unfold Qnat. destruct (Nat.eq_dec b 0%nat) as [->|Hb].
  - cbn. unfold Qdiv, Qinv. cbn. rewrite Qmult_0_r. discriminate.
  - apply Qle_shift_div_l.
    + change 0%Q with (inject_Z 0). rewrite <- Zlt_Qlt. lia.
    + rewrite Qmult_0_l. change 0%Q with (inject_Z 0).
      rewrite <- Zle_Qle. lia.
Qed.

(** [k * a] against [j * b] for a quotient of counts. *)
Lemma Qnat_div_le (k j : positive) a b :
  (0 < b)%nat ->
  ((Zpos k # j) <= Qnat a / Qnat b)%Q
  <-> (Zpos k * Z.of_nat b <= Zpos j * Z.of_nat a).
Proof.
  intros Hb. unfold Qnat.
  assert (Hpos : (0 < inject_Z (Z.of_nat b))%Q)
    by (change 0%Q with (inject_Z 0); rewrite <- Zlt_Qlt; lia).
  split.
  - intros H.
    apply (Qmult_le_compat_r _ _ (inject_Z (Z.of_nat b))) in H;
      [|apply Qlt_le_weak, Hpos].
    unfold Qdiv in H. rewrite <- Qmult_assoc in H.
    rewrite (Qmult_comm (/ _)), Qmult_inv_r, Qmult_1_r in H
      by (intros Hz; rewrite Hz in Hpos; discriminate).
    unfold Qle, Qmult, inject_Z in H. cbn in H. lia.
  - intros H. apply Qle_shift_div_l; [exact Hpos|].
    unfold Qle, Qmult, inject_Z. cbn. lia.
Qed.

(** X8: the token overlap lies between 0 and 1; it is 1 exactly when the
    two sets are equal and not empty, and 0 exactly when they share no
    token. *)
Theorem calculateTokenOverlap_range (tokens1 tokens2 : gset string) :
  (0 <= calculateTokenOverlap tokens1 tokens2 <= 1)%Q
  /\ ((calculateTokenOverlap tokens1 tokens2 == 1)%Q
      <-> tokens1 = tokens2 /\ tokens1 <> ∅)
  /\ ((calculateTokenOverlap tokens1 tokens2 == 0)%Q
      <-> tokens1 ∩ tokens2 = ∅).
Proof.
  pose proof (size_intersection_le tokens1 tokens2) as (Hi1 & Hi2 & Hiu & _).
  destruct (calculateTokenOverlap_cases tokens1 tokens2)
    as [[Hempty ->]|(H1 & H2 & Hu & ->)].
  - split; [split; discriminate|]. split.
    + split; [discriminate|]. intros [-> Hne]. exfalso. apply Hne.
      destruct Hempty as [H|H]; apply size_empty_inv in H;
        apply leibniz_equiv, H.
    + split; [|reflexivity]. intros _.
      apply leibniz_equiv, size_empty_inv. lia.
  - split; [split; [apply Qnat_div_nonneg|apply Qnat_div_le_1, Hiu]|].
    assert (Hpos : (0 < Qnat (size (tokens1 ∪ tokens2)))%Q)
      by (unfold Qnat; change 0%Q with (inject_Z 0);
          rewrite <- Zlt_Qlt; lia).
    assert (Hnz : ~ (Qnat (size (tokens1 ∪ tokens2)) == 0)%Q)
      by (intros Hz; rewrite Hz in Hpos; discriminate).
    split.
    + split.
      * intros Hone.
        assert (Hsize : size (tokens1 ∩ tokens2) = size (tokens1 ∪ tokens2)).
        { assert (Heq : (Qnat (size (tokens1 ∩ tokens2))
                         == Qnat (size (tokens1 ∪ tokens2)))%Q).
          { rewrite <- (Qmult_1_l (Qnat (size (tokens1 ∪ tokens2)))).
            rewrite <- Hone. unfold Qdiv.
            rewrite <- Qmult_assoc, (Qmult_comm (/ _)), Qmult_inv_r,
              Qmult_1_r by exact Hnz. reflexivity. }
          unfold Qnat in Heq. rewrite inject_Z_injective in Heq. lia. }
        assert (Hsets : tokens1 ∩ tokens2 = tokens1 ∪ tokens2)
          by (apply set_subseteq_size_eq; [by_elements|lia]).
        split; [|intros ->; rewrite size_empty in H1; lia].
        apply set_eq. intros x.
        assert (Hx : x ∈ tokens1 ∩ tokens2 <-> x ∈ tokens1 ∪ tokens2)
          by (rewrite Hsets; reflexivity).
        rewrite elem_of_intersection, elem_of_union in Hx. tauto.
      * intros [<- _].
        replace (tokens1 ∩ tokens1) with tokens1 by by_elements.
        replace (tokens1 ∪ tokens1) with tokens1 by by_elements.
        apply Qmult_inv_r.
        replace (tokens1 ∪ tokens1) with tokens1 in Hnz by by_elements.
        exact Hnz.
    + split.
      * intros Hzero.
        assert (Heq : (Qnat (size (tokens1 ∩ tokens2)) == 0)%Q).
        { rewrite <- (Qmult_0_l (Qnat (size (tokens1 ∪ tokens2)))).
          rewrite <- Hzero. unfold Qdiv.
          rewrite <- Qmult_assoc, (Qmult_comm (/ _)), Qmult_inv_r,
            Qmult_1_r by exact Hnz. reflexivity. }
        unfold Qnat in Heq. change 0%Q with (inject_Z 0) in Heq.
        rewrite inject_Z_injective in Heq.
        apply leibniz_equiv, size_empty_inv. lia.
      * intros ->. rewrite size_empty. unfold Qdiv. cbn.
        apply Qmult_0_l.
Qed.

Lemma Qnat_div_ge (k j : positive) a b :
  (0 < b)%nat ->
  (Qnat a / Qnat b <= (Zpos k # j))%Q
  <-> (Zpos j * Z.of_nat a <= Zpos k * Z.of_nat b).
Proof.
  intros Hb. unfold Qnat.
  assert (Hpos : (0 < inject_Z (Z.of_nat b))%Q)
    by (change 0%Q with (inject_Z 0); rewrite <- Zlt_Qlt; lia).
  split.
  - intros H.
    apply (Qmult_le_compat_r _ _ (inject_Z (Z.of_nat b))) in H;
      [|apply Qlt_le_weak, Hpos].
    unfold Qdiv in H. rewrite <- Qmult_assoc in H.
    rewrite (Qmult_comm (/ _)), Qmult_inv_r, Qmult_1_r in H
      by (intros Hz; rewrite Hz in Hpos; discriminate).
    unfold Qle, Qmult, inject_Z in H. cbn in H. lia.
  - intros H. apply Qle_shift_div_r; [exact Hpos|].
    unfold Qle, Qmult, inject_Z. cbn. lia.
Qed.

(** ** The candidate filter *)

Lemma isCandidate_tests itemData genData :
  isCandidate itemData genData
  = lengthsClose (String.length (normalizedDesc itemData))
      (String.length (normalizedDesc genData))
    && tokensShared (tokens itemData) (tokens genData).
Proof.
  unfold isCandidate, lengthsClose, tokensShared.
  set (la := String.length (normalizedDesc itemData)).
  set (lb := String.length (normalizedDesc genData)).
  set (T1 := tokens itemData). set (T2 := tokens genData).
  assert (Hsecond :
            negb (Qle_bool (calculateTokenOverlap T1 T2) (15 # 100))
            = (15 * size (T1 ∪ T2) <? 100 * size (T1 ∩ T2))%nat).
  { pose proof (size_intersection_le T1 T2) as (Hi1 & Hi2 & _ & _).
    destruct (calculateTokenOverlap_cases T1 T2)
      as [[Hempty ->]|(H1 & H2 & Hu & ->)].
    - cbn. symmetry. apply Nat.ltb_ge. lia.
    - destruct (Nat.ltb_spec (15 * size (T1 ∪ T2)) (100 * size (T1 ∩ T2)))
        as [Hlt|Hge].
      + apply negb_true_iff, not_true_is_false. rewrite Qle_bool_iff.
        rewrite (Qnat_div_ge 15 100) by exact Hu. lia.
      + apply negb_false_iff. rewrite Qle_bool_iff.
        rewrite (Qnat_div_ge 15 100) by exact Hu. lia. }
  unfold num_div.
  destruct (Qzero (Qnat (Nat.max la lb))) eqn:Hmax.
  - apply Qnat_zero in Hmax.
    assert (Hmin : Nat.min la lb = 0%nat) by lia.
    rewrite Hmin, Hmax. cbn -[calculateTokenOverlap size].
    exact Hsecond.
  - assert (Hpos : (0 < Nat.max la lb)%nat).
    { destruct (Nat.eq_dec (Nat.max la lb) 0%nat) as [Hz|Hz]; [|lia].
      apply Qnat_zero in Hz. congruence. }
    cbn [num_ltb].
    destruct (Nat.leb_spec (3 * Nat.max la lb) (10 * Nat.min la lb))
      as [Hle|Hgt].
    + assert (Hq : Qle_bool (3 # 10)
                     (Qnat (Nat.min la lb) / Qnat (Nat.max la lb)) = true).
      { rewrite Qle_bool_iff, (Qnat_div_le 3 10) by exact Hpos. lia. }
      rewrite Hq. cbn [negb andb]. exact Hsecond.
    + assert (Hq : Qle_bool (3 # 10)
                     (Qnat (Nat.min la lb) / Qnat (Nat.max la lb)) = false).
      { apply not_true_is_false. rewrite Qle_bool_iff.
        rewrite (Qnat_div_le 3 10) by exact Hpos. lia. }
      rewrite Hq. reflexivity.
Qed.

(** X9: a right entry is a candidate for a left entry exactly when the
    shorter normalized description has at least three tenths of the length
    of the longer one and the shared tokens are more than 15 in 100 of all
    the tokens of the two entries. *)
Theorem isCandidate_characterized (itemData genData : NormalizedEntry) :
  let la := String.length (normalizedDesc itemData) in
  let lb := String.length (normalizedDesc genData) in
  let shared := size (tokens itemData ∩ tokens genData) in
  let either := size (tokens itemData ∪ tokens genData) in
  isCandidate itemData genData = true
  <-> (3 * Nat.max la lb <= 10 * Nat.min la lb)%nat
      /\ (15 * either < 100 * shared)%nat.
Proof.
  cbv zeta. rewrite isCandidate_tests, andb_true_iff.
  unfold lengthsClose, tokensShared.
  rewrite Nat.leb_le, Nat.ltb_lt. reflexivity.
Qed.

Lemma tokensShared_comm (X Y : gset string) :
  tokensShared X Y = tokensShared Y X.
Proof.
  unfold tokensShared.
  assert (Hi : Y ∩ X = X ∩ Y) by by_elements.
  assert (Hu : Y ∪ X = X ∪ Y) by by_elements.
  rewrite Hi, Hu. reflexivity.
Qed.

Lemma tokensShared_self (X : gset string) :
  tokensShared X X = true <-> X <> ∅.
Proof.
  unfold tokensShared.
  assert (Hi : X ∩ X = X) by by_elements.
  assert (Hu : X ∪ X = X) by by_elements.
  rewrite Hi, Hu, Nat.ltb_lt. split.
  - intros Hlt ->. rewrite size_empty in Hlt. lia.
  - intros Hne. assert (size X <> 0%nat); [|lia].
    intros Hz. apply Hne, leibniz_equiv, size_empty_inv, Hz.
Qed.

(** X10: the candidate filter does not depend on which side an entry is
    on, and an entry is a candidate for itself exactly when it has a
    token. *)
Theorem isCandidate_symmetric (itemData genData : NormalizedEntry) :
  isCandidate itemData genData = isCandidate genData itemData
  /\ (isCandidate itemData itemData = true <-> tokens itemData <> ∅).
Proof.
  rewrite !isCandidate_tests. split.
  - rewrite tokensShared_comm. unfold lengthsClose.
    rewrite Nat.max_comm, Nat.min_comm. reflexivity.
  - rewrite andb_true_iff, tokensShared_self. unfold lengthsClose.
    rewrite Nat.max_id, Nat.min_id, Nat.leb_le. split; [tauto|].
    intros Hne. split; [lia|exact Hne].
Qed.

(** ** What the ranker keeps *)

Lemma insertDesc_Permutation m l : insertDesc m l ≡ₚ m :: l.
Proof.
  induction l as [|x rest IH]; cbn [insertDesc]; [reflexivity|].
  destruct (Qle_bool _ _); [reflexivity|].
  rewrite IH. apply Permutation_swap.
Qed.

Lemma sortDesc_Permutation l : sortDesc l ≡ₚ l.
Proof.
  induction l as [|m rest IH]; cbn [sortDesc]; [reflexivity|].
  rewrite insertDesc_Permutation, IH. reflexivity.
Qed.

Lemma scoreGe_trans a b c : scoreGe a b -> scoreGe b c -> scoreGe a c.
Proof. unfold scoreGe. intros Hab Hbc. eapply Qle_trans; eassumption. Qed.

Lemma descending_split l1 :
  forall l2, descending (l1 ++ l2) ->
  forall a b, In a l1 -> In b l2 -> scoreGe a b.
Proof.
  intros l2 Hsorted.
  apply Sorted_StronglySorted in Hsorted;
    [|intros x y z; apply scoreGe_trans].
  induction l1 as [|x l1 IH]; intros a b Ha Hb; [destruct Ha|].
  cbn in Hsorted. apply StronglySorted_inv in Hsorted as [Hrest Hall].
  destruct Ha as [<-|Ha]; [|apply IH; assumption].
  rewrite List.Forall_forall in Hall. apply Hall, in_or_app. right. exact Hb.
Qed.

Lemma insertDesc_scoring p m l :
  scoring p (insertDesc m l) = scoring p (m :: l).
Proof.
  unfold scoring.
  induction l as [|x rest IH]; cbn [insertDesc]; [reflexivity|].
  destruct (Qle_bool (matchPercentage x) (matchPercentage m)) eqn:Hle;
    [reflexivity|].
  cbn [List.filter] in *. rewrite IH.
  destruct (Qeq_bool (matchPercentage m) p) eqn:Hm; [|reflexivity].
  destruct (Qeq_bool (matchPercentage x) p) eqn:Hx; [|reflexivity].
  apply Qeq_bool_iff in Hm, Hx.
  assert (Hfalse : Qle_bool (matchPercentage x) (matchPercentage m) = true)
    by (apply Qle_bool_iff; rewrite Hm, Hx; apply Qle_refl).
  congruence.
Qed.

Lemma sortDesc_length l : length (sortDesc l) = length l.
Proof. apply Permutation_length, sortDesc_Permutation. Qed.

(** X11: the ranker returns the best results: what it returns and what it
    drops make up the collected results, nothing that is dropped has a
    higher percentage than a result that is kept, and [maxResults] results
    are kept if there are as many (for a negative [maxResults], all but the
    last [-maxResults]). *)
Theorem rank_keeps_best (matches : list MatchResult) (maxResults : Z) :
  exists dropped,
    rank matches maxResults ++ dropped ≡ₚ matches
    /\ (forall kept m,
          In kept (rank matches maxResults) -> In m dropped ->
          (matchPercentage m <= matchPercentage kept)%Q)
    /\ length (rank matches maxResults)
       = keptCount (length matches) maxResults.
Proof.
  unfold rank, slice0, keptCount. rewrite sortDesc_length.
  set (k := Z.to_nat _).
  exists (skipn k (sortDesc matches)). split; [|split].
  - rewrite firstn_skipn. apply sortDesc_Permutation.
  - intros kept m Hkept Hm.
    apply (descending_split (firstn k (sortDesc matches))
             (skipn k (sortDesc matches))); [|assumption..].
    rewrite firstn_skipn. apply sortDesc_sorted.
  - rewrite length_firstn, sortDesc_length. subst k.
    destruct (Z.ltb_spec maxResults 0); lia.
Qed.

(** X12: the sort of the ranker is stable: results with the same percentage
    come out in the order in which they were collected. *)
Theorem sortDesc_stable (matches : list MatchResult) (p : Q) :
  scoring p (sortDesc matches) = scoring p matches.
Proof.
  induction matches as [|m rest IH]; [reflexivity|].
  cbn [sortDesc]. rewrite insertDesc_scoring.
  unfold scoring in *. cbn [List.filter]. rewrite IH. reflexivity.
Qed.

(** ** What the synchronous sweep collects *)

Section SweepSound.
Variable minThreshold : Q.

Lemma sweepGen_sound itemRow itemDesc genConsumableData :
  forall acc out,
    sweepGen minThreshold itemRow itemDesc genConsumableData acc = Ok out ->
    forall m, In m out ->
      In m acc
      \/ exists genRow p,
           In genRow genConsumableData
           /\ truthy (descriptionOf "LONG DESCRIPTION" genRow) = true
           /\ calculateSimilarity itemDesc
                (descriptionOf "LONG DESCRIPTION" genRow) = Ok p
           /\ (minThreshold <= p)%Q
           /\ m = mkMatch itemRow genRow p itemDesc
                    (descriptionOf "LONG DESCRIPTION" genRow).
Proof.
  unfold descriptionOf.
  induction genConsumableData as [|genRow rest IH]; intros acc out;
    cbn [sweepGen].
  - intros [= <-]. auto.
  - destruct (truthy (orElse (get genRow "LONG DESCRIPTION") (VString "")))
      eqn:Htruthy; cbn [negb].
    + destruct (calculateSimilarity _ _) as [p|] eqn:Hsim;
        cbn [mbind result_bind]; [|discriminate].
      destruct (Qle_bool minThreshold p) eqn:Hmin.
      * intros Hout m Hin.
        destruct (IH _ _ Hout m Hin) as [Hacc|(g & q & Hg & H)].
        -- apply in_app_or in Hacc as [Hacc|[<-|[]]]; [auto|].
           right. exists genRow, p. apply Qle_bool_iff in Hmin.
           repeat split; auto. left. reflexivity.
        -- right. exists g, q. split; [right; exact Hg|exact H].
      * intros Hout m Hin.
        destruct (IH _ _ Hout m Hin) as [Hacc|(g & q & Hg & H)]; [auto|].
        right. exists g, q. split; [right; exact Hg|exact H].
    + intros Hout m Hin.
      destruct (IH _ _ Hout m Hin) as [Hacc|(g & q & Hg & H)]; [auto|].
      right. exists g, q. split; [right; exact Hg|exact H].
Qed.

Lemma sweepItems_sound itemMasterData genConsumableData :
  forall acc out,
    sweepItems minThreshold itemMasterData genConsumableData acc = Ok out ->
    forall m, In m out ->
      In m acc
      \/ scoredPair itemMasterData genConsumableData minThreshold m.
Proof.
  induction itemMasterData as [|itemRow rest IH]; intros acc out;
    cbn [sweepItems].
  - intros [= <-]. auto.
  - assert (Hweaken : forall m,
               scoredPair rest genConsumableData minThreshold m ->
               scoredPair (itemRow :: rest) genConsumableData minThreshold m).
    { intros m (H1 & H). split; [right; exact H1|exact H]. }
    destruct (truthy (orElse (get itemRow "Description") (VString "")))
      eqn:Htruthy; cbn [negb].
    + destruct (sweepGen _ _ _ _ _) as [acc'|] eqn:Hgen;
        cbn [mbind result_bind]; [|discriminate].
      intros Hout m Hin.
      destruct (IH _ _ Hout m Hin) as [Hacc|Hpair]; [|auto].
      destruct (sweepGen_sound _ _ _ _ _ Hgen m Hacc)
        as [Hacc'|(g & p & Hg & Htg & Hsim & Hmin & ->)]; [auto|].
      right. unfold scoredPair, descriptionOf. cbn.
      repeat split; auto.
    + intros Hout m Hin.
      destruct (IH _ _ Hout m Hin) as [Hacc|Hpair]; auto.
Qed.
End SweepSound.

(** X13: the synchronous sweep collects exactly the pairs of a left and a
    right row that both have a description and whose similarity reaches the
    threshold, each with its similarity. *)
Theorem collectSync_exact
    (itemMasterData genConsumableData : list Row) (minThreshold : Q)
    (collected : list MatchResult) :
  collectSync itemMasterData genConsumableData minThreshold = Ok collected ->
  forall m,
    In m collected
    <-> scoredPair itemMasterData genConsumableData minThreshold m.
Proof.
  unfold collectSync. intros Hsweep m. split.
  - intros Hin.
    destruct (sweepItems_sound _ _ _ _ _ Hsweep m Hin) as [[]|H]. exact H.
  - intros (Hi & Hg & Hdi & Hdg & Hti & Htg & Hsim & Hmin).
    destruct m as [itemRow genRow p di dg]. cbn in *. subst di dg.
    eapply sweepItems_complete; try eassumption.
    apply Qle_bool_iff, Hmin.
Qed.

Lemma collectSync_exact_witness :
  exists collected,
    collectSync [leftRow "abc def"; leftRow ""; leftRow "abc xyz"]
      [rightRow "abc def"; rightRow "abc defg"] 60 = Ok collected
    /\ List.map matchPercentage collected = [10000 # 100; 9231 # 100]%Q
    /\ forall m,
         In m collected
         <-> scoredPair [leftRow "abc def"; leftRow ""; leftRow "abc xyz"]
               [rightRow "abc def"; rightRow "abc defg"] 60 m.
Proof.
  eexists. split; [vm_compute; reflexivity|].
  split; [reflexivity|].
  apply collectSync_exact. vm_compute. reflexivity.
Defined.

(** ** Raising the threshold *)

Lemma atLeast_app t l1 l2 : atLeast t (l1 ++ l2) = atLeast t l1 ++ atLeast t l2.
Proof. apply List.filter_app. Qed.

Section Threshold.
Variables low high : Q.
Hypothesis low_high : (low <= high)%Q.

Lemma sweepGen_threshold itemRow itemDesc genConsumableData :
  forall acc out,
    sweepGen low itemRow itemDesc genConsumableData acc = Ok out ->
    sweepGen high itemRow itemDesc genConsumableData (atLeast high acc)
    = Ok (atLeast high out).
Proof using low_high.
  induction genConsumableData as [|genRow rest IH]; intros acc out;
    cbn [sweepGen].
  - intros [= <-]. reflexivity.
  - destruct (negb (truthy _)); [apply IH|].
    destruct (calculateSimilarity _ _) as [p|]; cbn [mbind result_bind];
      [|discriminate].
    destruct (Qle_bool low p) eqn:Hlow.
    + intros Hout. apply IH in Hout. rewrite atLeast_app in Hout.
      cbn in Hout. destruct (Qle_bool high p); [exact Hout|].
      rewrite app_nil_r in Hout. exact Hout.
    + assert (Hhigh : Qle_bool high p = false).
      { apply not_true_is_false. intros Hhigh.
        apply Qle_bool_iff in Hhigh.
        assert (Qle_bool low p = true); [|congruence].
        apply Qle_bool_iff. eapply Qle_trans; eassumption. }
      rewrite Hhigh. apply IH.
Qed.

Lemma sweepItems_threshold itemMasterData genConsumableData :
  forall acc out,
    sweepItems low itemMasterData genConsumableData acc = Ok out ->
    sweepItems high itemMasterData genConsumableData (atLeast high acc)
    = Ok (atLeast high out).
Proof using low_high.
  induction itemMasterData as [|itemRow rest IH]; intros acc out;
    cbn [sweepItems].
  - intros [= <-]. reflexivity.
  - destruct (negb (truthy _)); [apply IH|].
    destruct (sweepGen low _ _ _ _) as [acc'|] eqn:Hgen;
      cbn [mbind result_bind]; [|discriminate].
    rewrite (sweepGen_threshold _ _ _ _ _ Hgen). cbn [mbind result_bind].
    apply IH.
Qed.
End Threshold.

Lemma insertDesc_head m l :
  List.Forall (fun x => scoreGe m x) l -> insertDesc m l = m :: l.
Proof.
  destruct l as [|x rest]; [reflexivity|]. intros Hall.
  apply List.Forall_inv in Hall. cbn [insertDesc].
  apply Qle_bool_iff in Hall. rewrite Hall. reflexivity.
Qed.

Lemma StronglySorted_filter {A} (R : A -> A -> Prop) (P : A -> bool) l :
  StronglySorted R l -> StronglySorted R (List.filter P l).
Proof.
  induction 1 as [|x l Hl IH Hall]; cbn [List.filter]; [constructor|].
  destruct (P x); [|exact IH]. constructor; [exact IH|].
  rewrite List.Forall_forall in *. intros y Hy.
  apply filter_In in Hy as [Hy _]. auto.
Qed.

Lemma insertDesc_filter (P : MatchResult -> bool) m l :
  StronglySorted scoreGe l ->
  List.filter P (insertDesc m l)
  = if P m then insertDesc m (List.filter P l) else List.filter P l.
Proof.
  induction 1 as [|x rest Hrest IH Hall]; cbn [insertDesc List.filter].
  - destruct (P m); reflexivity.
  - destruct (Qle_bool (matchPercentage x) (matchPercentage m)) eqn:Hle.
    + cbn [List.filter]. destruct (P m); [|reflexivity].
      apply Qle_bool_iff in Hle.
      rewrite insertDesc_head; [reflexivity|].
      assert (Hbelow : List.Forall (fun y => scoreGe m y) (x :: rest)).
      { constructor; [exact Hle|].
        rewrite List.Forall_forall in *. intros y Hy.
        eapply scoreGe_trans; [exact Hle|]. apply Hall, Hy. }
      change (List.Forall (fun y => scoreGe m y)
                (List.filter P (x :: rest))).
      rewrite List.Forall_forall in *. intros y Hy.
      apply filter_In in Hy as [Hy _]. auto.
    + cbn [List.filter]. rewrite IH.
      destruct (P x), (P m); cbn [insertDesc]; try rewrite Hle; reflexivity.
Qed.

Lemma sortDesc_StronglySorted l : StronglySorted scoreGe (sortDesc l).
Proof.
  apply Sorted_StronglySorted; [|apply sortDesc_sorted].
  intros x y z. apply scoreGe_trans.
Qed.

Lemma sortDesc_filter (P : MatchResult -> bool) l :
  List.filter P (sortDesc l) = sortDesc (List.filter P l).
Proof.
  induction l as [|m rest IH]; [reflexivity|]. cbn [sortDesc List.filter].
  rewrite insertDesc_filter by apply sortDesc_StronglySorted.
  rewrite IH. destruct (P m); reflexivity.
Qed.

Lemma atLeast_none t x l :
  Qle_bool t (matchPercentage x) = false ->
  List.Forall (fun y => scoreGe x y) l -> atLeast t l = [].
Proof.
  intros Hx Hall. unfold atLeast.
  induction Hall as [|y l Hy Hl IH]; [reflexivity|]. cbn [List.filter].
  rewrite IH.
  destruct (Qle_bool t (matchPercentage y)) eqn:Hty; [|reflexivity].
  apply Qle_bool_iff in Hty.
  assert (Qle_bool t (matchPercentage x) = true); [|congruence].
  apply Qle_bool_iff. eapply Qle_trans; eassumption.
Qed.

Lemma atLeast_firstn t l :
  StronglySorted scoreGe l ->
  forall k, atLeast t (firstn k l) = firstn k (atLeast t l).
Proof.
  induction 1 as [|x rest Hrest IH Hall]; intros k.
  - rewrite !firstn_nil. reflexivity.
  - destruct k as [|k]; [reflexivity|].
    cbn [firstn]. unfold atLeast in *. cbn [List.filter].
    destruct (Qle_bool t (matchPercentage x)) eqn:Hx.
    + cbn [firstn]. rewrite IH. reflexivity.
    + pose proof (atLeast_none t x rest Hx Hall) as Hnone.
      unfold atLeast in Hnone. rewrite Hnone, firstn_nil.
      apply (atLeast_none t x); [exact Hx|].
      rewrite List.Forall_forall in *. intros y Hy.
      apply Hall. rewrite <- (firstn_skipn k rest).
      apply in_or_app. left. exact Hy.
Qed.

Lemma slice0_firstn {A} (l : list A) k :
  0 <= k -> slice0 l k = firstn (Z.to_nat k) l.
Proof.
  intros Hk. unfold slice0.
  destruct (Z.ltb_spec k 0); [lia|].
  destruct (Z.le_ge_cases k (Z.of_nat (length l))) as [Hle|Hge].
  - rewrite Z.min_l by exact Hle. reflexivity.
  - rewrite Z.min_r by exact Hge. rewrite Nat2Z.id.
    rewrite !firstn_all2 by lia. reflexivity.
Qed.

(** X14: raising the threshold of the synchronous entry point gives the
    results of the lower threshold that reach the higher one, in the same
    order. *)
Theorem matchDescriptions_threshold
    (itemMasterData genConsumableData : list Row) (low high : Q)
    (maxResults : Z) (out : list MatchResult) :
  (low <= high)%Q ->
  0 <= maxResults ->
  matchDescriptions itemMasterData genConsumableData low maxResults = Ok out ->
  matchDescriptions itemMasterData genConsumableData high maxResults
  = Ok (atLeast high out).
Proof.
  intros Hlow Hmax. unfold matchDescriptions, collectSync.
  destruct (sweepItems low _ _ _) as [acc|] eqn:Hsweep;
    cbn [mbind result_bind]; [|discriminate].
  intros [= <-].
  pose proof (sweepItems_threshold low high Hlow _ _ _ _ Hsweep) as Hhigh.
  change (atLeast high []) with (@nil MatchResult) in Hhigh.
  rewrite Hhigh.
  cbn [mbind result_bind]. f_equal. unfold rank.
  rewrite !slice0_firstn by exact Hmax.
  rewrite atLeast_firstn by apply sortDesc_StronglySorted.
  unfold atLeast. rewrite sortDesc_filter. reflexivity.
Qed.

Lemma matchDescriptions_threshold_witness :
  exists out,
    matchDescriptions [leftRow "abc def"; leftRow "abc xyz"]
      [rightRow "abc def"; rightRow "abc defg"] 40 3 = Ok out
    /\ List.map matchPercentage out
       = [10000 # 100; 9231 # 100; 5000 # 100]%Q
    /\ List.map matchPercentage (atLeast 60 out)
       = [10000 # 100; 9231 # 100]%Q
    /\ matchDescriptions [leftRow "abc def"; leftRow "abc xyz"]
         [rightRow "abc def"; rightRow "abc defg"] 60 3
       = Ok (atLeast 60 out).
Proof.
  eexists. split; [vm_compute; reflexivity|].
  split; [reflexivity|]. split; [reflexivity|].
  apply (matchDescriptions_threshold _ _ 40 60 3).
  - vm_compute. discriminate.
  - lia.
  - vm_compute. reflexivity.
Defined.

(** ** When the synchronous entry point raises *)

Lemma truthy_descriptionOf key r :
  truthy (descriptionOf key r) = truthy (get r key)
  /\ (truthy (get r key) = true -> descriptionOf key r = get r key).
Proof.
  unfold descriptionOf, orElse.
  destruct (truthy (get r key)) eqn:H; [auto|]. split; [reflexivity|].
  discriminate.
Qed.

Lemma normalizeString_isOk v :
  truthy v = true -> isOk (normalizeString v) = isText v.
Proof.
  unfold normalizeString. intros ->. destruct v; reflexivity.
Qed.

Lemma calculateSimilarity_isOk desc1 desc2 :
  truthy desc1 = true -> truthy desc2 = true ->
  isOk (calculateSimilarity desc1 desc2) = isText desc1 && isText desc2.
Proof.
  intros H1 H2. unfold calculateSimilarity.
  pose proof (normalizeString_isOk desc1 H1) as Hn1.
  pose proof (normalizeString_isOk desc2 H2) as Hn2.
  destruct (normalizeString desc1) as [n1|]; cbn in Hn1; rewrite <- Hn1;
    cbn [mbind result_bind]; [|reflexivity].
  destruct (normalizeString desc2) as [n2|]; cbn in Hn2; rewrite <- Hn2;
    cbn [mbind result_bind]; [|reflexivity].
  destruct (_ || _); reflexivity.
Qed.

Section SweepRaises.
Variable minThreshold : Q.

Lemma sweepGen_isOk itemRow itemDesc genConsumableData :
  truthy itemDesc = true ->
  forall acc,
    isOk (sweepGen minThreshold itemRow itemDesc genConsumableData acc) = true
    <-> forall genRow,
          In genRow genConsumableData ->
          truthy (descriptionOf "LONG DESCRIPTION" genRow) = true ->
          isText itemDesc = true
          /\ isText (descriptionOf "LONG DESCRIPTION" genRow) = true.
Proof.
  intros Hitem. unfold descriptionOf.
  induction genConsumableData as [|genRow rest IH]; intros acc;
    cbn [sweepGen].
  - split; [intros _ g []|reflexivity].
  - destruct (truthy (orElse (get genRow "LONG DESCRIPTION") (VString "")))
      eqn:Htruthy; cbn [negb].
    + pose proof (calculateSimilarity_isOk itemDesc _ Hitem Htruthy) as Hsim.
      destruct (calculateSimilarity _ _) as [p|]; cbn [mbind result_bind];
        cbn [isOk] in Hsim; symmetry in Hsim.
      * apply andb_true_iff in Hsim.
        assert (Hrest : forall acc',
                   isOk (sweepGen minThreshold itemRow itemDesc rest acc')
                   = true
                   <-> forall g,
                         In g (genRow :: rest) ->
                         truthy (orElse (get g "LONG DESCRIPTION")
                                   (VString "")) = true ->
                         isText itemDesc = true
                         /\ isText (orElse (get g "LONG DESCRIPTION")
                                      (VString "")) = true).
        { intros acc'. rewrite IH. split.
          - intros H g [<-|Hg] Hg'; [exact Hsim|auto].
          - intros H g Hg. apply H. right. exact Hg. }
        destruct (Qle_bool minThreshold p); apply Hrest.
      * split; [discriminate|]. intros H.
        destruct (H genRow (or_introl eq_refl) Htruthy) as [H1 H2].
        rewrite H1, H2 in Hsim. discriminate.
    + rewrite IH. split.
      * intros H g [<-|Hg] Hg'; [congruence|auto].
      * intros H g Hg. apply H. right. exact Hg.
Qed.

Lemma sweepItems_isOk itemMasterData genConsumableData :
  forall acc,
    isOk (sweepItems minThreshold itemMasterData genConsumableData acc) = true
    <-> forall itemRow genRow,
          In itemRow itemMasterData -> In genRow genConsumableData ->
          truthy (descriptionOf "Description" itemRow) = true ->
          truthy (descriptionOf "LONG DESCRIPTION" genRow) = true ->
          isText (descriptionOf "Description" itemRow) = true
          /\ isText (descriptionOf "LONG DESCRIPTION" genRow) = true.
Proof.
  induction itemMasterData as [|itemRow rest IH]; intros acc;
    cbn [sweepItems].
  - split; [intros _ i g []|reflexivity].
  - fold (descriptionOf "Description" itemRow).
    destruct (truthy (descriptionOf "Description" itemRow)) eqn:Htruthy;
      cbn [negb].
    + pose proof (sweepGen_isOk itemRow _ genConsumableData Htruthy acc)
        as Hgen.
      destruct (sweepGen _ _ _ _ _) as [acc'|]; cbn [mbind result_bind].
      * rewrite IH. split.
        -- intros H i g [<-|Hi] Hg Hti Htg; [|auto].
           apply (proj1 Hgen eq_refl); assumption.
        -- intros H i g Hi. apply H. right. exact Hi.
      * split; [discriminate|]. intros H. apply Hgen.
        intros g Hg Htg. apply H; auto. left. reflexivity.
    + rewrite IH. split.
      * intros H i g [<-|Hi] Hg Hti Htg; [congruence|auto].
      * intros H i g Hi. apply H. right. exact Hi.
Qed.
End SweepRaises.

(** X15: the synchronous entry point raises exactly when it meets a left
    row and a right row that both have a description, one of which is not
    text; a description that is not text goes unnoticed as long as the other
    side has no row with a description. *)
Theorem matchDescriptions_raises
    (itemMasterData genConsumableData : list Row) (minThreshold : Q)
    (maxResults : Z) :
  isOk (matchDescriptions itemMasterData genConsumableData minThreshold
          maxResults) = true
  <-> forall itemRow genRow,
        In itemRow itemMasterData -> In genRow genConsumableData ->
        truthy (descriptionOf "Description" itemRow) = true ->
        truthy (descriptionOf "LONG DESCRIPTION" genRow) = true ->
        isText (descriptionOf "Description" itemRow) = true
        /\ isText (descriptionOf "LONG DESCRIPTION" genRow) = true.
Proof.
  rewrite <- (sweepItems_isOk minThreshold itemMasterData genConsumableData []).
  unfold matchDescriptions, collectSync.
  destruct (sweepItems _ _ _ _); reflexivity.
Qed.

(** ** When the chunked entry point raises *)

Lemma normalizable_textual key r : normalizable key r -> textualField key r.
Proof.
  unfold normalizable, textualField, textual.
  intros [n Hn]. destruct (get r key) as [| |s|x]; try reflexivity.
  destruct (truthy (VNumber x)) eqn:Htruthy; [|reflexivity].
  unfold orElse in Hn. rewrite Htruthy in Hn.
  unfold normalizeString in Hn. rewrite Htruthy in Hn. discriminate.
Qed.

Lemma matchDescriptionsAsync_run
    itemMasterData genConsumableData minThreshold maxResults onProgress out :
  matchDescriptionsAsync itemMasterData genConsumableData minThreshold
    maxResults onProgress = Ok out ->
  exists normalizedItemData normalizedGenData,
    preprocess "Description" itemMasterData = Ok normalizedItemData
    /\ preprocess "LONG DESCRIPTION" genConsumableData = Ok normalizedGenData
    /\ out = runChunks normalizedItemData normalizedGenData minThreshold
               maxResults onProgress initialState.
Proof.
  unfold matchDescriptionsAsync.
  destruct (preprocess "Description" _) as [nItems|];
    cbn [mbind result_bind]; [|discriminate].
  destruct (preprocess "LONG DESCRIPTION" _) as [nGens|];
    cbn [mbind result_bind]; [|discriminate].
  intros [= <-]. eauto.
Qed.

(** X16: the chunked entry point raises exactly when some row, on either
    side, has a description that is neither text nor replaced by the empty
    string, whatever the rows of the other side. *)
Theorem matchDescriptionsAsync_raises
    (itemMasterData genConsumableData : list Row) (minThreshold : Q)
    (maxResults : Z) (onProgress : bool) :
  isOk (matchDescriptionsAsync itemMasterData genConsumableData minThreshold
          maxResults onProgress) = true
  <-> Forall (textualField "Description") itemMasterData
      /\ Forall (textualField "LONG DESCRIPTION") genConsumableData.
Proof.
  split.
  - destruct (matchDescriptionsAsync _ _ _ _ _) as [out|] eqn:Hrun;
      [|discriminate].
    intros _.
    destruct (matchDescriptionsAsync_run _ _ _ _ _ _ Hrun)
      as (nI & nG & HI & HG & _).
    apply preprocess_normalizable in HI, HG.
    split; eapply Forall_impl; try eassumption;
      intros r; apply normalizable_textual.
  - intros [HI HG]. unfold matchDescriptionsAsync.
    destruct (preprocess_ok "Description" itemMasterData) as [nI ->].
    { eapply Forall_impl; [exact HI|]. intros r. apply textual_normalizable. }
    destruct (preprocess_ok "LONG DESCRIPTION" genConsumableData) as [nG ->].
    { eapply Forall_impl; [exact HG|]. intros r. apply textual_normalizable. }
    reflexivity.
Qed.

(** ** The chunks of a run *)

Section Chunks.
Variables normalizedItemData normalizedGenData : list NormalizedEntry.
Variable minThreshold : Q.
Variable maxResults : Z.

Local Abbreviation total := (length normalizedItemData).
Local Abbreviation chunk :=
  (processChunk normalizedItemData normalizedGenData minThreshold maxResults).
Local Abbreviation run :=
  (runChunks normalizedItemData normalizedGenData minThreshold maxResults).
Local Abbreviation below :=
  (well_founded_ltof _ (fun st => (total - currentIndex st)%nat)).

Lemma processChunk_next onProgress st :
  let st' := fst (chunk onProgress st) in
  match snd (chunk onProgress st) with
  | Reschedule =>
      (currentIndex st + chunkSize < total)%nat
      /\ ~ globalExit minThreshold maxResults st'
  | Resolve sorted =>
      (total <= currentIndex st + chunkSize)%nat
      \/ globalExit minThreshold maxResults st'
  end.
Proof.
  cbv zeta. rewrite processChunk_fst. unfold processChunk, globalExit.
  cbn [matches].
  set (collected := fold_left _ _ _).
  destruct (Z.leb_spec (maxResults * 3) (Z.of_nat (length collected)))
    as [Hmany|Hfew]; cbn [andb].
  - destruct (Qle_bool 70 minThreshold) eqn:Hmin.
    + cbn [snd]. right. split; [exact Hmany|]. apply Qle_bool_iff, Hmin.
    + assert (Hno : ~ (70 <= minThreshold)%Q)
        by (rewrite <- Qle_bool_iff; congruence).
      destruct (Nat.ltb_spec
                  (Nat.min (currentIndex st + chunkSize) total) total);
        cbn [snd]; [split; [lia|tauto]|left; lia].
  - destruct (Nat.ltb_spec
                (Nat.min (currentIndex st + chunkSize) total) total);
      cbn [snd]; [split; [lia|lia]|left; lia].
Qed.

Lemma runChunks_boundaries onProgress st :
  forall i st',
    fst (run onProgress st) !! i = Some st' ->
    currentIndex st'
    = Nat.min (currentIndex st + chunkSize * (i + 1)) total
    /\ length (reported st')
       = (length (reported st) + if onProgress then i + 1 else 0)%nat.
Proof.
  induction st as [st IH] using (well_founded_induction below).
  intros i st'. rewrite runChunks_step.
  pose proof (processChunk_next onProgress st) as Hnext. cbv zeta in Hnext.
  pose proof (processChunk_fst normalizedItemData normalizedGenData
                minThreshold maxResults onProgress st) as Hfst.
  cbv zeta in Hfst.
  destruct (chunk onProgress st) as [st1 next] eqn:Hchunk.
  cbn [fst snd] in *.
  assert (Hfirst :
            currentIndex st1
            = Nat.min (currentIndex st + chunkSize) total
            /\ length (reported st1)
               = (length (reported st)
                  + if onProgress then 1 else 0)%nat).
  { rewrite Hfst. cbn [currentIndex reported]. split; [reflexivity|].
    destruct onProgress; [rewrite length_app; reflexivity|lia]. }
  destruct Hfirst as [Hindex Hreports].
  destruct next as [sorted|]; cbn [fst].
  - destruct i as [|i]; [|discriminate]. intros [= <-].
    rewrite Hindex, Hreports. unfold chunkSize.
    split; [lia|destruct onProgress; lia].
  - destruct i as [|i].
    + intros [= <-]. rewrite Hindex, Hreports. unfold chunkSize.
      split; [lia|destruct onProgress; lia].
    + intros Hlookup. cbn in Hlookup.
      apply IH in Hlookup as [Hi Hr];
        [|apply (processChunk_reschedule _ _ _ _ _ _ _ Hchunk)].
      rewrite Hi, Hr, Hindex, Hreports. destruct Hnext as [Hlt _].
      split; [|destruct onProgress; lia].
      unfold chunkSize in *. lia.
Qed.

Lemma runChunks_stops onProgress st :
  exists earlier final,
    fst (run onProgress st) = earlier ++ [final]
    /\ List.Forall
         (fun st' =>
            (currentIndex st' < total)%nat
            /\ ~ globalExit minThreshold maxResults st')
         earlier
    /\ ((total <= currentIndex final)%nat
        \/ globalExit minThreshold maxResults final)
    /\ snd (run onProgress st) = rank (matches final) maxResults.
Proof.
  induction st as [st IH] using (well_founded_induction below).
  rewrite runChunks_step.
  pose proof (processChunk_next onProgress st) as Hnext. cbv zeta in Hnext.
  pose proof (processChunk_fst normalizedItemData normalizedGenData
                minThreshold maxResults onProgress st) as Hfst.
  cbv zeta in Hfst.
  destruct (chunk onProgress st) as [st1 next] eqn:Hchunk.
  cbn [fst snd] in *.
  assert (Hindex :
            currentIndex st1 = Nat.min (currentIndex st + chunkSize) total)
    by (rewrite Hfst; reflexivity).
  destruct next as [sorted|]; cbn [fst snd].
  - exists [], st1. split; [reflexivity|]. split; [constructor|].
    split; [destruct Hnext; [left; lia|right; assumption]|].
    eapply processChunk_resolved. exact Hchunk.
  - destruct (IH st1) as (earlier & final & -> & Hearlier & Hfinal & ->).
    { apply (processChunk_reschedule _ _ _ _ _ _ _ Hchunk). }
    exists (st1 :: earlier), final. split; [reflexivity|].
    split; [|split; [exact Hfinal|reflexivity]].
    constructor; [|exact Hearlier]. destruct Hnext. split; [lia|assumption].
Qed.

Lemma runChunks_onProgress st1 st2 :
  currentIndex st1 = currentIndex st2 ->
  matches st1 = matches st2 ->
  List.map (fun st => (currentIndex st, matches st)) (fst (run true st1))
  = List.map (fun st => (currentIndex st, matches st)) (fst (run false st2))
  /\ snd (run true st1) = snd (run false st2).
Proof.
  revert st2.
  induction st1 as [st1 IH] using (well_founded_induction below).
  intros st2 Hindex Hmatches. rewrite !runChunks_step.
  pose proof (processChunk_reschedule normalizedItemData normalizedGenData
                minThreshold maxResults true st1) as Hless.
  unfold processChunk in *. rewrite <- Hindex, <- Hmatches.
  set (endIndex := Nat.min _ _) in *. set (collected := fold_left _ _ _) in *.
  destruct (_ && _); [split; reflexivity|].
  destruct (_ <? _)%nat; [|split; reflexivity].
  cbn [fst snd List.map currentIndex matches].
  destruct (IH (mkState endIndex collected
                  (reported st1 ++ [progressOf normalizedItemData endIndex]))
              (Hless _ eq_refl)
              (mkState endIndex collected (reported st2))
              eq_refl eq_refl) as [Htrace Hout].
  rewrite Htrace, Hout. split; reflexivity.
Qed.
End Chunks.

(** X17: the chunks of a run are 200 left entries long: the chunk at
    position [i] of the run leaves the index at [200 * (i + 1)], or at the
    number of surviving left entries if that is less, and [onProgress], when
    it is supplied, has been called once per chunk by then. *)
Theorem matchDescriptionsAsync_chunks
    (itemMasterData genConsumableData : list Row) (minThreshold : Q)
    (maxResults : Z) (onProgress : bool) (total : nat)
    (trace : list SchedState) (out : list MatchResult) :
  survivorCount "Description" itemMasterData = Ok total ->
  matchDescriptionsAsync itemMasterData genConsumableData minThreshold
    maxResults onProgress = Ok (trace, out) ->
  forall i st,
    trace !! i = Some st ->
    currentIndex st = Nat.min (200 * (i + 1)) total
    /\ length (reported st) = if onProgress then (i + 1)%nat else 0%nat.
Proof.
  intros Htotal Hrun i st Hlookup.
  destruct (matchDescriptionsAsync_run _ _ _ _ _ _ Hrun)
    as (nI & nG & HI & HG & Hout).
  unfold survivorCount in Htotal. rewrite HI in Htotal.
  cbn in Htotal. injection Htotal as <-.
  apply (f_equal fst) in Hout. cbn [fst] in Hout. subst trace.
  apply runChunks_boundaries in Hlookup as [Hindex Hreports].
  split; [exact Hindex|]. rewrite Hreports. destruct onProgress; reflexivity.
Qed.

Lemma matchDescriptionsAsync_chunks_witness :
  exists trace out,
    matchDescriptionsAsync (repeat (leftRow "abc") 401) [] 50 1000 true
    = Ok (trace, out)
    /\ List.map currentIndex trace = [200; 400; 401]%nat
    /\ forall i st,
         trace !! i = Some st ->
         currentIndex st = Nat.min (200 * (i + 1)) 401
         /\ length (reported st) = (i + 1)%nat.
Proof.
  do 2 eexists. split; [vm_compute; reflexivity|].
  split; [reflexivity|].
  eapply (matchDescriptionsAsync_chunks (repeat (leftRow "abc") 401) []
            50 1000 true 401).
  - vm_compute. reflexivity.
  - vm_compute. reflexivity.
Defined.

(** X18: a run stops after the first chunk that has processed every
    surviving left entry or after which the global early exit holds (three
    times [maxResults] results collected, with a threshold of 70 or more),
    and resolves with the ranking of what is collected by then. *)
Theorem matchDescriptionsAsync_stops
    (itemMasterData genConsumableData : list Row) (minThreshold : Q)
    (maxResults : Z) (onProgress : bool) (total : nat)
    (trace : list SchedState) (out : list MatchResult) :
  survivorCount "Description" itemMasterData = Ok total ->
  matchDescriptionsAsync itemMasterData genConsumableData minThreshold
    maxResults onProgress = Ok (trace, out) ->
  exists earlier final,
    trace = earlier ++ [final]
    /\ List.Forall
         (fun st =>
            (currentIndex st < total)%nat
            /\ ~ globalExit minThreshold maxResults st)
         earlier
    /\ (currentIndex final = total
        \/ globalExit minThreshold maxResults final)
    /\ out = rank (matches final) maxResults.
Proof.
  intros Htotal Hrun.
  destruct (matchDescriptionsAsync_run _ _ _ _ _ _ Hrun)
    as (nI & nG & HI & HG & Hout).
  unfold survivorCount in Htotal. rewrite HI in Htotal.
  cbn in Htotal. injection Htotal as <-.
  destruct (runChunks_stops nI nG minThreshold maxResults onProgress
              initialState)
    as (earlier & final & Htrace & Hearlier & Hfinal & Hsorted).
  rewrite <- Hout in Htrace, Hsorted. cbn [fst snd] in Htrace, Hsorted.
  exists earlier, final. split; [exact Htrace|].
  split; [exact Hearlier|]. split; [|exact Hsorted].
  destruct Hfinal as [Hend|Hexit]; [left|right; exact Hexit].
  assert (Hin : trace !! length earlier = Some final).
  { rewrite Htrace. rewrite lookup_app_r by lia.
    rewrite Nat.sub_diag. reflexivity. }
  apply (f_equal fst) in Hout. cbn [fst] in Hout. rewrite Hout in Hin.
  apply runChunks_boundaries in Hin as [Hindex _]. lia.
Qed.

Lemma matchDescriptionsAsync_stops_witness :
  exists trace out,
    matchDescriptionsAsync (repeat (leftRow "abc") 201) [] 70 0 false
    = Ok (trace, out)
    /\ List.map currentIndex trace = [200%nat]
    /\ exists earlier final,
         trace = earlier ++ [final]
         /\ List.Forall
              (fun st =>
                 (currentIndex st < 201)%nat /\ ~ globalExit 70 0 st)
              earlier
         /\ (currentIndex final = 201%nat \/ globalExit 70 0 final)
         /\ out = rank (matches final) 0.
Proof.
  do 2 eexists. split; [vm_compute; reflexivity|].
  split; [reflexivity|].
  eapply (matchDescriptionsAsync_stops (repeat (leftRow "abc") 201) []
            70 0 false 201).
  - vm_compute. reflexivity.
  - vm_compute. reflexivity.
Defined.

(** X19: supplying [onProgress] changes nothing but the reports: the chunks
    leave the same indices and the same accumulators, and the run resolves
    with the same results, or raises, with or without it. *)
Theorem onProgress_transparent
    (itemMasterData genConsumableData : list Row) (minThreshold : Q)
    (maxResults : Z) :
  forgetReports
    (matchDescriptionsAsync itemMasterData genConsumableData minThreshold
       maxResults true)
  = forgetReports
      (matchDescriptionsAsync itemMasterData genConsumableData minThreshold
         maxResults false).
Proof.
  unfold matchDescriptionsAsync, forgetReports.
  destruct (preprocess "Description" _) as [nI|];
    cbn [mbind result_bind]; [|reflexivity].
  destruct (preprocess "LONG DESCRIPTION" _) as [nG|];
    cbn [mbind result_bind]; [|reflexivity].
  destruct (runChunks_onProgress nI nG minThreshold maxResults
              initialState initialState eq_refl eq_refl) as [-> ->].
  reflexivity.
Qed.

(** ** The percentages of both entry points *)

(** X20: every percentage that either entry point returns lies between 0
    and 100 and has two decimals; it reaches the threshold in the results
    of the synchronous entry point, and in those of the chunked one when
    the threshold itself has at most two decimals. *)
Theorem returned_percentages
    (itemMasterData genConsumableData : list Row) (minThreshold : Q)
    (maxResults : Z) (onProgress : bool)
    (trace : list SchedState) (out outAsync : list MatchResult) :
  matchDescriptions itemMasterData genConsumableData minThreshold maxResults
  = Ok out ->
  matchDescriptionsAsync itemMasterData genConsumableData minThreshold
    maxResults onProgress = Ok (trace, outAsync) ->
  List.Forall
    (fun m => inRange m /\ twoDecimals m /\ meetsThreshold minThreshold m)
    out
  /\ List.Forall
       (fun m =>
          inRange m /\ twoDecimals m
          /\ ((exists k : Z, minThreshold == inject_Z k / 100)%Q ->
              meetsThreshold minThreshold m))
       outAsync.
Proof.
  intros Hsync Hasync. split.
  - eapply matchDescriptions_scores. exact Hsync.
  - eapply matchDescriptionsAsync_scores. exact Hasync.
Qed.

Lemma returned_percentages_witness :
  exists trace out outAsync,
    matchDescriptions [leftRow "abc def"; leftRow "abc xyz"]
      [rightRow "abc def"; rightRow "abc defg"] 60 1000 = Ok out
    /\ matchDescriptionsAsync [leftRow "abc def"; leftRow "abc xyz"]
         [rightRow "abc def"; rightRow "abc defg"] 60 1000 false
       = Ok (trace, outAsync)
    /\ List.map matchPercentage out = [10000 # 100; 9231 # 100]%Q
    /\ List.map matchPercentage outAsync = [10000 # 100]%Q
    /\ List.Forall
         (fun m => inRange m /\ twoDecimals m /\ meetsThreshold 60 m) out.
Proof.
  do 3 eexists. split; [vm_compute; reflexivity|].
  split; [vm_compute; reflexivity|].
  split; [reflexivity|]. split; [reflexivity|].
  eapply (returned_percentages [leftRow "abc def"; leftRow "abc xyz"]
            [rightRow "abc def"; rightRow "abc defg"] 60 1000 false).
  - vm_compute. reflexivity.
  - vm_compute. reflexivity.
Defined.

(** ** The quality bands *)

Lemma band_order (p : Q) :
  (Qle_bool 90 p = true -> Qle_bool 70 p = true)
  /\ (Qle_bool 70 p = true -> Qle_bool 50 p = true).
Proof.
  rewrite !Qle_bool_iff.
  split; intros H; (eapply Qle_trans; [|exact H]); discriminate.
Qed.

Lemma qualityTest_one (m : MatchResult) :
  length (List.filter (fun q => qualityTest q m)
            [qExcellent; qGood; qFair; qPoor]) = 1%nat.
Proof.
  cbn [List.filter qualityTest].
  destruct (band_order (matchPercentage m)) as [H97 H75].
  destruct (Qle_bool 90 (matchPercentage m));
    destruct (Qle_bool 70 (matchPercentage m));
    destruct (Qle_bool 50 (matchPercentage m));
    cbn [andb negb length]; try reflexivity;
    try (specialize (H97 eq_refl); discriminate);
    try (specialize (H75 eq_refl); discriminate).
Qed.

Lemma countOf_filter (filterQuality : Quality) (matches : list MatchResult) :
  countOf filterQuality matches
  = length (List.filter (qualityTest filterQuality) matches).
Proof.
  destruct filterQuality; try reflexivity.
  cbn [countOf]. induction matches as [|m rest IH]; [reflexivity|].
  cbn [List.filter qualityTest length]. congruence.
Qed.

(** X21: the four counts of the analytics add up to the number of results,
    as every result falls in exactly one quality band. *)
Theorem matchCounts_partition (matches : list MatchResult) :
  (excellent (matchCounts matches) + good (matchCounts matches)
   + fair (matchCounts matches) + poor (matchCounts matches)
   = length matches)%nat
  /\ forall m,
       length (List.filter (fun q => qualityTest q m)
                 [qExcellent; qGood; qFair; qPoor]) = 1%nat.
Proof.
  split; [|apply qualityTest_one].
  change (countOf qExcellent matches + countOf qGood matches
          + countOf qFair matches + countOf qPoor matches
          = length matches)%nat.
  rewrite !countOf_filter.
  induction matches as [|m rest IH]; [reflexivity|].
  pose proof (qualityTest_one m) as Hone.
  cbn [List.filter length] in *.
  destruct (qualityTest qExcellent m), (qualityTest qGood m),
    (qualityTest qFair m), (qualityTest qPoor m);
    cbn [length] in *; lia.
Qed.

(** ** The filters *)

Lemma filterM_sublist {A} (f : A -> result bool) (l : list A) :
  forall kept, filterM f l = Ok kept -> sublist kept l.
Proof.
  induction l as [|x rest IH]; cbn [filterM]; intros kept.
  - intros [= <-]. constructor.
  - destruct (f x) as [keep|]; cbn [mbind result_bind]; [|discriminate].
    destruct (filterM f rest) as [kept'|]; cbn [mbind result_bind];
      [|discriminate].
    intros [= <-]. destruct keep; constructor; apply IH; reflexivity.
Qed.

Lemma filter_sublist {A} (f : A -> bool) (l : list A) :
  sublist (List.filter f l) l.
Proof.
  induction l as [|x rest IH]; cbn [List.filter]; [constructor|].
  destruct (f x); constructor; exact IH.
Qed.

Lemma toLowerCase_empty s : String.eqb (toLowerCase s) "" = String.eqb s "".
Proof. destruct s; reflexivity. Qed.

(** X22: the rows shown are results taken from the list in their order, all
    of the chosen quality; without a search term there are as many as the
    analytics count for that quality, and with no filter at all the list is
    shown as it is. *)
Theorem filteredMatches_shown
    (matches : list MatchResult) (searchTerm : string)
    (filterQuality : Quality) (shown : list MatchResult) :
  filteredMatches matches searchTerm filterQuality = Ok shown ->
  sublist shown matches
  /\ List.Forall (fun m => qualityTest filterQuality m = true) shown
  /\ (searchTerm = "" ->
      length shown = countOf filterQuality matches
      /\ (filterQuality = qAll -> shown = matches)).
Proof.
  unfold filteredMatches.
  destruct (String.eqb_spec searchTerm "") as [->|Hterm]; cbn [negb].
  - cbn [mbind result_bind]. intros [= <-].
    rewrite countOf_filter.
    destruct filterQuality;
      (split; [try reflexivity; apply filter_sublist|]);
      (split; [apply List.Forall_forall; intros m Hm;
               try reflexivity; apply filter_In in Hm; tauto|]);
      intros _; (split; [|try discriminate; reflexivity]);
      try reflexivity.
    apply (countOf_filter qAll).
  - destruct (filterM _ matches) as [kept|] eqn:Hkept;
      cbn [mbind result_bind]; [|discriminate].
    apply filterM_sublist in Hkept. intros [= <-].
    split; [|split; [|contradiction]].
    + destruct filterQuality; [exact Hkept|..];
        (etransitivity; [apply filter_sublist|exact Hkept]).
    + apply List.Forall_forall. intros m Hm.
      destruct filterQuality; [reflexivity|..];
        apply filter_In in Hm; tauto.
Qed.

Lemma filteredMatches_shown_witness :
  exists shown,
    filteredMatches sampleMatches "" qGood = Ok shown
    /\ List.map matchPercentage shown = [7250 # 100]%Q
    /\ sublist shown sampleMatches
    /\ length shown = countOf qGood sampleMatches.
Proof.
  eexists. split; [vm_compute; reflexivity|]. split; [reflexivity|].
  destruct (filteredMatches_shown sampleMatches "" qGood _ eq_refl)
    as (Hsub & _ & Hcount).
  split; [exact Hsub|]. apply Hcount. reflexivity.
Defined.

Lemma toLowerChar_idem c : toLowerChar (toLowerChar c) = toLowerChar c.
Proof. destruct c as [[] [] [] [] [] [] [] []]; vm_compute; reflexivity. Qed.

Lemma toLowerCase_idem s : toLowerCase (toLowerCase s) = toLowerCase s.
Proof.
  induction s as [|c r IH]; [reflexivity|]. cbn [toLowerCase].
  rewrite toLowerChar_idem, IH. reflexivity.
Qed.

(** X23: the search does not depend on the case of the search term. *)
Theorem filteredMatches_case
    (matches : list MatchResult) (term1 term2 : string)
    (filterQuality : Quality) :
  toLowerCase term1 = toLowerCase term2 ->
  filteredMatches matches term1 filterQuality
  = filteredMatches matches term2 filterQuality.
Proof.
  intros Hterm. unfold filteredMatches.
  rewrite <- (toLowerCase_empty term1), <- (toLowerCase_empty term2), Hterm.
  reflexivity.
Qed.

Lemma filteredMatches_case_witness :
  filteredMatches sampleMatches "GAUZE" qAll
  = filteredMatches sampleMatches "gauze" qAll
  /\ filteredMatches sampleMatches "Gz-" qAll
     = Ok (firstn 1 sampleMatches).
Proof.
  split; [|vm_compute; reflexivity].
  apply (filteredMatches_case sampleMatches "GAUZE" "gauze" qAll).
  reflexivity.
Defined.

(** X24: the colour of a badge is the colour of the quality band of its
    percentage. *)
Theorem getMatchColor_band (filterQuality : Quality) (m : MatchResult) :
  filterQuality <> qAll ->
  qualityTest filterQuality m = true
  <-> colorOf filterQuality = Some (getMatchColor (matchPercentage m)).
Proof.
  intros Hq. unfold getMatchColor.
  destruct (band_order (matchPercentage m)) as [H97 H75].
  destruct filterQuality; [contradiction|..]; cbn [qualityTest colorOf];
    destruct (Qle_bool 90 (matchPercentage m));
    destruct (Qle_bool 70 (matchPercentage m));
    destruct (Qle_bool 50 (matchPercentage m));
    cbn [andb negb];
    try (specialize (H97 eq_refl); discriminate);
    try (specialize (H75 eq_refl); discriminate);
    split; intros H; try reflexivity; try discriminate.
Qed.

Lemma getMatchColor_band_witness :
  qualityTest qGood (mkMatch ∅ ∅ (7250 # 100) (VString "a") (VString "b"))
  = true
  <-> colorOf qGood = Some (getMatchColor (7250 # 100)).
Proof.
  apply (getMatchColor_band qGood
           (mkMatch ∅ ∅ (7250 # 100) (VString "a") (VString "b"))).
  discriminate.
Defined.

(** ** The results that the dashboard is given *)

Lemma entry_text key data entries a :
  preprocess key data = Ok entries -> In a entries ->
  In (row a) data
  /\ exists s,
       get (row a) key = VString s /\ desc a = VString s
       /\ isEmpty (normalizeText s) = false.
Proof.
  intros Hpre Ha.
  destruct (preprocess_entries _ _ _ Hpre a Ha)
    as (Hrow & Hdesc & Hnorm & Hempty).
  split; [exact Hrow|].
  pose proof (normalizeString_truthy _ _ Hnorm Hempty) as Htruthy.
  assert (Hget : desc a = get (row a) key).
  { rewrite Hdesc in *. unfold orElse in *.
    destruct (truthy (get (row a) key)); [reflexivity|discriminate]. }
  destruct (desc a) as [| |s|x] eqn:Hd;
    unfold normalizeString in Hnorm; rewrite Htruthy in Hnorm;
    try discriminate.
  cbn [negb] in Hnorm. injection Hnorm as Hn.
  exists s. rewrite <- Hget, Hn. auto.
Qed.

Lemma produced_storesText
    itemMasterData genConsumableData normalizedItemData normalizedGenData
    minThreshold m :
  preprocess "Description" itemMasterData = Ok normalizedItemData ->
  preprocess "LONG DESCRIPTION" genConsumableData = Ok normalizedGenData ->
  produced normalizedItemData normalizedGenData minThreshold m ->
  storesText itemMasterData genConsumableData m.
Proof.
  intros HI HG (a & g & Ha & Hg & _ & _ & ->).
  destruct (entry_text _ _ _ a HI Ha) as (Hra & s1 & Hg1 & Hd1 & He1).
  destruct (entry_text _ _ _ g HG Hg) as (Hrg & s2 & Hg2 & Hd2 & He2).
  unfold storesText, resultOf. cbn.
  split; [exact Hra|]. split; [exact Hrg|].
  exists s1, s2. auto 10.
Qed.

Lemma matchDescriptionsAsync_storesText
    itemMasterData genConsumableData minThreshold maxResults onProgress
    trace out :
  matchDescriptionsAsync itemMasterData genConsumableData minThreshold
    maxResults onProgress = Ok (trace, out) ->
  List.Forall (storesText itemMasterData genConsumableData) out.
Proof.
  intros Hrun.
  destruct (matchDescriptionsAsync_resolved _ _ _ _ _ _ _ Hrun)
    as (final & Hlast & ->).
  destruct (matchDescriptionsAsync_final _ _ _ _ _ _ Hrun)
    as (nItems & nGens & final' & HI & HG & Hlast' & Hproduced & _).
  cbn [fst] in Hlast'. rewrite Hlast in Hlast'. injection Hlast' as <-.
  apply rank_Forall. eapply List.Forall_impl; [|exact Hproduced].
  intros m. apply produced_storesText; assumption.
Qed.

(** X25: every result of the chunked entry point is made of a left row and
    a right row of the input whose descriptions are text, stored as they
    are in the rows, and whose normalized forms are not empty. *)
Theorem matchDescriptionsAsync_descriptions
    (itemMasterData genConsumableData : list Row) (minThreshold : Q)
    (maxResults : Z) (onProgress : bool)
    (trace : list SchedState) (out : list MatchResult) :
  matchDescriptionsAsync itemMasterData genConsumableData minThreshold
    maxResults onProgress = Ok (trace, out) ->
  forall m, In m out -> storesText itemMasterData genConsumableData m.
Proof.
  intros Hrun. apply List.Forall_forall.
  eapply matchDescriptionsAsync_storesText. exact Hrun.
Qed.

Lemma matchDescriptionsAsync_descriptions_witness :
  exists trace out,
    matchDescriptionsAsync
      [leftRow "Cotton Gauze"; leftRow "?!"; {[ "Description" := VNull ]}]
      [rightRow "cotton gauze roll"; rightRow "   "] 50 1000 false
    = Ok (trace, out)
    /\ List.map matchPercentage out = [8148 # 100]%Q
    /\ forall m, In m out ->
         storesText
           [leftRow "Cotton Gauze"; leftRow "?!";
            {[ "Description" := VNull ]}]
           [rightRow "cotton gauze roll"; rightRow "   "] m.
Proof.
  do 2 eexists. split; [vm_compute; reflexivity|].
  split; [reflexivity|].
  eapply (matchDescriptionsAsync_descriptions _ _ 50 1000 false).
  vm_compute. reflexivity.
Defined.

Lemma matchesTerm_isOk term m :
  isText (itemMasterDescription m) = true ->
  isText (genConsumableDescription m) = true ->
  readableCode "Item Code" (itemMasterRow m) ->
  readableCode "NUPCO CODE" (genConsumableRow m) ->
  isOk (matchesTerm term m) = true.
Proof.
  unfold matchesTerm, readableCode, lowerIncludes, optLowerIncludes.
  destruct (itemMasterDescription m); try discriminate.
  destruct (genConsumableDescription m); try discriminate.
  intros _ _ Hc1 Hc2. cbn [mbind result_bind].
  destruct (includes _ term); [reflexivity|].
  destruct (includes _ term); [reflexivity|].
  destruct (get (itemMasterRow m) "Item Code"); try contradiction;
    cbn [mbind result_bind];
    try (destruct (includes _ term); [reflexivity|]);
    destruct (get (genConsumableRow m) "NUPCO CODE"); try contradiction;
    reflexivity.
Qed.

Lemma filterM_isOk {A} (f : A -> result bool) (l : list A) :
  List.Forall (fun x => isOk (f x) = true) l -> isOk (filterM f l) = true.
Proof.
  induction 1 as [|x rest Hx Hrest IH]; [reflexivity|]. cbn [filterM].
  destruct (f x); [|discriminate]. cbn [mbind result_bind].
  destruct (filterM f rest); [reflexivity|discriminate].
Qed.

(** X26: on the results of the chunked entry point the search of the
    dashboard does not raise, whatever the search term and the quality, as
    long as no row has a number for its code. *)
Theorem filteredMatches_total
    (itemMasterData genConsumableData : list Row) (minThreshold : Q)
    (maxResults : Z) (onProgress : bool)
    (trace : list SchedState) (out : list MatchResult)
    (searchTerm : string) (filterQuality : Quality) :
  matchDescriptionsAsync itemMasterData genConsumableData minThreshold
    maxResults onProgress = Ok (trace, out) ->
  List.Forall (readableCode "Item Code") itemMasterData ->
  List.Forall (readableCode "NUPCO CODE") genConsumableData ->
  isOk (filteredMatches out searchTerm filterQuality) = true.
Proof.
  intros Hrun HI HG.
  apply matchDescriptionsAsync_storesText in Hrun.
  unfold filteredMatches.
  destruct (negb (String.eqb searchTerm "")); [|reflexivity].
  assert (Hok : isOk (filterM (matchesTerm (toLowerCase searchTerm)) out)
                = true).
  { apply filterM_isOk. rewrite List.Forall_forall in *.
    intros m Hm.
    destruct (Hrun m Hm)
      as (Hi & Hg & s1 & s2 & _ & Hd1 & _ & Hd2 & _ & _).
    apply matchesTerm_isOk; auto.
    - rewrite Hd1. reflexivity.
    - rewrite Hd2. reflexivity. }
  destruct (filterM _ out); [reflexivity|discriminate].
Qed.

Lemma filteredMatches_total_witness :
  exists trace out,
    matchDescriptionsAsync
      [ {[ "Description" := VString "Cotton Gauze";
           "Item Code" := VString "GZ-01" ]} ]
      [rightRow "cotton gauze roll"] 50 1000 false = Ok (trace, out)
    /\ List.map matchPercentage out = [8148 # 100]%Q
    /\ isOk (filteredMatches out "gz" qExcellent) = true.
Proof.
  do 2 eexists. split; [vm_compute; reflexivity|].
  split; [reflexivity|].
  eapply (filteredMatches_total
            [ {[ "Description" := VString "Cotton Gauze";
                 "Item Code" := VString "GZ-01" ]} ]
            [rightRow "cotton gauze roll"] 50 1000 false).
  - vm_compute. reflexivity.
  - repeat constructor.
  - repeat constructor.
Defined.

(** ** What the chunked entry point collects, in order *)

Lemma scanCandidates_resultsFor minThreshold itemData candidates :
  forall acc,
    scanCandidates minThreshold itemData candidates acc
    = acc ++ List.map (resultOf itemData)
               (upToBreak itemData
                  (List.filter
                     (fun genData =>
                        Qle_bool minThreshold
                          (rawPercentage itemData genData))
                     candidates)).
Proof.
  induction candidates as [|genData rest IH]; intros acc;
    cbn [scanCandidates List.filter].
  - cbn. rewrite app_nil_r. reflexivity.
  - destruct (Qle_bool minThreshold (rawPercentage itemData genData));
      [|apply IH].
    cbn [upToBreak].
    destruct (Qle_bool 98 (rawPercentage itemData genData)); [reflexivity|].
    rewrite IH, <- app_assoc. reflexivity.
Qed.

Lemma fold_processItem_resultsFor normalizedGenData minThreshold l :
  forall acc,
    fold_left (processItem normalizedGenData minThreshold) l acc
    = acc ++ flat_map (resultsFor normalizedGenData minThreshold) l.
Proof.
  induction l as [|a rest IH]; intros acc; cbn [fold_left flat_map].
  - rewrite app_nil_r. reflexivity.
  - rewrite IH. unfold processItem at 1.
    rewrite scanCandidates_resultsFor, <- app_assoc. reflexivity.
Qed.

(** X27: what the chunked entry point has collected when it resolves is,
    in this order, what each processed left entry gives: for each of them
    the results of its candidates that reach the threshold, in the order of
    the right entries, up to and including the first one that scores 98 or
    more. *)
Theorem matchDescriptionsAsync_collected
    (itemMasterData genConsumableData : list Row) (minThreshold : Q)
    (maxResults : Z) (onProgress : bool)
    (normalizedItemData normalizedGenData : list NormalizedEntry)
    (out : list SchedState * list MatchResult) :
  preprocess "Description" itemMasterData = Ok normalizedItemData ->
  preprocess "LONG DESCRIPTION" genConsumableData = Ok normalizedGenData ->
  matchDescriptionsAsync itemMasterData genConsumableData minThreshold
    maxResults onProgress = Ok out ->
  collectedAsync out
  = flat_map (resultsFor normalizedGenData minThreshold)
      (firstn (processedAsync out) normalizedItemData)
  /\ snd out = rank (collectedAsync out) maxResults.
Proof.
  intros HI HG Hrun.
  destruct (matchDescriptionsAsync_final _ _ _ _ _ _ Hrun)
    as (nI & nG & final & HI' & HG' & Hlast & _ & [_ Hswept] & _).
  rewrite HI in HI'. rewrite HG in HG'.
  injection HI' as <-. injection HG' as <-.
  destruct out as [trace sorted].
  destruct (matchDescriptionsAsync_resolved _ _ _ _ _ _ _ Hrun)
    as (final' & Hlast' & ->).
  cbn [fst] in Hlast. rewrite Hlast in Hlast'. injection Hlast' as <-.
  unfold collectedAsync, processedAsync. cbn [fst snd].
  rewrite Hlast. cbn [from_option]. split; [|reflexivity].
  rewrite Hswept, fold_processItem_resultsFor. reflexivity.
Qed.

Lemma matchDescriptionsAsync_collected_witness :
  exists nI nG out,
    preprocess "Description" [leftRow "abc def"; leftRow "abc xyz"] = Ok nI
    /\ preprocess "LONG DESCRIPTION"
         [rightRow "abc def"; rightRow "abc defg"] = Ok nG
    /\ matchDescriptionsAsync [leftRow "abc def"; leftRow "abc xyz"]
         [rightRow "abc def"; rightRow "abc defg"] 40 1000 false = Ok out
    /\ List.map matchPercentage (collectedAsync out)
       = [10000 # 100; 5000 # 100; 4615 # 100]%Q
    /\ collectedAsync out
       = flat_map (resultsFor nG 40) (firstn (processedAsync out) nI).
Proof.
  do 3 eexists. split; [vm_compute; reflexivity|].
  split; [vm_compute; reflexivity|]. split; [vm_compute; reflexivity|].
  split; [reflexivity|].
  eapply (matchDescriptionsAsync_collected
            [leftRow "abc def"; leftRow "abc xyz"]
            [rightRow "abc def"; rightRow "abc defg"] 40 1000 false).
  - vm_compute. reflexivity.
  - vm_compute. reflexivity.
  - vm_compute. reflexivity.
Defined.

(** ** The rows that survive pre-processing *)

Lemma mapM_lookup {A B} (f : nat -> A -> result B) l :
  forall idx out, mapM f idx l = Ok out ->
  forall y, In y out
    <-> exists i x, l !! i = Some x /\ f (idx + i)%nat x = Ok y.
Proof.
  induction l as [|x rest IH]; intros idx out; cbn [mapM].
  - intros [= <-] y. split; [intros []|].
    intros (i & x & Hx & _). rewrite lookup_nil in Hx. discriminate.
  - destruct (f idx x) as [y0|] eqn:Hx; cbn [mbind result_bind];
      [|discriminate].
    destruct (mapM f (S idx) rest) as [ys|] eqn:Hrest;
      cbn [mbind result_bind]; [|discriminate].
    intros [= <-] y. specialize (IH _ _ Hrest y). split.
    + intros [<-|Hy].
      * exists 0%nat, x. rewrite Nat.add_0_r. auto.
      * apply IH in Hy as (i & x' & Hi & Hf).
        exists (S i), x'. rewrite Nat.add_succ_r. auto.
    + intros ([|i] & x' & Hi & Hf).
      * cbn in Hi. injection Hi as <-. rewrite Nat.add_0_r in Hf.
        left. congruence.
      * right. apply IH. exists i, x'.
        rewrite Nat.add_succ_r in Hf. auto.
Qed.

Lemma normalizeRow_index key idx r e :
  normalizeRow key idx r = Ok e ->
  index e = idx /\ extractTokens (desc e) = Ok (tokens e).
Proof.
  unfold normalizeRow.
  destruct (normalizeString _) as [n|]; cbn [mbind result_bind];
    [|discriminate].
  destruct (extractTokens _) as [t|] eqn:Ht; cbn [mbind result_bind];
    [|discriminate].
  intros [= <-]. cbn. auto.
Qed.

Lemma mapM_indices key l :
  forall idx out, mapM (normalizeRow key) idx l = Ok out ->
  List.Forall (fun e => (idx <= index e)%nat) out
  /\ StronglySorted (fun a b => (index a < index b)%nat) out.
Proof.
  induction l as [|r rest IH]; intros idx out; cbn [mapM].
  - intros [= <-]. split; constructor.
  - destruct (normalizeRow key idx r) as [e|] eqn:He;
      cbn [mbind result_bind]; [|discriminate].
    destruct (mapM _ (S idx) rest) as [es|] eqn:Hrest;
      cbn [mbind result_bind]; [|discriminate].
    intros [= <-]. destruct (IH _ _ Hrest) as [Hge Hsorted].
    apply normalizeRow_index in He as [Hidx _].
    split.
    + constructor; [lia|].
      eapply List.Forall_impl; [|exact Hge]. cbn. intros a Ha. lia.
    + constructor; [exact Hsorted|].
      eapply List.Forall_impl; [|exact Hge]. cbn. intros a Ha. lia.
Qed.

Lemma survives_tokens key idx r e :
  normalizeRow key idx r = Ok e ->
  survives e = true <-> tokens e <> ∅.
Proof.
  unfold normalizeRow, extractTokens.
  destruct (normalizeString _) as [n|]; cbn [mbind result_bind];
    [|discriminate].
  intros [= <-]. unfold survives. cbn [normalizedDesc tokens].
  set (T := list_to_set _ : gset string).
  rewrite andb_true_iff, !Nat.ltb_lt. split.
  - intros [_ Hsize] Hempty. rewrite Hempty, size_empty in Hsize. lia.
  - intros Hne.
    assert (Hsize : (0 < size T)%nat).
    { destruct (Nat.eq_dec (size T) 0%nat) as [Hz|Hz]; [|lia].
      exfalso. apply Hne, leibniz_equiv, size_empty_inv, Hz. }
    split; [|exact Hsize].
    destruct n as [|c n']; [|cbn; lia].
    exfalso. apply Hne. reflexivity.
Qed.

(** X28: pre-processing keeps, in the order of the input and with their
    positions as [index], exactly the rows whose description has at least
    one token; the test on the length of the normalized description never
    decides. *)
Theorem preprocess_survivors
    (key : string) (data : list Row) (entries : list NormalizedEntry) :
  preprocess key data = Ok entries ->
  StronglySorted (fun a b => (index a < index b)%nat) entries
  /\ forall e,
       In e entries
       <-> (exists r,
              data !! index e = Some r /\ normalizeRow key (index e) r = Ok e)
           /\ tokens e <> ∅.
Proof.
  unfold preprocess.
  destruct (mapM (normalizeRow key) 0 data) as [all|] eqn:Hall;
    cbn [mbind result_bind]; [|discriminate].
  intros [= <-]. split.
  - apply StronglySorted_filter. eapply mapM_indices. exact Hall.
  - intros e. rewrite filter_In, (mapM_lookup _ _ _ _ Hall). cbn [Nat.add].
    split.
    + intros [(i & r & Hi & He) Hs].
      pose proof (normalizeRow_index _ _ _ _ He) as [Hidx _].
      rewrite Hidx. split; [eauto|].
      apply (survives_tokens _ _ _ _ He), Hs.
    + intros [(r & Hi & He) Hne]. split; [eauto|].
      apply (survives_tokens _ _ _ _ He), Hne.
Qed.

Lemma preprocess_survivors_witness :
  exists entries,
    preprocess "Description"
      [leftRow "ab cd"; leftRow "Cotton Gauze"; leftRow "?!"; leftRow "4x4"]
    = Ok entries
    /\ List.map index entries = [1; 3]%nat
    /\ StronglySorted (fun a b => (index a < index b)%nat) entries.
Proof.
  eexists. split; [vm_compute; reflexivity|]. split; [reflexivity|].
  eapply (preprocess_survivors "Description"
            [leftRow "ab cd"; leftRow "Cotton Gauze"; leftRow "?!";
             leftRow "4x4"]).
  vm_compute. reflexivity.
Defined.

(** ** What the results of the chunked entry point have in common *)

Lemma preprocess_tokens key data entries :
  preprocess key data = Ok entries ->
  forall a, In a entries ->
    normalizeString (desc a) = Ok (normalizedDesc a)
    /\ extractTokens (desc a) = Ok (tokens a).
Proof.
  intros Hpre a Ha.
  destruct (preprocess_entries _ _ _ Hpre a Ha) as (_ & _ & Hnorm & _).
  split; [exact Hnorm|].
  unfold preprocess in Hpre.
  destruct (mapM (normalizeRow key) 0 data) as [all|] eqn:Hall;
    cbn [mbind result_bind] in Hpre; [|discriminate].
  injection Hpre as <-. apply filter_In in Ha as [Ha _].
  apply (mapM_lookup _ _ _ _ Hall) in Ha as (i & r & _ & He).
  apply normalizeRow_index in He as [_ Ht]. exact Ht.
Qed.

(** X29: the two descriptions of every result of the chunked entry point
    have a token in common, more than 15 in 100 of their tokens are shared,
    and the shorter normalized description has at least three tenths of the
    length of the longer one. *)
Theorem matchDescriptionsAsync_share_token
    (itemMasterData genConsumableData : list Row) (minThreshold : Q)
    (maxResults : Z) (onProgress : bool)
    (trace : list SchedState) (out : list MatchResult) :
  matchDescriptionsAsync itemMasterData genConsumableData minThreshold
    maxResults onProgress = Ok (trace, out) ->
  forall m, In m out ->
    exists n1 n2 T1 T2,
      normalizeString (itemMasterDescription m) = Ok n1
      /\ normalizeString (genConsumableDescription m) = Ok n2
      /\ extractTokens (itemMasterDescription m) = Ok T1
      /\ extractTokens (genConsumableDescription m) = Ok T2
      /\ (exists token, token ∈ T1 /\ token ∈ T2)
      /\ (15 * size (T1 ∪ T2) < 100 * size (T1 ∩ T2))%nat
      /\ (3 * Nat.max (String.length n1) (String.length n2)
          <= 10 * Nat.min (String.length n1) (String.length n2))%nat.
Proof.
  intros Hrun m Hm.
  destruct (matchDescriptionsAsync_resolved _ _ _ _ _ _ _ Hrun)
    as (final & Hlast & ->).
  destruct (matchDescriptionsAsync_final _ _ _ _ _ _ Hrun)
    as (nI & nG & final' & HI & HG & Hlast' & Hproduced & _).
  cbn [fst] in Hlast'. rewrite Hlast in Hlast'. injection Hlast' as <-.
  apply (rank_Forall _ _ maxResults) in Hproduced.
  rewrite List.Forall_forall in Hproduced.
  destruct (Hproduced m Hm) as (a & g & Ha & Hg & Hcand & _ & ->).
  destruct (preprocess_tokens _ _ _ HI a Ha) as [Hn1 Ht1].
  destruct (preprocess_tokens _ _ _ HG g Hg) as [Hn2 Ht2].
  rewrite isCandidate_tests in Hcand.
  apply andb_true_iff in Hcand as [Hlen Htok].
  apply Nat.leb_le in Hlen. apply Nat.ltb_lt in Htok.
  exists (normalizedDesc a), (normalizedDesc g), (tokens a), (tokens g).
  unfold resultOf. cbn [itemMasterDescription genConsumableDescription].
  repeat split; try assumption.
  destruct (size_pos_elem_of (tokens a ∩ tokens g)) as [token Htoken];
    [lia|].
  apply elem_of_intersection in Htoken. exists token. exact Htoken.
Qed.

Lemma matchDescriptionsAsync_share_token_witness :
  exists trace out,
    matchDescriptionsAsync [leftRow "Cotton Gauze 4x4"; leftRow "Latex glove"]
      [rightRow "cotton gauze roll"; rightRow "latex gloves"] 50 1000 false
    = Ok (trace, out)
    /\ List.map matchPercentage out = [9524 # 100; 7742 # 100]%Q
    /\ forall m, In m out ->
         exists T1 T2,
           extractTokens (itemMasterDescription m) = Ok T1
           /\ extractTokens (genConsumableDescription m) = Ok T2
           /\ exists token, token ∈ T1 /\ token ∈ T2.
Proof.
  do 2 eexists. split; [vm_compute; reflexivity|].
  split; [reflexivity|]. intros m Hm.
  destruct (matchDescriptionsAsync_share_token
              [leftRow "Cotton Gauze 4x4"; leftRow "Latex glove"]
              [rightRow "cotton gauze roll"; rightRow "latex gloves"]
              50 1000 false _ _ eq_refl m Hm)
    as (n1 & n2 & T1 & T2 & _ & _ & H1 & H2 & Hshared & _).
  exists T1, T2. auto.
Defined.

(** ** The values handed to the progress sink *)

Lemma Math_round_bounds x :
  (inject_Z (Math_round x) - (1 # 2) <= x)%Q
  /\ (x < inject_Z (Math_round x) + (1 # 2))%Q.
Proof.
  unfold Math_round. split.
  - apply (Qplus_le_l _ _ (1 # 2)).
    setoid_replace (inject_Z (Qfloor (x + (1 # 2))) - (1 # 2) + (1 # 2))%Q
      with (inject_Z (Qfloor (x + (1 # 2)))) using relation Qeq by ring.
    apply Qfloor_le.
  - apply (Qplus_lt_l _ _ (1 # 2)).
    setoid_replace (inject_Z (Qfloor (x + (1 # 2))) + (1 # 2) + (1 # 2))%Q
      with (inject_Z (Qfloor (x + (1 # 2)) + 1)) using relation Qeq
      by (rewrite inject_Z_plus; ring).
    apply Qlt_floor.
Qed.

Lemma percentAt_nearest (normalizedItemData : list NormalizedEntry) c :
  normalizedItemData <> [] ->
  let total := Z.of_nat (length normalizedItemData) in
  let k := percentAt normalizedItemData c in
  (2 * k - 1) * total <= 200 * Z.of_nat c <= (2 * k + 1) * total.
Proof.
  intros Hne total k.
  assert (Hpos : 0 < total)
    by (subst total; destruct normalizedItemData; [congruence|cbn; lia]).
  assert (HposQ : (0 < inject_Z total)%Q)
    by (change 0%Q with (inject_Z 0); rewrite <- Zlt_Qlt; exact Hpos).
  assert (Hnz : ~ (inject_Z total == 0)%Q)
    by (intros Hz; rewrite Hz in HposQ; discriminate).
  set (x := (Qnat c / Qnat (length normalizedItemData) * 100)%Q).
  assert (Hx : (x * (2 * inject_Z total) == inject_Z (200 * Z.of_nat c))%Q).
  { subst x total. unfold Qnat. rewrite inject_Z_mult. field. exact Hnz. }
  destruct (Math_round_bounds x) as [Hlow Hhigh].
  change (Math_round x) with k in Hlow, Hhigh.
  assert (Hscale : (0 < 2 * inject_Z total)%Q).
  { setoid_replace 0%Q with (2 * 0)%Q using relation Qeq by ring.
    apply Qmult_lt_l; [reflexivity|exact HposQ]. }
  split.
  - apply (Qmult_le_compat_r _ _ (2 * inject_Z total)) in Hlow;
      [|apply Qlt_le_weak, Hscale].
    rewrite Hx in Hlow. rewrite Zle_Qle.
    eapply Qle_trans; [|exact Hlow].
    rewrite inject_Z_mult. unfold Z.sub.
    rewrite inject_Z_plus, inject_Z_mult, inject_Z_opp.
    change (inject_Z 2) with 2%Q. change (inject_Z 1) with 1%Q.
    apply Qle_lteq. right. ring.
  - apply (Qmult_lt_compat_r _ _ (2 * inject_Z total)) in Hhigh;
      [|exact Hscale].
    rewrite Hx in Hhigh. rewrite Zle_Qle. apply Qlt_le_weak.
    eapply Qlt_le_trans; [exact Hhigh|].
    rewrite inject_Z_mult, inject_Z_plus, inject_Z_mult.
    change (inject_Z 2) with 2%Q. change (inject_Z 1) with 1%Q.
    apply Qle_lteq. right. ring.
Qed.

Lemma progressOf_nearest (normalizedItemData : list NormalizedEntry) c :
  normalizedItemData <> [] ->
  (c <= length normalizedItemData)%nat ->
  nearestPercent (length normalizedItemData) c
    (progressOf normalizedItemData c).
Proof.
  intros Hne Hc. exists (percentAt normalizedItemData c).
  split; [apply progressOf_percentAt, Hne|].
  split; [apply percentAt_range; assumption|].
  apply percentAt_nearest, Hne.
Qed.

Section Reports.
Variables normalizedItemData normalizedGenData : list NormalizedEntry.
Variable minThreshold : Q.
Variable maxResults : Z.

Local Abbreviation run :=
  (runChunks normalizedItemData normalizedGenData minThreshold maxResults
     true).

(** With a sink, every chunk appends the progress at its end index to the
    reports. *)
Lemma runChunks_reports st :
  forall i st',
    fst (run st) !! i = Some st' ->
    reported st'
    = reported st
      ++ List.map (fun s => progressOf normalizedItemData (currentIndex s))
           (firstn (S i) (fst (run st))).
Proof.
  induction st as [st IH]
    using (well_founded_induction
             (well_founded_ltof _
                (fun st =>
                   (length normalizedItemData - currentIndex st)%nat))).
  intros i st'. rewrite runChunks_step.
  pose proof (processChunk_fst normalizedItemData normalizedGenData
                minThreshold maxResults true st) as Hfst.
  cbv zeta in Hfst.
  destruct (processChunk _ _ _ _ _ st) as [st1 next] eqn:Hchunk.
  cbn [fst] in Hfst.
  assert (Hfirst :
            reported st1
            = reported st
              ++ [progressOf normalizedItemData (currentIndex st1)])
    by (rewrite Hfst; reflexivity).
  destruct next as [sorted|]; cbn [fst].
  - destruct i as [|i]; [|discriminate]. intros [= <-]. exact Hfirst.
  - destruct i as [|i]; [intros [= <-]; exact Hfirst|].
    intros Hlookup. cbn in Hlookup.
    apply IH in Hlookup;
      [|apply (processChunk_reschedule _ _ _ _ _ _ _ Hchunk)].
    rewrite Hlookup, Hfirst, <- app_assoc. reflexivity.
Qed.
End Reports.

(** C6, amended: when a sink is supplied and at least one left entry
    survives pre-processing, one value is reported per chunk; each is an
    integer between 0 and 100 nearest to the percentage of left entries
    processed when its chunk ends, and the values never decrease.  A chunk
    that ends with every left entry processed reports 100, and 100 is only
    reported by a chunk that ends with at least 99.5 percent of the left
    entries processed, which can be before the run is complete. *)
Theorem progress_reports
    (itemMasterData genConsumableData : list Row) (minThreshold : Q)
    (maxResults : Z) (total : nat)
    (trace : list SchedState) (out : list MatchResult) :
  survivorCount "Description" itemMasterData = Ok total ->
  (0 < total)%nat ->
  matchDescriptionsAsync itemMasterData genConsumableData minThreshold
    maxResults true = Ok (trace, out) ->
  forall i st,
    trace !! i = Some st ->
    Forall2 (fun s v => nearestPercent total (currentIndex s) v)
      (firstn (S i) trace) (reported st)
    /\ Forall isPercent (reported st)
    /\ nondecreasing (reported st)
    /\ (currentIndex st = total -> last (reported st) = Some (Fin 100))
    /\ (last (reported st) = Some (Fin 100) ->
        199 * Z.of_nat total <= 200 * Z.of_nat (currentIndex st)).
Proof.
  intros Hcount Hpos Hrun i st Hlookup.
  destruct (matchDescriptionsAsync_run _ _ _ _ _ _ Hrun)
    as (nItems & nGens & HI & HG & Hout).
  unfold survivorCount in Hcount. rewrite HI in Hcount.
  cbn in Hcount. injection Hcount as <-.
  assert (Hne : nItems <> [])
    by (destruct nItems; [cbn in Hpos; lia|discriminate]).
  apply (f_equal fst) in Hout. cbn [fst] in Hout. subst trace.
  pose proof (runChunks_reports nItems nGens minThreshold maxResults
                initialState i st Hlookup) as Hreports.
  cbn [reported initialState app] in Hreports.
  pose proof (progressInv_run nItems nGens minThreshold maxResults true Hne)
    as Hinv.
  assert (Hnearest :
            Forall2 (fun s v => nearestPercent (length nItems) (currentIndex s) v)
              (firstn (S i)
                 (fst (runChunks nItems nGens minThreshold maxResults true
                         initialState)))
              (reported st)).
  { rewrite Hreports. apply Forall2_fmap_r, Forall_Forall2_diag.
    apply Forall_forall. intros s Hs.
    apply progressOf_nearest; [exact Hne|].
    assert (Hin : s ∈ fst (runChunks nItems nGens minThreshold maxResults
                             true initialState))
      by (eapply subseteq_take; exact Hs).
    rewrite Forall_forall in Hinv. apply (Hinv s Hin). }
  split; [exact Hnearest|].
  assert (Hst : progressInv nItems true st).
  { rewrite Forall_forall in Hinv. apply Hinv.
    eapply list_elem_of_lookup_2. exact Hlookup. }
  split; [eapply progressInv_reports; eassumption|].
  split; [eapply progressInv_reports; eassumption|].
  destruct Hst as (Hidx & _ & _ & Hlast).
  assert (Hlast' :
            last (reported st)
            = Some (Fin (inject_Z (percentAt nItems (currentIndex st))))).
  { destruct Hlast as [->|Hlast]; [|apply Hlast; reflexivity].
    exfalso. apply (f_equal (@length _)) in Hreports.
    apply lookup_lt_Some in Hlookup.
    rewrite List.length_map, List.length_firstn in Hreports.
    cbn [reported initialState length] in Hreports. lia. }
  split.
  - intros Hdone. rewrite Hlast', Hdone, percentAt_total by exact Hne.
    reflexivity.
  - rewrite Hlast'. intros [= H100].
    pose proof (percentAt_nearest nItems (currentIndex st) Hne) as Hk.
    cbv zeta in Hk. rewrite H100 in Hk. lia.
Qed.

Lemma progress_reports_witness :
  exists trace out st,
    matchDescriptionsAsync (repeat (leftRow "abc") 401) [] 50 1000 true
    = Ok (trace, out)
    /\ trace !! 1%nat = Some st
    /\ List.map currentIndex trace = [200; 400; 401]%nat
    /\ reported st = [Fin 50; Fin 100]
    /\ Forall2 (fun s v => nearestPercent 401 (currentIndex s) v)
         (firstn 2 trace) (reported st)
    /\ Forall isPercent (reported st)
    /\ nondecreasing (reported st)
    /\ (currentIndex st = 401%nat -> last (reported st) = Some (Fin 100))
    /\ (last (reported st) = Some (Fin 100) ->
        199 * Z.of_nat 401 <= 200 * Z.of_nat (currentIndex st)).
Proof.
  do 3 eexists. split; [vm_compute; reflexivity|].
  split; [reflexivity|].
  split; [vm_compute; reflexivity|].
  split; [reflexivity|].
  refine (progress_reports (repeat (leftRow "abc") 401) [] 50 1000 401
            _ _ _ _ _ 1%nat _ _);
    [vm_compute; reflexivity|lia|vm_compute; reflexivity|reflexivity].
Defined.

(** ** The per-row early break and the recorded percentage *)

(** A percentage recorded above a threshold of two decimals was above it
    before rounding. *)
Lemma roundTo2_above (minThreshold x : Q) (k : Z) :
  (minThreshold == inject_Z k / 100)%Q ->
  (minThreshold < roundTo2 x)%Q -> (minThreshold < x)%Q.
Proof.
  intros Hk Hlt. rewrite Hk in *. unfold roundTo2 in Hlt.
  unfold Qdiv in Hlt. apply Qmult_lt_r in Hlt; [|reflexivity].
  rewrite <- Zlt_Qlt in Hlt.
  destruct (Math_round_bounds (x * 100)) as [Hlow _].
  apply Qlt_shift_div_r; [reflexivity|].
  eapply Qlt_le_trans; [|exact Hlow].
  apply (Qlt_le_trans _ (inject_Z (k + 1) - (1 # 2))).
  - rewrite inject_Z_plus.
    setoid_replace (inject_Z k + inject_Z 1 - (1 # 2))%Q
      with (inject_Z k + (1 # 2))%Q using relation Qeq
      by (change (inject_Z 1) with 1%Q; ring).
    rewrite <- (Qplus_0_r (inject_Z k)) at 1.
    apply Qplus_lt_r. reflexivity.
  - apply Qplus_le_l. rewrite <- Zle_Qle. lia.
Qed.

Lemma upToBreak_last itemData candidates :
  forall before genData after,
    upToBreak itemData candidates = before ++ genData :: after ->
    Qle_bool 98 (rawPercentage itemData genData) = true ->
    after = [].
Proof.
  induction candidates as [|c rest IH]; intros before genData after;
    cbn [upToBreak].
  - destruct before; discriminate.
  - destruct (Qle_bool 98 (rawPercentage itemData c)) eqn:Hc.
    + destruct before as [|b before]; cbn [app].
      * intros [= _ <-]. reflexivity.
      * intros [= _ Hrest]. destruct before; discriminate.
    + destruct before as [|b before]; cbn [app].
      * intros [= <- _] Hbreak. congruence.
      * intros [= _ Hrest]. apply (IH _ _ _ Hrest).
Qed.

Lemma resultsFor_above_98 normalizedGenData minThreshold itemData :
  forall before m after,
    resultsFor normalizedGenData minThreshold itemData
    = before ++ m :: after ->
    (98 < matchPercentage m)%Q ->
    after = [].
Proof.
  unfold resultsFor. intros before m after Hsplit Habove.
  apply map_eq_app in Hsplit.
  destruct Hsplit as (l1 & l2 & Hsplit & _ & Hmap).
  destruct l2 as [|g l2]; [discriminate|].
  cbn [List.map] in Hmap. injection Hmap as <- <-.
  cbn [matchPercentage resultOf] in Habove.
  apply (roundTo2_above 98 _ 9800) in Habove; [|reflexivity].
  rewrite (upToBreak_last _ _ _ _ _ Hsplit); [reflexivity|].
  apply Qle_bool_iff, Qlt_le_weak, Habove.
Qed.

(** C7 as stated fails: the first right row gives a result recorded with
    98.00, from a percentage of 122400/1249 that is under 98, and the scan
    of the left entry goes on to the second right row, which gives a second
    result. *)
Lemma stopsAt98_recorded_98 :
  ~ stopsAt98
      (processItem
         [entryOf "LONG DESCRIPTION" 0 (rightRow desc_9800);
          entryOf "LONG DESCRIPTION" 1 (rightRow desc_long)]
         50 [] (entryOf "Description" 0 (leftRow desc_long)))
  /\ exists trace,
       matchDescriptionsAsync [leftRow desc_long]
         [rightRow desc_9800; rightRow desc_long] 50 1000 false
       = Ok (trace,
             [mkMatch (leftRow desc_long) (rightRow desc_long) (10000 # 100)
                (VString desc_long) (VString desc_long);
              mkMatch (leftRow desc_long) (rightRow desc_9800) (9800 # 100)
                (VString desc_long) (VString desc_9800)]).
Proof.
  split; [|eexists; vm_compute; reflexivity].
  assert (Hresults :
            processItem
              [entryOf "LONG DESCRIPTION" 0 (rightRow desc_9800);
               entryOf "LONG DESCRIPTION" 1 (rightRow desc_long)]
              50 [] (entryOf "Description" 0 (leftRow desc_long))
            = [] ++ mkMatch (leftRow desc_long) (rightRow desc_9800)
                      (9800 # 100) (VString desc_long) (VString desc_9800)
                 :: [mkMatch (leftRow desc_long) (rightRow desc_long)
                       (10000 # 100) (VString desc_long)
                       (VString desc_long)])
    by (vm_compute; reflexivity).
  intros Hstops.
  assert (Hscore : (98 <= 9800 # 100)%Q) by discriminate.
  discriminate (Hstops _ _ _ Hresults Hscore).
Qed.

(** C7, amended: once a candidate of a left entry is collected with a
    percentage that is 98 or more before it is rounded, which is the case
    whenever the recorded matchPercentage is above 98, the right entries
    after it play no part for that left entry: the scan gives what it gives
    on the right entries up to that candidate, whatever follows it.  When
    that candidate is the first one scanned, the left entry contributes this
    single result.  In the results of one left entry, a result recorded
    above 98 is the last. *)
Theorem per_row_early_break
    (minThreshold : Q) (itemData genData : NormalizedEntry)
    (pre post : list NormalizedEntry) (acc : list MatchResult) :
  isCandidate itemData genData = true ->
  (minThreshold <= rawPercentage itemData genData)%Q ->
  (98 <= rawPercentage itemData genData)%Q
  \/ (98 < matchPercentage (resultOf itemData genData))%Q ->
  processItem (pre ++ genData :: post) minThreshold acc itemData
  = processItem (pre ++ [genData]) minThreshold acc itemData
  /\ processItem (genData :: post) minThreshold acc itemData
     = acc ++ [resultOf itemData genData]
  /\ (forall before m after,
        processItem (pre ++ genData :: post) minThreshold [] itemData
        = before ++ m :: after ->
        (98 < matchPercentage m)%Q ->
        after = []).
Proof.
  intros Hcand Hmin Hbreak.
  assert (Hraw : (98 <= rawPercentage itemData genData)%Q).
  { destruct Hbreak as [Hraw|Hstored]; [exact Hraw|].
    apply Qlt_le_weak, (roundTo2_above 98 _ 9800); [reflexivity|].
    exact Hstored. }
  apply Qle_bool_iff in Hmin. apply Qle_bool_iff in Hraw.
  split; [|split].
  - unfold processItem. rewrite !List.filter_app. cbn [List.filter].
    rewrite Hcand. apply scanCandidates_break; assumption.
  - unfold processItem. cbn [List.filter]. rewrite Hcand.
    cbn [scanCandidates]. rewrite Hmin, Hraw. reflexivity.
  - intros before m after. unfold processItem.
    rewrite scanCandidates_resultsFor. cbn [app].
    apply resultsFor_above_98.
Qed.

Lemma per_row_early_break_witness :
  (rawPercentage (entryOf "Description" 0 (leftRow desc_left))
     (entryOf "LONG DESCRIPTION" 1 (rightRow desc_85)) == 85)%Q
  /\ isCandidate (entryOf "Description" 0 (leftRow desc_left))
       (entryOf "LONG DESCRIPTION" 1 (rightRow desc_85)) = true
  /\ resultOf (entryOf "Description" 0 (leftRow desc_left))
       (entryOf "LONG DESCRIPTION" 0 (rightRow desc_99))
     = mkMatch (leftRow desc_left) (rightRow desc_99) (9900 # 100)
         (VString desc_left) (VString desc_99)
  /\ processItem
       [entryOf "LONG DESCRIPTION" 0 (rightRow desc_99);
        entryOf "LONG DESCRIPTION" 1 (rightRow desc_85)]
       50 [] (entryOf "Description" 0 (leftRow desc_left))
     = [resultOf (entryOf "Description" 0 (leftRow desc_left))
          (entryOf "LONG DESCRIPTION" 0 (rightRow desc_99))].
Proof.
  split; [vm_compute; reflexivity|].
  split; [vm_compute; reflexivity|].
  split; [vm_compute; reflexivity|].
  refine (proj1 (proj2 (per_row_early_break 50
                          (entryOf "Description" 0 (leftRow desc_left))
                          (entryOf "LONG DESCRIPTION" 0 (rightRow desc_99))
                          []
                          [entryOf "LONG DESCRIPTION" 1 (rightRow desc_85)]
                          [] _ _ _))).
  - vm_compute. reflexivity.
  - vm_compute. discriminate.
  - right. vm_compute. reflexivity.
Defined.

(** ** The two entry points on the same pair *)

(** C1, amended: for a [minThreshold] with at most two decimals,
    - every result that [matchDescriptionsAsync] collects is the result of a
      pair of surviving entries that passes the candidate filter and whose
      percentage reaches the threshold before rounding, and
      [matchDescriptions] collects a result for the same pair on the same
      input: the same rows and descriptions, with the similarity of the two
      descriptions, which reaches the threshold;
    - when [matchDescriptions] collects a result above the threshold for a
      pair that passes the candidate filter, [matchDescriptionsAsync]
      collects that pair too, provided the left entry was processed before
      the run ended and no earlier candidate of that left entry was
      collected with 98 or more;
    - below a threshold of 70 the run ends with every left entry
      processed.
    The two recorded percentages are not compared. *)
Theorem entry_points_related
    (itemMasterData genConsumableData : list Row) (minThreshold : Q)
    (maxResults : Z) (onProgress : bool)
    (out : list SchedState * list MatchResult) :
  (exists k : Z, minThreshold == inject_Z k / 100)%Q ->
  matchDescriptionsAsync itemMasterData genConsumableData minThreshold
    maxResults onProgress = Ok out ->
  exists normalizedItemData normalizedGenData syncAcc,
    preprocess "Description" itemMasterData = Ok normalizedItemData
    /\ preprocess "LONG DESCRIPTION" genConsumableData = Ok normalizedGenData
    /\ collectSync itemMasterData genConsumableData minThreshold = Ok syncAcc
    /\ (forall m,
          In m (collectedAsync out) ->
          produced normalizedItemData normalizedGenData minThreshold m
          /\ exists m',
               In m' syncAcc
               /\ samePair m m'
               /\ scoredPair itemMasterData genConsumableData minThreshold
                    m')
    /\ (forall a g pre post m',
          In a (firstn (processedAsync out) normalizedItemData) ->
          normalizedGenData = pre ++ g :: post ->
          isCandidate a g = true ->
          noBreak minThreshold a pre ->
          In m' syncAcc ->
          itemMasterRow m' = row a ->
          genConsumableRow m' = row g ->
          (minThreshold < matchPercentage m')%Q ->
          In (resultOf a g) (collectedAsync out))
    /\ ((minThreshold < 70)%Q ->
        processedAsync out = length normalizedItemData).
Proof.
  intros [k Hk] Hrun.
  destruct (matchDescriptionsAsync_final _ _ _ _ _ _ Hrun)
    as (nItems & nGens & final & Hitems & Hgens & Hlast & Hproduced
        & [Hidx Hswept] & Hend).
  destruct (sweepItems_ok minThreshold itemMasterData genConsumableData
              (preprocess_normalizable _ _ _ Hitems)
              (preprocess_normalizable _ _ _ Hgens) [])
    as [syncAcc Hsync].
  assert (Hscored : forall m', In m' syncAcc ->
            scoredPair itemMasterData genConsumableData minThreshold m').
  { intros m' Hm'.
    destruct (sweepItems_sound minThreshold _ _ _ _ Hsync m' Hm')
      as [[]|Hscored].
    exact Hscored. }
  unfold collectedAsync, processedAsync. rewrite Hlast. cbn [from_option].
  exists nItems, nGens, syncAcc.
  split; [exact Hitems|]. split; [exact Hgens|]. split; [exact Hsync|].
  split; [|split].
  - intros m Hm.
    eapply List.Forall_forall in Hproduced; [|exact Hm].
    split; [exact Hproduced|].
    destruct Hproduced as (a & g & Ha & Hg & _ & Hmin & ->).
    destruct (preprocess_entries _ _ _ Hitems a Ha)
      as (Harow & Hadesc & Hanorm & Haempty).
    destruct (preprocess_entries _ _ _ Hgens g Hg)
      as (Hgrow & Hgdesc & Hgnorm & Hgempty).
    pose proof (calculateSimilarity_entries a g Hanorm Hgnorm Haempty Hgempty)
      as Hsim.
    pose proof (normalizeString_truthy _ _ Hanorm Haempty) as Hta.
    pose proof (normalizeString_truthy _ _ Hgnorm Hgempty) as Htg.
    exists (resultOf a g).
    assert (Hin : In (resultOf a g) syncAcc).
    { unfold resultOf. rewrite Hadesc, Hgdesc in *.
      eapply sweepItems_complete; try eassumption.
      apply Qle_bool_iff. eapply roundTo2_threshold; eassumption. }
    split; [exact Hin|]. split; [repeat split|apply Hscored, Hin].
  - intros a g pre post m' Ha Hsplit Hcand Hpre Hm' Hrow_a Hrow_g Habove.
    rewrite Hswept.
    eapply fold_processItem_complete; try eassumption.
    assert (Ha' : In a nItems).
    { rewrite <- (firstn_skipn (currentIndex final) nItems).
      apply in_or_app. left. exact Ha. }
    assert (Hg : In g nGens)
      by (rewrite Hsplit; apply in_or_app; right; left; reflexivity).
    destruct (preprocess_entries _ _ _ Hitems a Ha')
      as (_ & Hadesc & Hanorm & Haempty).
    destruct (preprocess_entries _ _ _ Hgens g Hg)
      as (_ & Hgdesc & Hgnorm & Hgempty).
    pose proof (calculateSimilarity_entries a g Hanorm Hgnorm Haempty Hgempty)
      as Hsim.
    destruct (Hscored m' Hm')
      as (_ & _ & Hdesc_a & Hdesc_g & _ & _ & Hsim' & _).
    unfold descriptionOf in Hdesc_a, Hdesc_g.
    rewrite Hrow_a, <- Hadesc in Hdesc_a.
    rewrite Hrow_g, <- Hgdesc in Hdesc_g.
    rewrite Hdesc_a, Hdesc_g, Hsim in Hsim'. injection Hsim' as Hsim'.
    rewrite <- Hsim' in Habove.
    apply Qlt_le_weak. eapply roundTo2_above; eassumption.
  - intros Hlow. specialize (Hend Hlow). lia.
Qed.

Lemma entry_points_related_witness :
  exists out syncAcc m',
    matchDescriptionsAsync [leftRow "pad x 5"]
      [rightRow "pad x 5"; rightRow "7 m pad m net"] 30 1000 true = Ok out
    /\ collectSync [leftRow "pad x 5"]
         [rightRow "pad x 5"; rightRow "7 m pad m net"] 30 = Ok syncAcc
    /\ List.map matchPercentage (collectedAsync out) = [10000 # 100]%Q
    /\ List.map matchPercentage syncAcc = [10000 # 100; 3333 # 100]%Q
    /\ (forall m, In m (collectedAsync out) ->
          exists m', In m' syncAcc /\ samePair m m')
    /\ In m' syncAcc
    /\ (30 < matchPercentage m')%Q
    /\ In (resultOf (entryOf "Description" 0 (leftRow "pad x 5"))
             (entryOf "LONG DESCRIPTION" 0 (rightRow "pad x 5")))
         (collectedAsync out)
    /\ processedAsync out = 1%nat.
Proof.
  destruct (entry_points_related [leftRow "pad x 5"]
              [rightRow "pad x 5"; rightRow "7 m pad m net"] 30 1000 true
              _ (ex_intro _ 3000 eq_refl) eq_refl)
    as (nItems & nGens & syncAcc & Hitems & Hgens & Hsync & Hin & Hcollect
        & Hend).
  vm_compute in Hitems. injection Hitems as <-.
  vm_compute in Hgens. injection Hgens as <-.
  assert (Hacc : syncAcc
                 = [mkMatch (leftRow "pad x 5") (rightRow "pad x 5")
                      (10000 # 100) (VString "pad x 5") (VString "pad x 5");
                    mkMatch (leftRow "pad x 5") (rightRow "7 m pad m net")
                      (3333 # 100) (VString "pad x 5")
                      (VString "7 m pad m net")])
    by (vm_compute in Hsync; injection Hsync as <-; reflexivity).
  eexists. exists syncAcc.
  exists (mkMatch (leftRow "pad x 5") (rightRow "pad x 5")
            (10000 # 100) (VString "pad x 5") (VString "pad x 5")).
  split; [reflexivity|].
  split; [exact Hsync|].
  split; [vm_compute; reflexivity|].
  split; [rewrite Hacc; reflexivity|].
  split.
  { intros m Hm. destruct (Hin m Hm) as (_ & m' & Hm' & Hsame & _).
    exists m'. split; assumption. }
  split; [rewrite Hacc; left; reflexivity|].
  split; [reflexivity|].
  split.
  - eapply (Hcollect _ _ [] _
              (mkMatch (leftRow "pad x 5") (rightRow "pad x 5")
                 (10000 # 100) (VString "pad x 5") (VString "pad x 5"))).
    + rewrite (Hend eq_refl). left. reflexivity.
    + reflexivity.
    + vm_compute. reflexivity.
    + intros g' [].
    + rewrite Hacc. left. reflexivity.
    + vm_compute. reflexivity.
    + vm_compute. reflexivity.
    + reflexivity.
  - rewrite (Hend eq_refl). reflexivity.
Defined.
